(** * Settlement core of duel-prediction-backend

    A shallow embedding of the two on-chain settlement programs of the
    repository and the properties of their specification:

    - [escrow] and [prediction_market]: the Move modules
      [chess_escrow::escrow] and [chess_escrow::prediction_market]
      (src/contracts/sources/chess_escrow.move);
    - [PredictionMarket]: the Solidity contract
      (src/mantleContracts/contracts/PredictionMarket.sol).

    Unsigned machine integers ([u64], [uint256]) are integers of [Z] whose
    arithmetic is checked: both languages abort the transaction on overflow,
    which is written out in [add_u64], [mul_u64], [add_u256], [mul_u256].
    Tables and mappings are finite maps ([gmap]); an aborted or reverted
    transaction is an [Err] and leaves the state as it was. *)

From Stdlib Require Import ZArith Lia Bool List.
From stdpp Require Import base option gmap list strings.

Local Open Scope Z_scope.

(** ** Results of transactions *)

Inductive result (E A : Type) : Type :=
  | Ok (a : A)
  | Err (e : E).
Arguments Ok {E A} a.
Arguments Err {E A} e.

Definition bind {E A B : Type} (r : result E A) (k : A -> result E B) : result E B :=
  match r with
  | Ok a => k a
  | Err e => Err e
  end.

Notation "x <- r ;; k" := (bind r (fun x => k))
  (at level 100, r at next level, right associativity).
Notation "'check' b 'else' e ;; k" := (if b then k else Err e)
  (at level 100, b at next level, e at next level, right associativity).

Definition is_ok {E A : Type} (r : result E A) : bool :=
  match r with
  | Ok _ => true
  | Err _ => false
  end.

(** ** The Move side *)

Module aptos.

(** Why a Move transaction aborts: an [assert!] of the module with its
    error code, or one of the aborts of the virtual machine and of the
    framework. *)
Inductive abort : Type :=
  | Abort (code : Z)
  | MISSING_DATA
  | ARITHMETIC_ERROR
  | TABLE_ENTRY_MISSING
  | EINSUFFICIENT_BALANCE.

Definition MAX_U64 : Z := 18446744073709551615.

Definition add_u64 (a b : Z) : result abort Z :=
  check a + b <=? MAX_U64 else ARITHMETIC_ERROR ;; Ok (a + b).

Definition mul_u64 (a b : Z) : result abort Z :=
  check a * b <=? MAX_U64 else ARITHMETIC_ERROR ;; Ok (a * b).

Definition sub_u64 (a b : Z) : result abort Z :=
  check b <=? a else ARITHMETIC_ERROR ;; Ok (a - b).

(** [table::borrow] and [table::borrow_mut]: abort on an absent key. *)
Definition table_borrow {T : Type} (t : gmap Z T) (key : Z) : result abort T :=
  match t !! key with
  | Some v => Ok v
  | None => Err TABLE_ENTRY_MISSING
  end.

(** [borrow_global<T>(addr)]: aborts when no resource is published there. *)
Definition borrow_global {T : Type} (published : gmap Z T) (addr : Z) : result abort T :=
  match published !! addr with
  | Some r => Ok r
  | None => Err MISSING_DATA
  end.

(** Modelled from the spec: the funds-transfer primitive, which on this
    side is [aptos_framework::coin] and is not part of the repository.
    It moves value from a payer to a payee and fails when the payer's
    balance is insufficient. *)
Module coin.

Definition balance (c : gmap Z Z) (owner : Z) : Z := default 0 (c !! owner).

Definition withdraw (c : gmap Z Z) (from amount : Z) : result abort (gmap Z Z) :=
  check amount <=? balance c from else EINSUFFICIENT_BALANCE ;;
  Ok (<[from := balance c from - amount]> c).

Definition deposit (c : gmap Z Z) (to amount : Z) : gmap Z Z :=
  <[to := balance c to + amount]> c.

Definition transfer (c : gmap Z Z) (from to amount : Z) : result abort (gmap Z Z) :=
  c' <- withdraw c from amount ;; Ok (deposit c' to amount).

End coin.

End aptos.

(** ** [chess_escrow::escrow] *)

Module escrow.
Import aptos.

Definition ENOT_ADMIN : Z := 1.
Definition EALREADY_DEPOSITED : Z := 2.
Definition EESCROW_NOT_READY : Z := 3.
Definition EESCROW_NOT_FOUND : Z := 4.
Definition EESCROW_ALREADY_EXISTS : Z := 5.

Record Escrow : Type := {
  admin : Z;
  player1 : Z;
  player2 : Z;
  amount : Z;
  total : Z;
  deposited1 : bool;
  deposited2 : bool
}.

(** The [EscrowStore] resources (one table of escrows per publishing
    address) and the coin balances of the accounts. *)
Record world : Type := {
  stores : gmap Z (gmap Z Escrow);
  coins : gmap Z Z
}.

Definition publish (w : world) (addr : Z) (store : gmap Z Escrow) : world :=
  {| stores := <[addr := store]> (stores w); coins := coins w |}.

Definition initialize (admin_addr : Z) (w : world) : result abort world :=
  match stores w !! admin_addr with
  | None => Ok (publish w admin_addr ∅)
  | Some _ => Ok w
  end.

Definition create_escrow (admin_addr match_id player1 player2 amount : Z)
    (w : world) : result abort world :=
  store <- borrow_global (stores w) admin_addr ;;
  match store !! match_id with
  | Some _ => Err (Abort EESCROW_ALREADY_EXISTS)
  | None =>
      Ok (publish w admin_addr
            (<[match_id := {| admin := admin_addr;
                              player1 := player1;
                              player2 := player2;
                              amount := amount;
                              total := 0;
                              deposited1 := false;
                              deposited2 := false |}]> store))
  end.

(** [escrow.deposited1 = true; escrow.total += escrow.amount], and the same
    for the second slot, with the new total already computed. *)
Definition set_deposited1 (e : Escrow) (total' : Z) : Escrow :=
  {| admin := admin e; player1 := player1 e; player2 := player2 e;
     amount := amount e; total := total';
     deposited1 := true; deposited2 := deposited2 e |}.

Definition set_deposited2 (e : Escrow) (total' : Z) : Escrow :=
  {| admin := admin e; player1 := player1 e; player2 := player2 e;
     amount := amount e; total := total';
     deposited1 := deposited1 e; deposited2 := true |}.

Definition deposit (sender admin_addr match_id : Z) (w : world) : result abort world :=
  store <- borrow_global (stores w) admin_addr ;;
  match store !! match_id with
  | None => Err (Abort EESCROW_NOT_FOUND)
  | Some escrow =>
      if sender =? player1 escrow then
        check negb (deposited1 escrow) else Abort EALREADY_DEPOSITED ;;
        c <- coin.transfer (coins w) sender admin_addr (amount escrow) ;;
        total' <- add_u64 (total escrow) (amount escrow) ;;
        Ok {| stores :=
                <[admin_addr := <[match_id := set_deposited1 escrow total']> store]>
                  (stores w);
              coins := c |}
      else if sender =? player2 escrow then
        check negb (deposited2 escrow) else Abort EALREADY_DEPOSITED ;;
        c <- coin.transfer (coins w) sender admin_addr (amount escrow) ;;
        total' <- add_u64 (total escrow) (amount escrow) ;;
        Ok {| stores :=
                <[admin_addr := <[match_id := set_deposited2 escrow total']> store]>
                  (stores w);
              coins := c |}
      else Ok w
  end.

Definition resolve_win (admin_addr match_id winner : Z) (w : world) : result abort world :=
  store <- borrow_global (stores w) admin_addr ;;
  match store !! match_id with
  | None => Err (Abort EESCROW_NOT_FOUND)
  | Some escrow =>
      check admin_addr =? admin escrow else Abort ENOT_ADMIN ;;
      check deposited1 escrow && deposited2 escrow else Abort EESCROW_NOT_READY ;;
      let total := total escrow in
      scaled <- mul_u64 total 5 ;;
      let fee := scaled / 100 in
      payout <- sub_u64 total fee ;;
      c <- coin.transfer (coins w) admin_addr winner payout ;;
      Ok {| stores := <[admin_addr := delete match_id store]> (stores w);
            coins := c |}
  end.

Definition resolve_draw (admin_addr match_id : Z) (w : world) : result abort world :=
  store <- borrow_global (stores w) admin_addr ;;
  match store !! match_id with
  | None => Err (Abort EESCROW_NOT_FOUND)
  | Some escrow =>
      check admin_addr =? admin escrow else Abort ENOT_ADMIN ;;
      check deposited1 escrow && deposited2 escrow else Abort EESCROW_NOT_READY ;;
      let total := total escrow in
      scaled <- mul_u64 total 5 ;;
      let fee := scaled / 100 in
      remaining <- sub_u64 total fee ;;
      let split := remaining / 2 in
      c1 <- coin.transfer (coins w) admin_addr (player1 escrow) split ;;
      c2 <- coin.transfer c1 admin_addr (player2 escrow) split ;;
      Ok {| stores := <[admin_addr := delete match_id store]> (stores w);
            coins := c2 |}
  end.

(** The record of a match in the table published at [admin_addr]. *)
Definition escrow_at (w : world) (admin_addr match_id : Z) : option Escrow :=
  stores w !! admin_addr ≫= λ store, store !! match_id.

(** Names for the amounts [resolve_win] and [resolve_draw] compute from
    the total of an escrow: [fee = total * 5 / 100],
    [payout = remaining = total - fee], [split = remaining / 2]. *)
Definition fee_of (t : Z) : Z := t * 5 / 100.
Definition payout_of (t : Z) : Z := t - fee_of t.
Definition split_of (t : Z) : Z := payout_of t / 2.

(** The record of an escrow in the table of [a] is consistent when [a] is
    its administrator and its total is its stake times the number of
    deposit flags that are up. *)
Definition consistent (a : Z) (e : Escrow) : Prop :=
  admin e = a
  /\ total e = amount e * (Z.b2z (deposited1 e) + Z.b2z (deposited2 e)).

Definition all_consistent (w : world) : Prop :=
  forall a mid e, escrow_at w a mid = Some e -> consistent a e.

(** The record of an escrow of administrator [a] whose two players are the
    same identity [p]:
    the second flag is down, and the first one is up when [d] says it has
    been raised. *)
Definition stuck (a p : Z) (d : bool) (e : Escrow) : Prop :=
  admin e = a /\ player1 e = p /\ player2 e = p /\ deposited2 e = false
  /\ (d = true -> deposited1 e = true).

(** The transactions that touch an escrow world: the entry functions of
    the module, and a plain coin transfer between two accounts. A
    transaction that aborts leaves the world as it was. *)
Inductive call : Type :=
  | Initialize (admin_addr : Z)
  | CreateEscrow (admin_addr match_id player1 player2 amount : Z)
  | Deposit (sender admin_addr match_id : Z)
  | ResolveWin (admin_addr match_id winner : Z)
  | ResolveDraw (admin_addr match_id : Z)
  | CoinTransfer (from to amount : Z).

Definition exec (c : call) (w : world) : result abort world :=
  match c with
  | Initialize a => initialize a w
  | CreateEscrow a mid p1 p2 amt => create_escrow a mid p1 p2 amt w
  | Deposit sender a mid => deposit sender a mid w
  | ResolveWin a mid winner => resolve_win a mid winner w
  | ResolveDraw a mid => resolve_draw a mid w
  | CoinTransfer from to amt =>
      c' <- coin.transfer (coins w) from to amt ;;
      Ok {| stores := stores w; coins := c' |}
  end.

Definition step (w : world) (c : call) : world :=
  match exec c w with
  | Ok w' => w'
  | Err _ => w
  end.

Definition run (calls : list call) (w : world) : world := fold_left step calls w.

(** A world with no escrow store, where the accounts 11 and 12 hold 100
    coins each; and the escrow of match 1 between them, administered by
    account 10, after both deposits of [stake]. *)
Definition genesis : world :=
  {| stores := ∅; coins := <[11 := 100]> (<[12 := 100]> ∅) |}.

Definition funded (stake : Z) : world :=
  run [Initialize 10; CreateEscrow 10 1 11 12 stake; Deposit 11 10 1; Deposit 12 10 1]
      genesis.

(** Whether a transaction is addressed to the record of match [mid] in
    the table of [a]. *)
Definition touches (c : call) (a mid : Z) : bool :=
  match c with
  | Initialize _ => false
  | CreateEscrow a' mid' _ _ _ => (a' =? a) && (mid' =? mid)
  | Deposit _ a' mid' => (a' =? a) && (mid' =? mid)
  | ResolveWin a' mid' _ => (a' =? a) && (mid' =? mid)
  | ResolveDraw a' mid' => (a' =? a) && (mid' =? mid)
  | CoinTransfer _ _ _ => false
  end.

End escrow.


(** ** [chess_escrow::prediction_market] *)

Module prediction_market.
Import aptos.

Definition ENOT_ADMIN : Z := 1.
Definition EMARKET_NOT_FOUND : Z := 2.
Definition EMARKET_ALREADY_EXISTS : Z := 3.
Definition EMARKET_ALREADY_RESOLVED : Z := 4.
Definition EINVALID_OUTCOME : Z := 5.
Definition EZERO_BET : Z := 6.
Definition ENOT_RESOLVED : Z := 7.
Definition ENO_SHARES : Z := 8.
Definition EALREADY_CLAIMED : Z := 9.

Definition OUTCOME_PLAYER1 : Z := 1.
Definition OUTCOME_PLAYER2 : Z := 2.
Definition OUTCOME_DRAW : Z := 3.

Definition STATUS_ACTIVE : Z := 1.
Definition STATUS_RESOLVED : Z := 2.

(** [pool] is the value of the [Coin<AptosCoin>] the market holds. *)
Record Market : Type := {
  admin : Z;
  match_id : Z;
  player1 : Z;
  player2 : Z;
  status : Z;
  winning_outcome : Z;
  pool : Z;
  original_pool_size : Z;
  player1_shares : Z;
  player2_shares : Z;
  draw_shares : Z
}.

(** The three resources published at an address by [initialize]:
    [MarketStore] (match -> market), [OutcomeSharesStore] (match -> outcome
    -> user -> shares), [ClaimTrackingStore] (match -> user -> claimed);
    and the coin balances of the accounts. *)
Record world : Type := {
  market_stores : gmap Z (gmap Z Market);
  shares_stores : gmap Z (gmap Z (gmap Z (gmap Z Z)));
  claim_stores : gmap Z (gmap Z (gmap Z bool));
  coins : gmap Z Z
}.

Definition valid_outcome (outcome : Z) : bool :=
  (outcome =? OUTCOME_PLAYER1) || (outcome =? OUTCOME_PLAYER2) || (outcome =? OUTCOME_DRAW).

(** The total recorded on an outcome, with the branches of the source:
    anything that is neither Player1 nor Player2 reads the draw total. *)
Definition outcome_shares (market : Market) (outcome : Z) : Z :=
  if outcome =? OUTCOME_PLAYER1 then player1_shares market
  else if outcome =? OUTCOME_PLAYER2 then player2_shares market
  else draw_shares market.

(** Field updates of a market record: [market.status = STATUS_RESOLVED;
    market.winning_outcome = o; market.original_pool_size = value(pool)],
    and a new value of the held coin. *)
Definition set_resolution (m : Market) (o : Z) : Market :=
  {| admin := admin m; match_id := match_id m;
     player1 := player1 m; player2 := player2 m;
     status := STATUS_RESOLVED; winning_outcome := o;
     pool := pool m; original_pool_size := pool m;
     player1_shares := player1_shares m;
     player2_shares := player2_shares m;
     draw_shares := draw_shares m |}.

Definition set_pool (m : Market) (value : Z) : Market :=
  {| admin := admin m; match_id := match_id m;
     player1 := player1 m; player2 := player2 m;
     status := status m; winning_outcome := winning_outcome m;
     pool := value; original_pool_size := original_pool_size m;
     player1_shares := player1_shares m;
     player2_shares := player2_shares m;
     draw_shares := draw_shares m |}.

Definition initialize (admin_addr : Z) (w : world) : result abort world :=
  Ok {| market_stores :=
          match market_stores w !! admin_addr with
          | None => <[admin_addr := ∅]> (market_stores w)
          | Some _ => market_stores w
          end;
        shares_stores :=
          match shares_stores w !! admin_addr with
          | None => <[admin_addr := ∅]> (shares_stores w)
          | Some _ => shares_stores w
          end;
        claim_stores :=
          match claim_stores w !! admin_addr with
          | None => <[admin_addr := ∅]> (claim_stores w)
          | Some _ => claim_stores w
          end;
        coins := coins w |}.

Definition create_market (admin_addr match_id player1 player2 : Z) (w : world)
    : result abort world :=
  store <- borrow_global (market_stores w) admin_addr ;;
  match store !! match_id with
  | Some _ => Err (Abort EMARKET_ALREADY_EXISTS)
  | None =>
      Ok {| market_stores :=
              <[admin_addr :=
                  <[match_id := {| admin := admin_addr;
                                   match_id := match_id;
                                   player1 := player1;
                                   player2 := player2;
                                   status := STATUS_ACTIVE;
                                   winning_outcome := 0;
                                   pool := 0;
                                   original_pool_size := 0;
                                   player1_shares := 0;
                                   player2_shares := 0;
                                   draw_shares := 0 |}]> store]> (market_stores w);
            shares_stores := shares_stores w;
            claim_stores := claim_stores w;
            coins := coins w |}
  end.

(** The market totals after a bet of [amount] on [outcome]. *)
Definition add_shares (market : Market) (outcome amount pool' : Z) : result abort Market :=
  if outcome =? OUTCOME_PLAYER1 then
    n <- add_u64 (player1_shares market) amount ;;
    Ok {| admin := admin market; match_id := match_id market;
          player1 := player1 market; player2 := player2 market;
          status := status market; winning_outcome := winning_outcome market;
          pool := pool'; original_pool_size := original_pool_size market;
          player1_shares := n;
          player2_shares := player2_shares market;
          draw_shares := draw_shares market |}
  else if outcome =? OUTCOME_PLAYER2 then
    n <- add_u64 (player2_shares market) amount ;;
    Ok {| admin := admin market; match_id := match_id market;
          player1 := player1 market; player2 := player2 market;
          status := status market; winning_outcome := winning_outcome market;
          pool := pool'; original_pool_size := original_pool_size market;
          player1_shares := player1_shares market;
          player2_shares := n;
          draw_shares := draw_shares market |}
  else
    n <- add_u64 (draw_shares market) amount ;;
    Ok {| admin := admin market; match_id := match_id market;
          player1 := player1 market; player2 := player2 market;
          status := status market; winning_outcome := winning_outcome market;
          pool := pool'; original_pool_size := original_pool_size market;
          player1_shares := player1_shares market;
          player2_shares := player2_shares market;
          draw_shares := n |}.

Definition bet (user_addr admin_addr match_id outcome amount : Z) (w : world)
    : result abort world :=
  check valid_outcome outcome else Abort EINVALID_OUTCOME ;;
  check amount >? 0 else Abort EZERO_BET ;;
  market_store <- borrow_global (market_stores w) admin_addr ;;
  match market_store !! match_id with
  | None => Err (Abort EMARKET_NOT_FOUND)
  | Some market =>
      check status market =? STATUS_ACTIVE else Abort EMARKET_ALREADY_RESOLVED ;;
      c <- coin.withdraw (coins w) user_addr amount ;;
      pool' <- add_u64 (pool market) amount ;;
      market' <- add_shares market outcome amount pool' ;;
      shares_store <- borrow_global (shares_stores w) admin_addr ;;
      let outcome_table := default ∅ (shares_store !! match_id) in
      let user_shares := default ∅ (outcome_table !! outcome) in
      let current_shares := default 0 (user_shares !! user_addr) in
      shares' <- add_u64 current_shares amount ;;
      Ok {| market_stores :=
              <[admin_addr := <[match_id := market']> market_store]> (market_stores w);
            shares_stores :=
              <[admin_addr :=
                  <[match_id :=
                      <[outcome := <[user_addr := shares']> user_shares]> outcome_table]>
                    shares_store]> (shares_stores w);
            claim_stores := claim_stores w;
            coins := c |}
  end.

Definition resolve_market (admin_addr match_id winning_outcome : Z) (w : world)
    : result abort world :=
  store <- borrow_global (market_stores w) admin_addr ;;
  match store !! match_id with
  | None => Err (Abort EMARKET_NOT_FOUND)
  | Some market =>
      check valid_outcome winning_outcome else Abort EINVALID_OUTCOME ;;
      check admin_addr =? admin market else Abort ENOT_ADMIN ;;
      check status market =? STATUS_ACTIVE else Abort EMARKET_ALREADY_RESOLVED ;;
      let market' := set_resolution market winning_outcome in
      claim_store <- borrow_global (claim_stores w) admin_addr ;;
      Ok {| market_stores := <[admin_addr := <[match_id := market']> store]> (market_stores w);
            shares_stores := shares_stores w;
            claim_stores :=
              match claim_store !! match_id with
              | None => <[admin_addr := <[match_id := ∅]> claim_store]> (claim_stores w)
              | Some _ => claim_stores w
              end;
            coins := coins w |}
  end.

Definition claim_rewards (user_addr admin_addr match_id : Z) (w : world)
    : result abort world :=
  market_store <- borrow_global (market_stores w) admin_addr ;;
  match market_store !! match_id with
  | None => Err (Abort EMARKET_NOT_FOUND)
  | Some market =>
      check status market =? STATUS_RESOLVED else Abort ENOT_RESOLVED ;;
      check negb (winning_outcome market =? 0) else Abort ENOT_RESOLVED ;;
      claim_store <- borrow_global (claim_stores w) admin_addr ;;
      claim_status <- table_borrow claim_store match_id ;;
      check negb (default false (claim_status !! user_addr)) else Abort EALREADY_CLAIMED ;;
      let winning_outcome := winning_outcome market in
      shares_store <- borrow_global (shares_stores w) admin_addr ;;
      match shares_store !! match_id with
      | None => Err (Abort EMARKET_NOT_FOUND)
      | Some outcome_table =>
          match outcome_table !! winning_outcome with
          | None => Err (Abort EMARKET_NOT_FOUND)
          | Some user_shares =>
              match user_shares !! user_addr with
              | None => Err (Abort ENO_SHARES)
              | Some user_share_amount =>
                  check user_share_amount >? 0 else Abort ENO_SHARES ;;
                  let winning_outcome_shares := outcome_shares market winning_outcome in
                  check winning_outcome_shares >? 0 else Abort ENO_SHARES ;;
                  let total_pool := original_pool_size market in
                  product <- mul_u64 user_share_amount total_pool ;;
                  let reward := product / winning_outcome_shares in
                  check reward <=? pool market else EINSUFFICIENT_BALANCE ;;
                  let market' := set_pool market (pool market - reward) in
                  Ok {| market_stores :=
                          <[admin_addr := <[match_id := market']> market_store]>
                            (market_stores w);
                        shares_stores :=
                          <[admin_addr :=
                              <[match_id :=
                                  <[winning_outcome := delete user_addr user_shares]>
                                    outcome_table]> shares_store]> (shares_stores w);
                        claim_stores :=
                          <[admin_addr :=
                              <[match_id := <[user_addr := true]> claim_status]> claim_store]>
                            (claim_stores w);
                        coins := coin.deposit (coins w) user_addr reward |}
              end
          end
      end
  end.

Definition get_market_stats (admin_addr match_id : Z) (w : world)
    : result abort (Z * Z * Z * Z * Z * Z) :=
  store <- borrow_global (market_stores w) admin_addr ;;
  match store !! match_id with
  | None => Err (Abort EMARKET_NOT_FOUND)
  | Some market =>
      Ok (status market, winning_outcome market, pool market,
          player1_shares market, player2_shares market, draw_shares market)
  end.

Definition get_user_shares (admin_addr match_id outcome user : Z) (w : world)
    : result abort Z :=
  shares_store <- borrow_global (shares_stores w) admin_addr ;;
  match shares_store !! match_id with
  | None => Ok 0
  | Some outcome_table =>
      match outcome_table !! outcome with
      | None => Ok 0
      | Some user_shares =>
          match user_shares !! user with
          | None => Ok 0
          | Some n => Ok n
          end
      end
  end.

Definition has_claimed (admin_addr match_id user : Z) (w : world) : result abort bool :=
  claim_store <- borrow_global (claim_stores w) admin_addr ;;
  match claim_store !! match_id with
  | None => Ok false
  | Some claim_status =>
      match claim_status !! user with
      | None => Ok false
      | Some b => Ok b
      end
  end.

Definition get_potential_reward (admin_addr match_id outcome user : Z) (w : world)
    : result abort Z :=
  market_store <- borrow_global (market_stores w) admin_addr ;;
  match market_store !! match_id with
  | None => Ok 0
  | Some market =>
      user_shares <- get_user_shares admin_addr match_id outcome user w ;;
      if user_shares =? 0 then Ok 0
      else if (status market =? STATUS_RESOLVED) && negb (winning_outcome market =? outcome)
      then Ok 0
      else
        let outcome_shares := outcome_shares market outcome in
        if outcome_shares =? 0 then Ok 0
        else
          let total_pool := pool market in
          product <- mul_u64 user_shares total_pool ;;
          Ok (product / outcome_shares)
  end.

Definition get_user_all_shares (admin_addr match_id user : Z) (w : world)
    : result abort (Z * Z * Z) :=
  p1 <- get_user_shares admin_addr match_id OUTCOME_PLAYER1 user w ;;
  p2 <- get_user_shares admin_addr match_id OUTCOME_PLAYER2 user w ;;
  d <- get_user_shares admin_addr match_id OUTCOME_DRAW user w ;;
  Ok (p1, p2, d).

Definition market_exists (admin_addr match_id : Z) (w : world) : result abort bool :=
  store <- borrow_global (market_stores w) admin_addr ;;
  Ok (bool_decide (is_Some (store !! match_id))).

Definition get_market_admin (admin_addr match_id : Z) (w : world) : result abort Z :=
  store <- borrow_global (market_stores w) admin_addr ;;
  match store !! match_id with
  | None => Err (Abort EMARKET_NOT_FOUND)
  | Some market => Ok (admin market)
  end.

(** The record of a market in the table published at [admin_addr], and
    the shares recorded for a user (0 where a table or an entry is missing,
    as [get_user_shares] reads them). *)
Definition market_at (w : world) (admin_addr id : Z) : option Market :=
  market_stores w !! admin_addr ≫= λ store, store !! id.

Definition shares_at (w : world) (admin_addr id outcome user : Z) : Z :=
  default 0 (shares_stores w !! admin_addr ≫= λ shares_store,
             shares_store !! id ≫= λ outcome_table,
             outcome_table !! outcome ≫= λ user_shares, user_shares !! user).

(** [pool == sum of the outcome totals], for the coin the market holds. *)
Definition pool_balanced (m : Market) : Prop :=
  pool m = player1_shares m + player2_shares m + draw_shares m.

(** The transactions of the module. A transaction that aborts leaves the
    world as it was. *)
Inductive call : Type :=
  | Initialize (admin_addr : Z)
  | CreateMarket (admin_addr match_id player1 player2 : Z)
  | Bet (user_addr admin_addr match_id outcome amount : Z)
  | ResolveMarket (admin_addr match_id winning_outcome : Z)
  | ClaimRewards (user_addr admin_addr match_id : Z).

Definition exec (c : call) (w : world) : result abort world :=
  match c with
  | Initialize a => initialize a w
  | CreateMarket a id p1 p2 => create_market a id p1 p2 w
  | Bet user a id outcome amount => bet user a id outcome amount w
  | ResolveMarket a id outcome => resolve_market a id outcome w
  | ClaimRewards user a id => claim_rewards user a id w
  end.

Definition step (w : world) (c : call) : world :=
  match exec c w with
  | Ok w' => w'
  | Err _ => w
  end.

Definition run (calls : list call) (w : world) : world := fold_left step calls w.

(** [bets w w']: [w'] is reached from [w] by a finite sequence of [bet]
    transactions, by any users on any markets, none of which aborted. *)
Inductive bets : world -> world -> Prop :=
  | bets_none (w : world) : bets w w
  | bets_more (w w1 w2 : world) (user_addr admin_addr match_id outcome amount : Z) :
      bets w w1 -> bet user_addr admin_addr match_id outcome amount w1 = Ok w2 ->
      bets w w2.

(** What the module keeps true of its resources: the three stores of an
    address are published together; every market has the address of its
    table as administrator; and a market is Active, or Resolved with one of
    the three outcomes as winner and a claim table for its match. *)
Definition well_formed (w : world) : Prop :=
  (forall a, is_Some (market_stores w !! a) ->
             is_Some (shares_stores w !! a) /\ is_Some (claim_stores w !! a))
  /\ (forall a id m, market_at w a id = Some m ->
        admin m = a
        /\ (status m = STATUS_ACTIVE
            \/ (status m = STATUS_RESOLVED
                /\ valid_outcome (winning_outcome m) = true
                /\ exists cs claimed,
                     claim_stores w !! a = Some cs /\ cs !! id = Some claimed))).

(** A world without stores in which each listed account holds the listed
    amount of coins. *)
Definition genesis (holdings : list (Z * Z)) : world :=
  {| market_stores := ∅; shares_stores := ∅; claim_stores := ∅;
     coins := list_to_map holdings |}.

(** Market 1 of administrator 10: accounts 21 and 22 stake 1000 and 2000 on
    Player1, account 23 stakes 1500 on Player2, and Player1 wins. *)
Definition resolved_4500 : world :=
  run [Initialize 10; CreateMarket 10 1 11 12;
       Bet 21 10 1 OUTCOME_PLAYER1 1000; Bet 22 10 1 OUTCOME_PLAYER1 2000;
       Bet 23 10 1 OUTCOME_PLAYER2 1500;
       ResolveMarket 10 1 OUTCOME_PLAYER1]
      (genesis [(21, 1000); (22, 2000); (23, 1500)]).

(** Market 1 of administrator 10 with a single stake of [10 ^ 10] units
    (100 coins of 8 decimals) by account 21 on Player1, and Player1 wins. *)
Definition resolved_100_coins : world :=
  run [Initialize 10; CreateMarket 10 1 11 12;
       Bet 21 10 1 OUTCOME_PLAYER1 (10 ^ 10);
       ResolveMarket 10 1 OUTCOME_PLAYER1]
      (genesis [(21, 10 ^ 10)]).

(** Market 1 of administrator 10 with a single stake of [2 ^ 32] units
    (less than 43 coins of 8 decimals) by account 21 on Player1, and
    Player1 wins. *)
Definition resolved_lone_stake : world :=
  run [Initialize 10; CreateMarket 10 1 11 12;
       Bet 21 10 1 OUTCOME_PLAYER1 (2 ^ 32);
       ResolveMarket 10 1 OUTCOME_PLAYER1]
      (genesis [(21, 2 ^ 32)]).

(** A reward still to be claimed: the market is recorded as [m], up to the
    value of the coin it still holds, the user's claimed flag is down, and
    the user's share of the winning outcome is [u]. *)
Definition unpaid (w : world) (user a id : Z) (m : Market) (u : Z) : Prop :=
  (exists p, market_at w a id = Some (set_pool m p))
  /\ (exists cs claimed,
        claim_stores w !! a = Some cs /\ cs !! id = Some claimed
        /\ default false (claimed !! user) = false)
  /\ (exists ss ot us,
        shares_stores w !! a = Some ss /\ ss !! id = Some ot
        /\ ot !! winning_outcome m = Some us /\ us !! user = Some u).

End prediction_market.

(** ** [PredictionMarket.sol] *)

Module PredictionMarket.

(** Why a call reverts: one of the custom errors of the contract, a failed
    [require] with its message, a checked-arithmetic panic, or a failure of
    the token. *)
Inductive revert : Type :=
  | NotAdmin
  | MarketNotFound
  | MarketAlreadyExists
  | MarketAlreadyResolved
  | InvalidOutcome
  | ZeroBet
  | NotResolved
  | NoShares
  | AlreadyClaimed
  | Error (reason : string)
  | Panic
  | TransferFailed.

Definition MAX_UINT256 : Z := 2 ^ 256 - 1.

Definition add_u256 (a b : Z) : result revert Z :=
  check a + b <=? MAX_UINT256 else Panic ;; Ok (a + b).

Definition mul_u256 (a b : Z) : result revert Z :=
  check a * b <=? MAX_UINT256 else Panic ;; Ok (a * b).

Definition OUTCOME_PLAYER1 : Z := 1.
Definition OUTCOME_PLAYER2 : Z := 2.
Definition OUTCOME_DRAW : Z := 3.

Definition STATUS_ACTIVE : Z := 1.
Definition STATUS_RESOLVED : Z := 2.

Record Market : Type := {
  admin : Z;
  matchId : Z;
  player1 : Z;
  player2 : Z;
  status : Z;
  winningOutcome : Z;
  pool : Z;
  originalPoolSize : Z;
  player1Shares : Z;
  player2Shares : Z;
  drawShares : Z
}.

(** Modelled from the spec: the funds-transfer primitive, which on this
    side is the ERC-20 token behind [IERC20] and [SafeERC20] and is not part
    of the repository. It moves value from a payer to a payee and fails
    when the payer's balance, or the allowance the payer gave the spender,
    is insufficient. *)
Module IERC20.

Record ledger : Type := {
  balances : gmap Z Z;
  allowances : gmap (Z * Z) Z
}.

Definition balanceOf (t : ledger) (owner : Z) : Z := default 0 (balances t !! owner).

Definition allowance (t : ledger) (owner spender : Z) : Z :=
  default 0 (allowances t !! (owner, spender)).

Definition move (b : gmap Z Z) (from to amount : Z) : gmap Z Z :=
  let b' := <[from := default 0 (b !! from) - amount]> b in
  <[to := default 0 (b' !! to) + amount]> b'.

Definition safeTransfer (t : ledger) (from to amount : Z) : result revert ledger :=
  check amount <=? balanceOf t from else TransferFailed ;;
  Ok {| balances := move (balances t) from to amount; allowances := allowances t |}.

Definition safeTransferFrom (t : ledger) (spender from to amount : Z)
    : result revert ledger :=
  check amount <=? allowance t from spender else TransferFailed ;;
  check amount <=? balanceOf t from else TransferFailed ;;
  Ok {| balances := move (balances t) from to amount;
        allowances := <[(from, spender) := allowance t from spender - amount]> (allowances t) |}.

End IERC20.

(** The storage of the contract, its own address and the token ledger. *)
Record state : Type := {
  this : Z;
  token : IERC20.ledger;
  markets : gmap Z Market;
  userShares : gmap (Z * Z * Z) Z;
  hasClaimed : gmap (Z * Z) bool
}.

(** A mapping reads its zero value at a key never written. *)
Definition zero_market : Market :=
  {| admin := 0; matchId := 0; player1 := 0; player2 := 0; status := 0;
     winningOutcome := 0; pool := 0; originalPoolSize := 0;
     player1Shares := 0; player2Shares := 0; drawShares := 0 |}.

Definition market_at (s : state) (id : Z) : Market := default zero_market (markets s !! id).

Definition shares_at (s : state) (id outcome user : Z) : Z :=
  default 0 (userShares s !! (id, outcome, user)).

Definition claimed_at (s : state) (id user : Z) : bool :=
  default false (hasClaimed s !! (id, user)).

Definition valid_outcome (outcome : Z) : bool :=
  negb (negb (outcome =? OUTCOME_PLAYER1) && negb (outcome =? OUTCOME_PLAYER2)
        && negb (outcome =? OUTCOME_DRAW)).

(** The total recorded on an outcome, with the branches of the source:
    anything that is neither Player1 nor Player2 reads the draw total. *)
Definition outcome_shares (market : Market) (outcome : Z) : Z :=
  if outcome =? OUTCOME_PLAYER1 then player1Shares market
  else if outcome =? OUTCOME_PLAYER2 then player2Shares market
  else drawShares market.

Definition set_totals (m : Market) (p1 p2 d : Z) : Market :=
  {| admin := admin m; matchId := matchId m; player1 := player1 m; player2 := player2 m;
     status := status m; winningOutcome := winningOutcome m;
     pool := pool m; originalPoolSize := originalPoolSize m;
     player1Shares := p1; player2Shares := p2; drawShares := d |}.

Definition set_pool (m : Market) (value : Z) : Market :=
  {| admin := admin m; matchId := matchId m; player1 := player1 m; player2 := player2 m;
     status := status m; winningOutcome := winningOutcome m;
     pool := value; originalPoolSize := originalPoolSize m;
     player1Shares := player1Shares m; player2Shares := player2Shares m;
     drawShares := drawShares m |}.

Definition set_resolution (m : Market) (o : Z) : Market :=
  {| admin := admin m; matchId := matchId m; player1 := player1 m; player2 := player2 m;
     status := STATUS_RESOLVED; winningOutcome := o;
     pool := pool m; originalPoolSize := pool m;
     player1Shares := player1Shares m; player2Shares := player2Shares m;
     drawShares := drawShares m |}.

Definition createMarket (sender matchId player1 player2 : Z) (s : state)
    : result revert state :=
  check admin (market_at s matchId) =? 0 else Error "MarketAlreadyExists" ;;
  check negb (player1 =? 0) && negb (player2 =? 0) else Error "Invalid players" ;;
  Ok {| this := this s; token := token s;
        markets :=
          <[matchId := {| admin := sender; matchId := matchId;
                          player1 := player1; player2 := player2;
                          status := STATUS_ACTIVE; winningOutcome := 0;
                          pool := 0; originalPoolSize := 0;
                          player1Shares := 0; player2Shares := 0; drawShares := 0 |}]>
            (markets s);
        userShares := userShares s;
        hasClaimed := hasClaimed s |}.

(** [market.<outcome>Shares += amount], by the branches of the source. *)
Definition add_shares (market : Market) (outcome amount : Z) : result revert Market :=
  if outcome =? OUTCOME_PLAYER1 then
    n <- add_u256 (player1Shares market) amount ;;
    Ok (set_totals market n (player2Shares market) (drawShares market))
  else if outcome =? OUTCOME_PLAYER2 then
    n <- add_u256 (player2Shares market) amount ;;
    Ok (set_totals market (player1Shares market) n (drawShares market))
  else
    n <- add_u256 (drawShares market) amount ;;
    Ok (set_totals market (player1Shares market) (player2Shares market) n).

Definition bet (sender matchId outcome amount : Z) (s : state) : result revert state :=
  check valid_outcome outcome else InvalidOutcome ;;
  check negb (amount =? 0) else ZeroBet ;;
  let market := market_at s matchId in
  check negb (admin market =? 0) else MarketNotFound ;;
  check status market =? STATUS_ACTIVE else MarketAlreadyResolved ;;
  token' <- IERC20.safeTransferFrom (token s) (this s) sender (this s) amount ;;
  market1 <- add_shares market outcome amount ;;
  pool' <- add_u256 (pool market1) amount ;;
  shares' <- add_u256 (shares_at s matchId outcome sender) amount ;;
  Ok {| this := this s; token := token';
        markets := <[matchId := set_pool market1 pool']> (markets s);
        userShares := <[(matchId, outcome, sender) := shares']> (userShares s);
        hasClaimed := hasClaimed s |}.

Definition resolveMarket (sender matchId winningOutcome : Z) (s : state)
    : result revert state :=
  check valid_outcome winningOutcome else InvalidOutcome ;;
  let market := market_at s matchId in
  check negb (admin market =? 0) else MarketNotFound ;;
  check sender =? admin market else NotAdmin ;;
  check status market =? STATUS_ACTIVE else MarketAlreadyResolved ;;
  Ok {| this := this s; token := token s;
        markets := <[matchId := set_resolution market winningOutcome]> (markets s);
        userShares := userShares s;
        hasClaimed := hasClaimed s |}.

Definition claimRewards (sender matchId : Z) (s : state) : result revert state :=
  let market := market_at s matchId in
  check negb (admin market =? 0) else MarketNotFound ;;
  check negb (negb (status market =? STATUS_RESOLVED) || (winningOutcome market =? 0))
    else NotResolved ;;
  check negb (claimed_at s matchId sender) else AlreadyClaimed ;;
  let winningOutcome := winningOutcome market in
  let userShareAmount := shares_at s matchId winningOutcome sender in
  check negb (userShareAmount =? 0) else NoShares ;;
  let winningOutcomeShares := outcome_shares market winningOutcome in
  check negb (winningOutcomeShares =? 0) else NoShares ;;
  product <- mul_u256 userShareAmount (originalPoolSize market) ;;
  let reward := product / winningOutcomeShares in
  token' <- IERC20.safeTransfer (token s) (this s) sender reward ;;
  Ok {| this := this s; token := token';
        markets := markets s;
        userShares := <[(matchId, winningOutcome, sender) := 0]> (userShares s);
        hasClaimed := <[(matchId, sender) := true]> (hasClaimed s) |}.




Definition getPotentialReward (matchId outcome user : Z) (s : state) : result revert Z :=
  let market := market_at s matchId in
  if admin market =? 0 then Ok 0
  else
    let userShareAmount := shares_at s matchId outcome user in
    if userShareAmount =? 0 then Ok 0
    else if (status market =? STATUS_RESOLVED) && negb (winningOutcome market =? outcome)
    then Ok 0
    else
      let outcomeShares := outcome_shares market outcome in
      if outcomeShares =? 0 then Ok 0
      else
        let totalPool := pool market in
        product <- mul_u256 userShareAmount totalPool ;;
        Ok (product / outcomeShares).




(** The reward of [claimRewards] as a number, when its product fits:
    [(userShareAmount * market.originalPoolSize) / winningOutcomeShares]. *)
Definition reward_of (userShareAmount originalPoolSize winningOutcomeShares : Z) : Z :=
  userShareAmount * originalPoolSize / winningOutcomeShares.

(** The rewards of several claimants of one market, and their sum. *)
Definition rewards_of (shares : list Z) (originalPoolSize winningOutcomeShares : Z) : list Z :=
  map (fun u => reward_of u originalPoolSize winningOutcomeShares) shares.

Definition sum_of (l : list Z) : Z := fold_right Z.add 0 l.

(** [pool == sum of the outcome totals]. *)
Definition pool_balanced (m : Market) : Prop :=
  pool m = player1Shares m + player2Shares m + drawShares m.

(** The claimants of a list call [claimRewards] on a market one after the
    other; the first revert stops the sequence. *)
Fixpoint claim_all (claimants : list Z) (id : Z) (s : state) : result revert state :=
  match claimants with
  | [] => Ok s
  | c :: rest => s' <- claimRewards c id s ;; claim_all rest id s'
  end.

(** Once a market is resolved, its [pool] is the snapshot taken then. *)
Definition frozen_pool (s : state) : Prop :=
  forall id, status (market_at s id) = STATUS_RESOLVED ->
             pool (market_at s id) = originalPoolSize (market_at s id).

(** The state-changing calls of the contract. A call that reverts leaves
    the state as it was. *)
Inductive call : Type :=
  | CreateMarket (sender matchId player1 player2 : Z)
  | Bet (sender matchId outcome amount : Z)
  | ResolveMarket (sender matchId winningOutcome : Z)
  | ClaimRewards (sender matchId : Z).

Definition exec (c : call) (s : state) : result revert state :=
  match c with
  | CreateMarket sender id p1 p2 => createMarket sender id p1 p2 s
  | Bet sender id outcome amount => bet sender id outcome amount s
  | ResolveMarket sender id outcome => resolveMarket sender id outcome s
  | ClaimRewards sender id => claimRewards sender id s
  end.

Definition step (s : state) (c : call) : state :=
  match exec c s with
  | Ok s' => s'
  | Err _ => s
  end.

Definition run (calls : list call) (s : state) : state := fold_left step calls s.

(** [bets s s']: [s'] is reached from [s] by a finite sequence of [bet]
    calls, by any senders on any markets, all of which succeeded. *)
Inductive bets : state -> state -> Prop :=
  | bets_none (s : state) : bets s s
  | bets_more (s s1 s2 : state) (sender matchId outcome amount : Z) :
      bets s s1 -> bet sender matchId outcome amount s1 = Ok s2 -> bets s s2.

(** The contract deployed at address 1000 with empty storage, over a token
    in which each listed account holds the listed amount and has approved
    the contract for it. *)
Definition deployed (holdings : list (Z * Z)) : state :=
  {| this := 1000;
     token := {| IERC20.balances := list_to_map holdings;
                 IERC20.allowances :=
                   list_to_map (map (fun h => ((fst h, 1000), snd h)) holdings) |};
     markets := ∅;
     userShares := ∅;
     hasClaimed := ∅ |}.

(** Market 1 of administrator 10: accounts 21 and 22 stake 1000 and 2000 on
    Player1, account 23 stakes 1500 on Player2, and Player1 wins. *)
Definition resolved_4500 : state :=
  run [CreateMarket 10 1 11 12;
       Bet 21 1 OUTCOME_PLAYER1 1000; Bet 22 1 OUTCOME_PLAYER1 2000;
       Bet 23 1 OUTCOME_PLAYER2 1500;
       ResolveMarket 10 1 OUTCOME_PLAYER1]
      (deployed [(21, 1000); (22, 2000); (23, 1500)]).

(** Market 1 of administrator 10 with a single stake of [2 ^ 128] by
    account 21 on Player1, and Player1 wins. *)
Definition resolved_huge : state :=
  run [CreateMarket 10 1 11 12; Bet 21 1 OUTCOME_PLAYER1 (2 ^ 128);
       ResolveMarket 10 1 OUTCOME_PLAYER1]
      (deployed [(21, 2 ^ 128)]).

(** Market 1 of administrator 10: accounts 21, 22 and 23 stake 1 each on
    Player1, account 24 stakes 7 on Player2, and Player1 wins: a snapshot of
    10 for a winning total of 3. *)
Definition resolved_dust : state :=
  run [CreateMarket 10 1 11 12;
       Bet 21 1 OUTCOME_PLAYER1 1; Bet 22 1 OUTCOME_PLAYER1 1;
       Bet 23 1 OUTCOME_PLAYER1 1; Bet 24 1 OUTCOME_PLAYER2 7;
       ResolveMarket 10 1 OUTCOME_PLAYER1]
      (deployed [(21, 1); (22, 1); (23, 1); (24, 7)]).

End PredictionMarket.

(** * Proof tools *)

(** Case analysis on a computation that is known to have succeeded. *)
Ltac ok_inv H :=
  repeat match type of H with
  | Ok _ = Ok _ => injection H as H
  | Err _ = Ok _ => discriminate H
  | bind ?r _ = Ok _ => destruct r eqn:?; simpl in H; [|discriminate H]
  | (match ?x with _ => _ end) = Ok _ => destruct x eqn:?; simpl in H; try discriminate H
  end.

(** * Properties of the escrow *)

Section EscrowProperties.
Import aptos escrow.

Lemma escrow_at_lookup (w : world) (a mid : Z) (store : gmap Z Escrow) :
  stores w !! a = Some store -> escrow_at w a mid = store !! mid.
Proof. intros H. unfold escrow_at. rewrite H. reflexivity. Qed.

Lemma escrow_at_Some (w : world) (a mid : Z) (e : Escrow) :
  escrow_at w a mid = Some e ->
  exists store, stores w !! a = Some store /\ store !! mid = Some e.
Proof.
  unfold escrow_at. destruct (stores w !! a) as [store|] eqn:Hs; simpl; [|discriminate].
  intros H. exists store. split; [reflexivity | exact H].
Qed.



(** *** Checked arithmetic and the coin ledger *)

Lemma mul_u64_ok (a b : Z) : a * b <= MAX_U64 -> mul_u64 a b = Ok (a * b).
Proof. intros H. unfold mul_u64. destruct (Z.leb_spec (a * b) MAX_U64); [reflexivity | lia]. Qed.

Lemma sub_u64_ok (a b : Z) : b <= a -> sub_u64 a b = Ok (a - b).
Proof. intros H. unfold sub_u64. destruct (Z.leb_spec b a); [reflexivity | lia]. Qed.

Lemma fee_le_total (t : Z) : 0 <= t -> 0 <= t * 5 / 100 <= t.
Proof.
  intros H. split.
  - apply Z.div_pos; lia.
  - apply Z.div_le_upper_bound; lia.
Qed.

Lemma balance_insert (c : gmap Z Z) (k x v : Z) :
  coin.balance (<[k := v]> c) x = if decide (x = k) then v else coin.balance c x.
Proof.
  unfold coin.balance. destruct (decide (x = k)) as [->|Hne].
  - rewrite lookup_insert_eq. reflexivity.
  - rewrite lookup_insert_ne by congruence. reflexivity.
Qed.

Lemma transfer_ok (c : gmap Z Z) (from to amt : Z) :
  amt <= coin.balance c from ->
  exists c', coin.transfer c from to amt = Ok c'
    /\ forall x, coin.balance c' x =
         coin.balance c x + (if decide (x = to) then amt else 0)
                          - (if decide (x = from) then amt else 0).
Proof.
  intros H. unfold coin.transfer, coin.withdraw.
  destruct (Z.leb_spec amt (coin.balance c from)); [|lia]. simpl.
  eexists. split; [reflexivity|]. intros x. unfold coin.deposit.
  rewrite !balance_insert.
  repeat case_decide; subst; try congruence; lia.
Qed.

(** *** Settlement *)

Lemma escrow_at_removed (w : world) (a mid : Z) (store : gmap Z Escrow) (c : gmap Z Z) :
  escrow_at {| stores := <[a := delete mid store]> (stores w); coins := c |} a mid = None.
Proof. unfold escrow_at. simpl. rewrite lookup_insert_eq. simpl. apply lookup_delete_eq. Qed.

Lemma escrow_at_removed_other (w : world) (a mid a' mid' : Z)
    (store : gmap Z Escrow) (c : gmap Z Z) :
  stores w !! a = Some store ->
  (a', mid') <> (a, mid) ->
  escrow_at {| stores := <[a := delete mid store]> (stores w); coins := c |} a' mid'
  = escrow_at w a' mid'.
Proof.
  intros Hs Hne. unfold escrow_at. simpl. destruct (decide (a' = a)) as [->|Ha].
  - rewrite lookup_insert_eq, Hs. simpl. apply lookup_delete_ne. congruence.
  - rewrite lookup_insert_ne by congruence. reflexivity.
Qed.

(** C2 (as amended): on an escrow with both deposit flags set,
    [resolve_win] called by the administrator, for any winner identity
    whatever, succeeds when [total * 5] fits in a [u64] and the
    administrator's account, where the deposits were collected, still holds
    the payout. It moves [total - floor (total * 5 / 100)] from the
    administrator's account to the winner, the fee staying in that account,
    removes the record, and touches no other record. *)
Theorem resolve_win_spec (w : world) (a mid winner : Z) (e : Escrow) :
  escrow_at w a mid = Some e ->
  admin e = a ->
  deposited1 e = true ->
  deposited2 e = true ->
  0 <= total e ->
  total e * 5 <= MAX_U64 ->
  payout_of (total e) <= coin.balance (coins w) a ->
  exists w', resolve_win a mid winner w = Ok w'
    /\ escrow_at w' a mid = None
    /\ (forall x, coin.balance (coins w') x =
          coin.balance (coins w) x
          + (if decide (x = winner) then payout_of (total e) else 0)
          - (if decide (x = a) then payout_of (total e) else 0))
    /\ (forall a' mid', (a', mid') <> (a, mid) ->
          escrow_at w' a' mid' = escrow_at w a' mid').
Proof.
  intros He Hadm H1 H2 Hpos Hmul Hbal.
  apply escrow_at_Some in He as (store & Hs & Hm).
  pose proof (fee_le_total (total e) Hpos) as Hfee.
  destruct (transfer_ok (coins w) a winner (payout_of (total e)) Hbal) as (c & Hc & Hcb).
  exists {| stores := <[a := delete mid store]> (stores w); coins := c |}.
  split; [|split; [|split]].
  - unfold resolve_win, borrow_global. rewrite Hs. simpl. rewrite Hm.
    rewrite Hadm, Z.eqb_refl, H1, H2. simpl.
    rewrite mul_u64_ok by assumption. simpl.
    rewrite sub_u64_ok by lia. simpl.
    unfold payout_of, fee_of in Hc. rewrite Hc. reflexivity.
  - apply escrow_at_removed.
  - exact Hcb.
  - intros a' mid' Hne. apply escrow_at_removed_other; assumption.
Qed.

(** C4 (as amended): on an escrow with both deposit flags set,
    [resolve_draw] called by the administrator succeeds when [total * 5]
    fits in a [u64] and the administrator's account still holds twice the
    split. With [fee = floor (total * 5 / 100)] and
    [split = floor ((total - fee) / 2)], it moves [split] from the
    administrator's account to each of player1 and player2 and removes the
    record. Nothing else moves: the fee and the odd unit
    [total - fee - 2 * split], which is 0 or 1, stay in the administrator's
    account, and [fee + 2 * split + odd = total]. *)
Theorem resolve_draw_spec (w : world) (a mid : Z) (e : Escrow) :
  escrow_at w a mid = Some e ->
  admin e = a ->
  deposited1 e = true ->
  deposited2 e = true ->
  0 <= total e ->
  total e * 5 <= MAX_U64 ->
  2 * split_of (total e) <= coin.balance (coins w) a ->
  let fee := fee_of (total e) in
  let split := split_of (total e) in
  let odd := total e - fee - 2 * split in
  exists w', resolve_draw a mid w = Ok w'
    /\ escrow_at w' a mid = None
    /\ (forall x, coin.balance (coins w') x =
          coin.balance (coins w) x
          + (if decide (x = player1 e) then split else 0)
          + (if decide (x = player2 e) then split else 0)
          - (if decide (x = a) then 2 * split else 0))
    /\ 0 <= odd <= 1
    /\ fee + 2 * split + odd = total e.
Proof.
  intros He Hadm H1 H2 Hpos Hmul Hbal fee split odd.
  apply escrow_at_Some in He as (store & Hs & Hm).
  pose proof (fee_le_total (total e) Hpos) as Hfee.
  assert (Hsplit : 0 <= split /\ 0 <= odd <= 1 /\ fee + 2 * split + odd = total e).
  { subst odd split fee. unfold split_of, payout_of, fee_of in *.
    pose proof (Z.div_mod (total e - total e * 5 / 100) 2 ltac:(lia)) as Hdm.
    pose proof (Z.mod_pos_bound (total e - total e * 5 / 100) 2 ltac:(lia)) as Hmb.
    assert (0 <= (total e - total e * 5 / 100) / 2) by (apply Z.div_pos; lia).
    lia. }
  destruct Hsplit as (Hs0 & Hodd & Hsum).
  assert (Hb1 : split <= coin.balance (coins w) a) by (subst split; lia).
  destruct (transfer_ok (coins w) a (player1 e) split Hb1) as (c1 & Hc1 & Hcb1).
  assert (Hb2 : split <= coin.balance c1 a).
  { rewrite Hcb1. repeat case_decide; try congruence; subst split; lia. }
  destruct (transfer_ok c1 a (player2 e) split Hb2) as (c2 & Hc2 & Hcb2).
  exists {| stores := <[a := delete mid store]> (stores w); coins := c2 |}.
  split; [|split; [|split; [|split]]].
  - unfold resolve_draw, borrow_global. rewrite Hs. simpl. rewrite Hm.
    rewrite Hadm, Z.eqb_refl, H1, H2. simpl.
    rewrite mul_u64_ok by assumption. simpl.
    rewrite sub_u64_ok by lia. simpl.
    subst split. unfold split_of, payout_of, fee_of in Hc1, Hc2.
    rewrite Hc1. simpl. rewrite Hc2. reflexivity.
  - apply escrow_at_removed.
  - intros x. simpl. rewrite Hcb2, Hcb1.
    repeat case_decide; lia.
  - exact Hodd.
  - exact Hsum.
Qed.

(** *** What one transaction does to one record *)

Lemma escrow_at_update (w : world) (a' a mid : Z) (store' : gmap Z Escrow) (c : gmap Z Z) :
  escrow_at {| stores := <[a' := store']> (stores w); coins := c |} a mid
  = if decide (a = a') then store' !! mid else escrow_at w a mid.
Proof.
  unfold escrow_at. simpl. destruct (decide (a = a')) as [->|Hne].
  - rewrite lookup_insert_eq. reflexivity.
  - rewrite lookup_insert_ne by congruence. reflexivity.
Qed.

Lemma borrow_global_Ok {T : Type} (published : gmap Z T) (addr : Z) (r : T) :
  borrow_global published addr = Ok r -> published !! addr = Some r.
Proof. unfold borrow_global. destruct (published !! addr); congruence. Qed.

Lemma add_u64_Ok (x y z : Z) : add_u64 x y = Ok z -> z = x + y /\ x + y <= MAX_U64.
Proof.
  unfold add_u64. destruct (Z.leb_spec (x + y) MAX_U64); [|discriminate].
  intros [= <-]. split; [reflexivity | assumption].
Qed.

Lemma exec_escrow_at (c : call) (w w' : world) (a mid : Z) (e : Escrow) :
  exec c w = Ok w' ->
  escrow_at w a mid = Some e ->
  escrow_at w' a mid = Some e
  \/ (c = Deposit (player1 e) a mid /\ deposited1 e = false
      /\ total e + amount e <= MAX_U64
      /\ escrow_at w' a mid = Some (set_deposited1 e (total e + amount e)))
  \/ (c = Deposit (player2 e) a mid /\ player2 e <> player1 e /\ deposited2 e = false
      /\ total e + amount e <= MAX_U64
      /\ escrow_at w' a mid = Some (set_deposited2 e (total e + amount e)))
  \/ (((exists winner, c = ResolveWin a mid winner) \/ c = ResolveDraw a mid)
      /\ deposited1 e = true /\ deposited2 e = true
      /\ escrow_at w' a mid = None).
Proof.
  intros Hex He. pose proof He as He0.
  apply escrow_at_Some in He as (store & Hs & Hm).
  destruct c as [a'|a' mid' q1 q2 amt|sender a' mid'|a' mid' winner|a' mid'|from to amt];
    simpl in Hex.
  - left. unfold initialize in Hex. ok_inv Hex; subst w'; [assumption|].
    unfold publish. rewrite escrow_at_update.
    destruct (decide (a = a')) as [->|]; [congruence | assumption].
  - left. unfold create_escrow in Hex. ok_inv Hex. subst w'.
    match goal with H : borrow_global _ _ = Ok _ |- _ => apply borrow_global_Ok in H end.
    unfold publish. rewrite escrow_at_update.
    destruct (decide (a = a')) as [->|]; [|assumption].
    rewrite lookup_insert_ne; congruence.
  - unfold deposit in Hex. ok_inv Hex; subst w'.
    all: repeat match goal with
         | H : borrow_global _ _ = Ok _ |- _ => apply borrow_global_Ok in H
         | H : add_u64 _ _ = Ok _ |- _ => apply add_u64_Ok in H as [-> ?]
         | H : (_ =? _) = true |- _ => apply Z.eqb_eq in H
         | H : (_ =? _) = false |- _ => apply Z.eqb_neq in H
         | H : negb _ = true |- _ => apply negb_true_iff in H
         end.
    all: try (left; assumption).
    all: rewrite escrow_at_update.
    all: destruct (decide (a = a')) as [->|]; [|left; assumption].
    all: destruct (decide (mid = mid')) as [->|];
           [|left; rewrite lookup_insert_ne by congruence; congruence].
    all: rewrite lookup_insert_eq.
    all: assert (e0 = e) by congruence; subst e0.
    + right; left. subst sender. repeat split; assumption.
    + right; right; left. subst sender. repeat split; congruence.
  - unfold resolve_win in Hex. ok_inv Hex; subst w'.
    match goal with H : borrow_global _ _ = Ok _ |- _ => apply borrow_global_Ok in H end.
    rewrite escrow_at_update.
    destruct (decide (a = a')) as [->|]; [|left; assumption].
    destruct (decide (mid = mid')) as [->|];
      [|left; rewrite lookup_delete_ne by congruence; congruence].
    assert (e0 = e) by congruence; subst e0.
    right; right; right.
    match goal with H : _ && _ = true |- _ => apply andb_true_iff in H as [? ?] end.
    repeat split; try assumption.
    + left. eexists. reflexivity.
    + apply lookup_delete_eq.
  - unfold resolve_draw in Hex. ok_inv Hex; subst w'.
    match goal with H : borrow_global _ _ = Ok _ |- _ => apply borrow_global_Ok in H end.
    rewrite escrow_at_update.
    destruct (decide (a = a')) as [->|]; [|left; assumption].
    destruct (decide (mid = mid')) as [->|];
      [|left; rewrite lookup_delete_ne by congruence; congruence].
    assert (e0 = e) by congruence; subst e0.
    right; right; right.
    match goal with H : _ && _ = true |- _ => apply andb_true_iff in H as [? ?] end.
    repeat split; try assumption.
    + right. reflexivity.
    + apply lookup_delete_eq.
  - left. ok_inv Hex. subst w'. exact He0.
Qed.

Lemma exec_escrow_at_None (c : call) (w w' : world) (a mid : Z) :
  exec c w = Ok w' ->
  escrow_at w a mid = None ->
  escrow_at w' a mid = None
  \/ exists p1 p2 amt,
       escrow_at w' a mid =
         Some {| admin := a; player1 := p1; player2 := p2; amount := amt;
                 total := 0; deposited1 := false; deposited2 := false |}.
Proof.
  intros Hex Hnone.
  destruct c as [a'|a' mid' q1 q2 amt|sender a' mid'|a' mid' winner|a' mid'|from to amt];
    simpl in Hex.
  - left. unfold initialize in Hex. ok_inv Hex; subst w'; [assumption|].
    unfold publish. rewrite escrow_at_update.
    destruct (decide (a = a')); [apply lookup_empty | assumption].
  - unfold create_escrow in Hex. ok_inv Hex. subst w'.
    match goal with H : borrow_global _ _ = Ok _ |- _ => apply borrow_global_Ok in H end.
    unfold publish. rewrite escrow_at_update.
    destruct (decide (a = a')) as [->|]; [|left; assumption].
    destruct (decide (mid = mid')) as [->|].
    + right. exists q1, q2, amt. apply lookup_insert_eq.
    + left. rewrite lookup_insert_ne by congruence.
      erewrite <- escrow_at_lookup by eassumption. assumption.
  - unfold deposit in Hex. ok_inv Hex; subst w'; try (left; assumption).
    all: match goal with H : borrow_global _ _ = Ok _ |- _ => apply borrow_global_Ok in H end.
    all: left; rewrite escrow_at_update.
    all: destruct (decide (a = a')) as [->|]; [|assumption].
    all: erewrite escrow_at_lookup in Hnone by eassumption.
    all: rewrite lookup_insert_ne by congruence; assumption.
  - unfold resolve_win in Hex. ok_inv Hex; subst w'.
    match goal with H : borrow_global _ _ = Ok _ |- _ => apply borrow_global_Ok in H end.
    left; rewrite escrow_at_update.
    destruct (decide (a = a')) as [->|]; [|assumption].
    erewrite escrow_at_lookup in Hnone by eassumption.
    rewrite lookup_delete_ne by congruence; assumption.
  - unfold resolve_draw in Hex. ok_inv Hex; subst w'.
    match goal with H : borrow_global _ _ = Ok _ |- _ => apply borrow_global_Ok in H end.
    left; rewrite escrow_at_update.
    destruct (decide (a = a')) as [->|]; [|assumption].
    erewrite escrow_at_lookup in Hnone by eassumption.
    rewrite lookup_delete_ne by congruence; assumption.
  - left. ok_inv Hex. subst w'. exact Hnone.
Qed.

(** *** Totals follow the deposit flags *)

Lemma step_consistent (w : world) (c : call) :
  all_consistent w -> all_consistent (step w c).
Proof.
  intros Hw a mid e'. unfold step.
  destruct (exec c w) as [w'|err] eqn:Hex; [|apply Hw].
  intros He'. destruct (escrow_at w a mid) as [e|] eqn:He.
  - destruct (Hw a mid e He) as [Ha Ht].
    destruct (exec_escrow_at c w w' a mid e Hex He)
      as [Hsame | [(_ & Hd & _ & Hnew) | [(_ & _ & Hd & _ & Hnew) | (_ & _ & _ & Hgone)]]].
    + assert (e' = e) by congruence. subst e'. split; assumption.
    + assert (e' = set_deposited1 e (total e + amount e)) by congruence. subst e'.
      split; simpl; [assumption|]. rewrite Ht, Hd. simpl. lia.
    + assert (e' = set_deposited2 e (total e + amount e)) by congruence. subst e'.
      split; simpl; [assumption|]. rewrite Ht, Hd. simpl. lia.
    + congruence.
  - destruct (exec_escrow_at_None c w w' a mid Hex He) as [Hnone | (p1 & p2 & amt & Hnew)].
    + congruence.
    + assert (e' = {| admin := a; player1 := p1; player2 := p2; amount := amt;
                      total := 0; deposited1 := false; deposited2 := false |})
        by congruence.
      subst e'. split; simpl; [reflexivity | lia].
Qed.

(** In every world reached from one without stores, every record has the
    address of its table as administrator, and its total is its stake times
    the number of deposits made: twice the stake once both flags are up. *)
Lemma reachable_consistent (calls : list call) (c0 : gmap Z Z) :
  all_consistent (run calls {| stores := ∅; coins := c0 |}).
Proof.
  assert (H0 : all_consistent {| stores := ∅; coins := c0 |}).
  { intros a mid e. unfold escrow_at. simpl. rewrite lookup_empty. discriminate. }
  revert H0. generalize {| stores := ∅; coins := c0 |}.
  induction calls as [|c calls IH]; intros w Hw; simpl; [exact Hw|].
  apply IH. apply step_consistent. exact Hw.
Qed.

Lemma funded_total (calls : list call) (c0 : gmap Z Z) (a mid : Z) (e : Escrow) :
  escrow_at (run calls {| stores := ∅; coins := c0 |}) a mid = Some e ->
  deposited1 e = true -> deposited2 e = true ->
  admin e = a /\ total e = 2 * amount e.
Proof.
  intros He H1 H2. destruct (reachable_consistent calls c0 a mid e He) as [Ha Ht].
  split; [exact Ha|]. rewrite Ht, H1, H2. simpl. lia.
Qed.

(** *** Escrows whose two players are the same identity *)

Lemma step_stuck (w : world) (c : call) (a mid p : Z) (d : bool) :
  (exists e, escrow_at w a mid = Some e /\ stuck a p d e) ->
  exists e', escrow_at (step w c) a mid = Some e' /\ stuck a p d e'.
Proof.
  intros (e & He & Hst). unfold step.
  destruct (exec c w) as [w'|err] eqn:Hex; [|exists e; split; assumption].
  destruct Hst as (Ha & Hp1 & Hp2 & Hd2 & Hd1).
  destruct (exec_escrow_at c w w' a mid e Hex He)
    as [Hsame | [(_ & _ & _ & Hnew) | [(_ & Hne & _) | (_ & _ & Htrue & _)]]].
  - exists e. repeat split; assumption.
  - eexists. split; [exact Hnew|]. repeat split; try assumption. 
  - congruence.
  - congruence.
Qed.

Lemma run_stuck (calls : list call) (w : world) (a mid p : Z) (d : bool) :
  (exists e, escrow_at w a mid = Some e /\ stuck a p d e) ->
  exists e', escrow_at (run calls w) a mid = Some e' /\ stuck a p d e'.
Proof.
  revert w. induction calls as [|c calls IH]; intros w H; simpl.
  - exact H.
  - apply IH. apply step_stuck. exact H.
Qed.

Lemma stuck_resolve_win (w : world) (a mid p winner : Z) (d : bool) (e : Escrow) :
  escrow_at w a mid = Some e -> stuck a p d e ->
  resolve_win a mid winner w = Err (Abort EESCROW_NOT_READY).
Proof.
  intros He (Ha & _ & _ & Hd2 & _). apply escrow_at_Some in He as (store & Hs & Hm).
  unfold resolve_win, borrow_global. rewrite Hs. simpl. rewrite Hm.
  rewrite Ha, Z.eqb_refl, Hd2, andb_false_r. reflexivity.
Qed.

Lemma stuck_resolve_draw (w : world) (a mid p : Z) (d : bool) (e : Escrow) :
  escrow_at w a mid = Some e -> stuck a p d e ->
  resolve_draw a mid w = Err (Abort EESCROW_NOT_READY).
Proof.
  intros He (Ha & _ & _ & Hd2 & _). apply escrow_at_Some in He as (store & Hs & Hm).
  unfold resolve_draw, borrow_global. rewrite Hs. simpl. rewrite Hm.
  rewrite Ha, Z.eqb_refl, Hd2, andb_false_r. reflexivity.
Qed.

Lemma stuck_deposit_again (w : world) (a mid p : Z) (e : Escrow) :
  escrow_at w a mid = Some e -> stuck a p true e ->
  deposit p a mid w = Err (Abort EALREADY_DEPOSITED).
Proof.
  intros He (_ & Hp1 & _ & _ & Hd1). apply escrow_at_Some in He as (store & Hs & Hm).
  unfold deposit, borrow_global. rewrite Hs. simpl. rewrite Hm.
  rewrite Hp1, Z.eqb_refl, (Hd1 eq_refl). reflexivity.
Qed.

Lemma step_stuck_amount (w : world) (c : call) (a mid p amt : Z) (d : bool) :
  (exists e, escrow_at w a mid = Some e /\ stuck a p d e /\ amount e = amt) ->
  exists e', escrow_at (step w c) a mid = Some e' /\ stuck a p d e' /\ amount e' = amt.
Proof.
  intros (e & He & Hst & Hamt). unfold step.
  destruct (exec c w) as [w'|err] eqn:Hex; [|exists e; split; [assumption | split; assumption]].
  destruct Hst as (Ha & Hp1 & Hp2 & Hd2 & Hd1).
  destruct (exec_escrow_at c w w' a mid e Hex He)
    as [Hsame | [(_ & _ & _ & Hnew) | [(_ & Hne & _) | (_ & _ & Htrue & _)]]].
  - exists e. repeat split; assumption.
  - eexists. split; [exact Hnew|]. repeat split; assumption.
  - congruence.
  - congruence.
Qed.

Lemma run_stuck_amount (calls : list call) (w : world) (a mid p amt : Z) (d : bool) :
  (exists e, escrow_at w a mid = Some e /\ stuck a p d e /\ amount e = amt) ->
  exists e', escrow_at (run calls w) a mid = Some e' /\ stuck a p d e' /\ amount e' = amt.
Proof.
  revert w. induction calls as [|c calls IH]; intros w H; simpl.
  - exact H.
  - apply IH. apply step_stuck_amount. exact H.
Qed.

(** Once the one deposit is in, no transaction of the module addressed to
    the match changes anything: a creation finds the key taken, a deposit
    by the identity finds its flag up, a deposit by anybody else is a
    no-op, and a resolve finds the second flag down. *)
Lemma stuck_untouched (w : world) (c : call) (a mid p : Z) (e : Escrow) :
  escrow_at w a mid = Some e -> stuck a p true e ->
  touches c a mid = true -> step w c = w.
Proof.
  intros He Hst Ht. pose proof He as He0. pose proof Hst as Hst0.
  destruct Hst as (Ha & Hp1 & Hp2 & Hd2 & Hd1).
  apply escrow_at_Some in He as (store & Hs & Hm).
  destruct c as [a'|a' mid' q1 q2 amt|sender a' mid'|a' mid' winner|a' mid'|from to amt];
    simpl in Ht; try discriminate Ht.
  all: apply andb_true_iff in Ht as [Ht1 Ht2].
  all: apply Z.eqb_eq in Ht1, Ht2; subst a' mid'.
  all: unfold step; simpl.
  - unfold create_escrow, borrow_global. rewrite Hs. simpl. rewrite Hm. reflexivity.
  - unfold deposit, borrow_global. rewrite Hs. simpl. rewrite Hm.
    destruct (Z.eqb_spec sender (player1 e)) as [_|Hne].
    + rewrite (Hd1 eq_refl). reflexivity.
    + destruct (Z.eqb_spec sender (player2 e)); [congruence | reflexivity].
  - rewrite (stuck_resolve_win w a mid p winner true e He0 Hst0). reflexivity.
  - rewrite (stuck_resolve_draw w a mid p true e He0 Hst0). reflexivity.
Qed.

Lemma transfer_succeeded (c c' : gmap Z Z) (from to amt : Z) :
  coin.transfer c from to amt = Ok c' ->
  amt <= coin.balance c from
  /\ forall x, coin.balance c' x =
       coin.balance c x + (if decide (x = to) then amt else 0)
                        - (if decide (x = from) then amt else 0).
Proof.
  intros H. assert (Hle : amt <= coin.balance c from).
  { unfold coin.transfer, coin.withdraw in H.
    destruct (Z.leb_spec amt (coin.balance c from)); [assumption | discriminate H]. }
  split; [exact Hle|].
  destruct (transfer_ok c from to amt Hle) as (c'' & Hc'' & Hb).
  assert (c'' = c') by congruence. subst c''. exact Hb.
Qed.

(** C10 (as amended): an escrow created with player1 equal to player2
    never becomes fully funded. Whatever transactions follow its creation,
    its record is still there with the stake it was created with and the
    second deposit flag down, so [resolve_win] and [resolve_draw] by its
    administrator abort with [EESCROW_NOT_READY]. A deposit by that identity
    that succeeds raises the first flag only and moves the stake from the
    identity's account to the administrator's; from then on every deposit by
    that identity aborts with [EALREADY_DEPOSITED] and no transaction of the
    module addressed to the match changes anything, so the module never
    pays the stake out. The stake is not lost, though: it sits in the
    administrator's own account, and a plain transfer of the stake by the
    administrator gives every account the balance it had before the deposit,
    while the record stays as it is and the resolves keep aborting. *)
Theorem same_player_escrow_never_funded
    (w0 w1 : world) (a mid p amt : Z) (calls : list call) :
  create_escrow a mid p p amt w0 = Ok w1 ->
  let w := run calls w1 in
  (exists e, escrow_at w a mid = Some e
     /\ player1 e = p /\ player2 e = p /\ amount e = amt /\ deposited2 e = false)
  /\ (forall winner, resolve_win a mid winner w = Err (Abort EESCROW_NOT_READY))
  /\ resolve_draw a mid w = Err (Abort EESCROW_NOT_READY)
  /\ (forall w2, deposit p a mid w = Ok w2 ->
       (exists e2, escrow_at w2 a mid = Some e2
          /\ deposited1 e2 = true /\ deposited2 e2 = false)
       /\ (forall x, coin.balance (coins w2) x =
             coin.balance (coins w) x
             + (if decide (x = a) then amt else 0)
             - (if decide (x = p) then amt else 0))
       /\ (forall later,
             deposit p a mid (run later w2) = Err (Abort EALREADY_DEPOSITED)
             /\ forall c, touches c a mid = true ->
                  step (run later w2) c = run later w2)
       /\ (0 <= coin.balance (coins w) a ->
           exists w3, exec (CoinTransfer a p amt) w2 = Ok w3
             /\ (forall x, coin.balance (coins w3) x = coin.balance (coins w) x)
             /\ (exists e3, escrow_at w3 a mid = Some e3
                   /\ deposited1 e3 = true /\ deposited2 e3 = false)
             /\ (forall winner,
                   resolve_win a mid winner w3 = Err (Abort EESCROW_NOT_READY))
             /\ resolve_draw a mid w3 = Err (Abort EESCROW_NOT_READY))).
Proof.
  intros Hcreate w.
  assert (Hinit : exists e, escrow_at w1 a mid = Some e /\ stuck a p false e
                            /\ amount e = amt).
  { unfold create_escrow in Hcreate. ok_inv Hcreate. subst w1.
    match goal with H : borrow_global _ _ = Ok _ |- _ => apply borrow_global_Ok in H end.
    eexists. split.
    - unfold publish. rewrite escrow_at_update, decide_True by reflexivity.
      apply lookup_insert_eq.
    - repeat split; simpl; congruence. }
  destruct (run_stuck_amount calls w1 a mid p amt false Hinit) as (e & He & Hst & Hamt).
  fold w in He. split; [|split; [|split]].
  - exists e. destruct Hst as (_ & ? & ? & ? & _). repeat split; assumption.
  - intros winner. eapply stuck_resolve_win; eassumption.
  - eapply stuck_resolve_draw; eassumption.
  - intros w2 Hdep.
    assert (Hafter : exists e2, escrow_at w2 a mid = Some e2 /\ stuck a p true e2).
    { destruct Hst as (Ha & Hp1 & Hp2 & Hd2 & _).
      destruct (exec_escrow_at (Deposit p a mid) w w2 a mid e Hdep He)
        as [Hsame | [(_ & _ & _ & Hnew) | [(_ & Hne & _) | ([[? [=]] | [=]] & _)]]].
      - exfalso. apply escrow_at_Some in He as (store & Hs & Hm).
        unfold deposit, borrow_global in Hdep. rewrite Hs in Hdep. simpl in Hdep.
        rewrite Hm, Hp1, Z.eqb_refl in Hdep.
        ok_inv Hdep. subst w2.
        rewrite escrow_at_update, decide_True, lookup_insert_eq in Hsame by reflexivity.
        match goal with H : negb _ = true |- _ => apply negb_true_iff in H end.
        injection Hsame as Hsame. rewrite <- Hsame in *. simpl in *. congruence.
      - eexists. split; [exact Hnew|]. repeat split; assumption.
      - congruence. }
    assert (Hmoved : amt <= coin.balance (coins w) p
                     /\ forall x, coin.balance (coins w2) x =
                          coin.balance (coins w) x
                          + (if decide (x = a) then amt else 0)
                          - (if decide (x = p) then amt else 0)).
    { destruct Hst as (Ha & Hp1 & Hp2 & Hd2 & _).
      apply escrow_at_Some in He as (store & Hs & Hm).
      unfold deposit, borrow_global in Hdep. rewrite Hs in Hdep. simpl in Hdep.
      rewrite Hm, Hp1, Z.eqb_refl in Hdep.
      ok_inv Hdep. subst w2. simpl.
      match goal with H : coin.transfer _ _ _ _ = Ok _ |- _ =>
        apply transfer_succeeded in H as [Hle Hb] end.
      rewrite Hamt in Hle, Hb. split; assumption. }
    destruct Hmoved as (Hle & Hbal).
    destruct Hafter as (e2 & He2 & Hst2).
    split; [|split; [|split]].
    + destruct Hst2 as (_ & _ & _ & Hd2 & Hd1).
      exists e2. repeat split; [assumption | apply Hd1; reflexivity | assumption].
    + exact Hbal.
    + intros later.
      destruct (run_stuck later w2 a mid p true (ex_intro _ e2 (conj He2 Hst2)))
        as (e3 & He3 & Hst3).
      split; [eapply stuck_deposit_again; eassumption|].
      intros c Ht. eapply stuck_untouched; eassumption.
    + intros Hnonneg.
      assert (Hback : amt <= coin.balance (coins w2) a).
      { rewrite Hbal, decide_True by reflexivity.
        destruct (decide (a = p)) as [->|]; lia. }
      destruct (transfer_ok (coins w2) a p amt Hback) as (c3 & Hc3 & Hb3).
      exists {| stores := stores w2; coins := c3 |}.
      assert (He3 : escrow_at {| stores := stores w2; coins := c3 |} a mid = Some e2)
        by exact He2.
      split; [simpl; rewrite Hc3; reflexivity|]. split; [|split; [|split]].
      * intros x. simpl. rewrite Hb3, Hbal. repeat case_decide; lia.
      * destruct Hst2 as (_ & _ & _ & Hd2 & Hd1).
        exists e2. repeat split; [assumption | apply Hd1; reflexivity | assumption].
      * intros winner. eapply stuck_resolve_win; eassumption.
      * eapply stuck_resolve_draw; eassumption.
Qed.

(** *** Concrete runs *)





(** C2, counterexample: two stakes of 1 are deposited, so the total is 2.
    [resolve_win] pays the winner 2 and the administrator's account goes
    from 2 to 0; [floor (2 * 0.95)] is 1, so the claim has the winner gain
    1 and the administrator gain 1. *)
Lemma resolve_win_payout_counterexample :
  exists e w',
    escrow_at (funded 1) 10 1 = Some e
    /\ deposited1 e = true /\ deposited2 e = true /\ total e = 2 * amount e
    /\ resolve_win 10 1 11 (funded 1) = Ok w'
    /\ total e * 95 / 100 = 1
    /\ coin.balance (coins w') 11 = coin.balance (coins (funded 1)) 11 + 2
    /\ coin.balance (coins w') 11
       <> coin.balance (coins (funded 1)) 11 + total e * 95 / 100
    /\ coin.balance (coins w') 10 = coin.balance (coins (funded 1)) 10 - 2
    /\ coin.balance (coins w') 10
       <> coin.balance (coins (funded 1)) 10 + (total e - total e * 95 / 100).
Proof. do 2 eexists. repeat split; vm_compute; (reflexivity || discriminate). Qed.

Lemma resolve_win_spec_witness :
  exists w',
    resolve_win 10 1 99 (funded 10) = Ok w'
    /\ escrow_at w' 10 1 = None
    /\ coin.balance (coins w') 99 = 19
    /\ coin.balance (coins w') 10 = 1.
Proof.
  destruct (resolve_win_spec (funded 10) 10 1 99
              {| admin := 10; player1 := 11; player2 := 12; amount := 10; total := 20;
                 deposited1 := true; deposited2 := true |})
    as (w' & Hok & Hgone & Hbal & _).
  - vm_compute. reflexivity.
  - reflexivity.
  - reflexivity.
  - reflexivity.
  - simpl. lia.
  - vm_compute. discriminate.
  - vm_compute. discriminate.
  - exists w'. split; [exact Hok|]. split; [exact Hgone|].
    rewrite !Hbal. split; vm_compute; reflexivity.
Defined.

(** C4, counterexample: two stakes of 10 are deposited, so the total is
    20, the fee 1, the split 9 and the odd unit 1. [resolve_draw] makes two
    transfers of 9 out of the administrator's account and none into it: its
    balance goes from 20 to 2, the fee and the odd unit together, while the
    claim has the fee of 1 transferred to the administrator and one unit
    left with nobody. *)
Lemma resolve_draw_fee_counterexample :
  exists e w',
    escrow_at (funded 10) 10 1 = Some e
    /\ deposited1 e = true /\ deposited2 e = true
    /\ resolve_draw 10 1 (funded 10) = Ok w'
    /\ fee_of (total e) = 1
    /\ coin.balance (coins (funded 10)) 10 = 20
    /\ coin.balance (coins w') 10 = 2
    /\ coin.balance (coins w') 10 <> coin.balance (coins (funded 10)) 10 + fee_of (total e)
    /\ coin.balance (coins w') 10 + coin.balance (coins w') 11 + coin.balance (coins w') 12
       = 200.
Proof. do 2 eexists. repeat split; vm_compute; (reflexivity || discriminate). Qed.

Lemma resolve_draw_spec_witness :
  exists w',
    resolve_draw 10 1 (funded 10) = Ok w'
    /\ escrow_at w' 10 1 = None
    /\ coin.balance (coins w') 11 = 99
    /\ coin.balance (coins w') 12 = 99
    /\ coin.balance (coins w') 10 = 2.
Proof.
  destruct (resolve_draw_spec (funded 10) 10 1
              {| admin := 10; player1 := 11; player2 := 12; amount := 10; total := 20;
                 deposited1 := true; deposited2 := true |})
    as (w' & Hok & Hgone & Hbal & _).
  - vm_compute. reflexivity.
  - reflexivity.
  - reflexivity.
  - reflexivity.
  - simpl. lia.
  - vm_compute. discriminate.
  - vm_compute. discriminate.
  - exists w'. split; [exact Hok|]. split; [exact Hgone|].
    rewrite !Hbal. repeat split; vm_compute; reflexivity.
Defined.

(** C10, counterexample: account 11 is both players of match 1 of
    administrator 10, with stake 5, and has made its one deposit, so the
    record is stuck and the resolves abort. Yet the deposited stake is paid
    out: it sits in the account of the administrator, whose plain transfer
    of 5 coins gives account 11 its 100 coins back. *)
Lemma same_player_stake_returned_counterexample :
  let w := run [Initialize 10; CreateEscrow 10 1 11 11 5; Deposit 11 10 1] genesis in
  let w' := step w (CoinTransfer 10 11 5) in
  escrow_at w 10 1 =
    Some {| admin := 10; player1 := 11; player2 := 11; amount := 5; total := 5;
            deposited1 := true; deposited2 := false |}
  /\ coin.balance (coins genesis) 11 = 100
  /\ coin.balance (coins w) 11 = 95
  /\ coin.balance (coins w) 10 = 5
  /\ exec (CoinTransfer 10 11 5) w = Ok w'
  /\ coin.balance (coins w') 11 = 100
  /\ coin.balance (coins w') 10 = 0
  /\ escrow_at w' 10 1 = escrow_at w 10 1
  /\ resolve_win 10 1 11 w' = Err (Abort EESCROW_NOT_READY)
  /\ resolve_draw 10 1 w' = Err (Abort EESCROW_NOT_READY).
Proof. repeat split; vm_compute; reflexivity. Qed.

Lemma same_player_escrow_never_funded_witness :
  let w0 := step genesis (Initialize 10) in
  let w1 := step w0 (CreateEscrow 10 1 11 11 5) in
  let w := run [Deposit 11 10 1; Deposit 11 10 1; ResolveWin 10 1 11] w1 in
  create_escrow 10 1 11 11 5 w0 = Ok w1
  /\ resolve_draw 10 1 w = Err (Abort EESCROW_NOT_READY)
  /\ resolve_win 10 1 11 w = Err (Abort EESCROW_NOT_READY)
  /\ (forall w2, deposit 11 10 1 w1 = Ok w2 ->
        coin.balance (coins w2) 10 = 5 /\ coin.balance (coins w2) 11 = 95
        /\ step w2 (ResolveDraw 10 1) = w2).
Proof.
  intros w0 w1 w.
  assert (Hc : create_escrow 10 1 11 11 5 w0 = Ok w1) by (vm_compute; reflexivity).
  split; [exact Hc|].
  destruct (same_player_escrow_never_funded w0 w1 10 1 11 5
              [Deposit 11 10 1; Deposit 11 10 1; ResolveWin 10 1 11] Hc)
    as (_ & Hwin & Hdraw & _).
  split; [exact Hdraw|]. split; [exact (Hwin 11)|].
  intros w2 Hdep.
  destruct (same_player_escrow_never_funded w0 w1 10 1 11 5 [] Hc)
    as (_ & _ & _ & Hafter).
  destruct (Hafter w2 Hdep) as (_ & Hbal & Hlater & _).
  rewrite !Hbal. split; [vm_compute; reflexivity|]. split; [vm_compute; reflexivity|].
  exact (proj2 (Hlater []) (ResolveDraw 10 1) eq_refl).
Defined.

End EscrowProperties.

(** * Properties of the Solidity market *)

Section PredictionMarketProperties.
Import PredictionMarket.

(** *** Checked arithmetic and the token ledger *)

Lemma mul_u256_ok (a b : Z) : a * b <= MAX_UINT256 -> mul_u256 a b = Ok (a * b).
Proof.
  intros H. unfold mul_u256. destruct (Z.leb_spec (a * b) MAX_UINT256); [reflexivity | lia].
Qed.

Lemma add_u256_Ok (a b c : Z) : add_u256 a b = Ok c -> c = a + b /\ a + b <= MAX_UINT256.
Proof.
  unfold add_u256. destruct (Z.leb_spec (a + b) MAX_UINT256); [|discriminate].
  intros [= <-]. split; [reflexivity | assumption].
Qed.

Lemma move_balance (b : gmap Z Z) (from to amt x : Z) :
  default 0 (IERC20.move b from to amt !! x)
  = default 0 (b !! x) + (if decide (x = to) then amt else 0)
                       - (if decide (x = from) then amt else 0).
Proof.
  unfold IERC20.move.
  destruct (decide (x = to)) as [->|Hto].
  - rewrite lookup_insert_eq. simpl. destruct (decide (to = from)) as [->|Hne].
    + rewrite lookup_insert_eq. simpl. lia.
    + rewrite lookup_insert_ne by congruence. lia.
  - rewrite lookup_insert_ne by congruence. destruct (decide (x = from)) as [->|Hfrom].
    + rewrite lookup_insert_eq. simpl. lia.
    + rewrite lookup_insert_ne by congruence. lia.
Qed.

Lemma safeTransfer_ok (t : IERC20.ledger) (from to amt : Z) :
  amt <= IERC20.balanceOf t from ->
  exists t', IERC20.safeTransfer t from to amt = Ok t'
    /\ forall x, IERC20.balanceOf t' x =
         IERC20.balanceOf t x + (if decide (x = to) then amt else 0)
                              - (if decide (x = from) then amt else 0).
Proof.
  intros H. unfold IERC20.safeTransfer.
  destruct (Z.leb_spec amt (IERC20.balanceOf t from)); [|lia].
  eexists. split; [reflexivity|]. intros x. unfold IERC20.balanceOf. simpl.
  apply move_balance.
Qed.

(** *** Claiming *)

(** The state [claimRewards] writes once its checks have passed. *)
Lemma claimRewards_ok (s : state) (sender id : Z) :
  let m := market_at s id in
  let u := shares_at s id (winningOutcome m) sender in
  let T := outcome_shares m (winningOutcome m) in
  let reward := reward_of u (originalPoolSize m) T in
  admin m <> 0 ->
  status m = STATUS_RESOLVED ->
  winningOutcome m <> 0 ->
  claimed_at s id sender = false ->
  0 < u ->
  0 < T ->
  u * originalPoolSize m <= MAX_UINT256 ->
  reward <= IERC20.balanceOf (token s) (this s) ->
  exists t',
    claimRewards sender id s =
      Ok {| this := this s; token := t'; markets := markets s;
            userShares := <[(id, winningOutcome m, sender) := 0]> (userShares s);
            hasClaimed := <[(id, sender) := true]> (hasClaimed s) |}
    /\ forall x, IERC20.balanceOf t' x =
         IERC20.balanceOf (token s) x
         + (if decide (x = sender) then reward else 0)
         - (if decide (x = this s) then reward else 0).
Proof.
  intros m u T reward Hadm Hst Hwo Hcl Hu HT Hmul Hbal.
  destruct (safeTransfer_ok (token s) (this s) sender reward Hbal) as (t' & Ht' & Hb').
  exists t'. split; [|exact Hb'].
  unfold claimRewards. fold m. fold u. fold T.
  destruct (Z.eqb_spec (admin m) 0); [contradiction|]. simpl.
  rewrite Hst, Z.eqb_refl. simpl.
  destruct (Z.eqb_spec (winningOutcome m) 0); [contradiction|]. simpl.
  rewrite Hcl. simpl.
  destruct (Z.eqb_spec u 0); [lia|]. simpl.
  destruct (Z.eqb_spec T 0); [lia|]. simpl.
  rewrite mul_u256_ok by assumption. simpl.
  fold (reward_of u (originalPoolSize m) T). fold reward.
  rewrite Ht'. simpl. reflexivity.
Qed.

(** X28: for every market in the Resolved state and every caller whose
    share [u] on the winning outcome is positive, who has not claimed, and
    whose winning-outcome total [T] is positive, [claimRewards] succeeds
    when [u * originalPoolSize] fits in a [uint256] and the contract holds
    the reward in the token. It transfers exactly
    [floor (u * originalPoolSize / T)] from the contract to the caller, sets
    the caller's claimed flag, and zeroes the caller's share on the winning
    outcome; a second [claimRewards] by the same caller on the same market
    then fails with [AlreadyClaimed]. *)
Theorem claimRewards_spec (s : state) (sender id : Z) :
  let m := market_at s id in
  let u := shares_at s id (winningOutcome m) sender in
  let T := outcome_shares m (winningOutcome m) in
  let reward := reward_of u (originalPoolSize m) T in
  admin m <> 0 ->
  status m = STATUS_RESOLVED ->
  winningOutcome m <> 0 ->
  claimed_at s id sender = false ->
  0 < u ->
  0 < T ->
  u * originalPoolSize m <= MAX_UINT256 ->
  reward <= IERC20.balanceOf (token s) (this s) ->
  exists s', claimRewards sender id s = Ok s'
    /\ (forall x, IERC20.balanceOf (token s') x =
          IERC20.balanceOf (token s) x
          + (if decide (x = sender) then reward else 0)
          - (if decide (x = this s) then reward else 0))
    /\ claimed_at s' id sender = true
    /\ shares_at s' id (winningOutcome m) sender = 0
    /\ claimRewards sender id s' = Err AlreadyClaimed.
Proof.
  intros m u T reward Hadm Hst Hwo Hcl Hu HT Hmul Hbal.
  destruct (claimRewards_ok s sender id Hadm Hst Hwo Hcl Hu HT Hmul Hbal)
    as (t' & Hok & Hb').
  eexists. split; [exact Hok|]. split; [|split; [|split]].
  - simpl. exact Hb'.
  - unfold claimed_at. simpl. rewrite lookup_insert_eq. reflexivity.
  - unfold shares_at. simpl. rewrite lookup_insert_eq. reflexivity.
  - unfold claimRewards.
    match goal with |- context [market_at ?s2 id] =>
      assert (Hm2 : market_at s2 id = m) by reflexivity end.
    rewrite Hm2.
    destruct (Z.eqb_spec (admin m) 0); [contradiction|]. simpl.
    rewrite Hst, Z.eqb_refl. simpl.
    destruct (Z.eqb_spec (winningOutcome m) 0); [contradiction|]. simpl.
    unfold claimed_at. simpl. rewrite lookup_insert_eq. reflexivity.
Qed.

(** The product that does not fit: a single stake of [2 ^ 128] on the
    winning outcome. The market is resolved, the caller's share and the
    winning total are [2 ^ 128], nothing is claimed yet and the contract
    holds the whole pool, yet [claimRewards] reverts: the product
    [2 ^ 128 * 2 ^ 128] does not fit in a [uint256]. *)
Lemma claimRewards_overflow_counterexample :
  let m := market_at resolved_huge 1 in
  admin m = 10
  /\ status m = STATUS_RESOLVED
  /\ winningOutcome m = OUTCOME_PLAYER1
  /\ shares_at resolved_huge 1 OUTCOME_PLAYER1 21 = 2 ^ 128
  /\ outcome_shares m OUTCOME_PLAYER1 = 2 ^ 128
  /\ originalPoolSize m = 2 ^ 128
  /\ claimed_at resolved_huge 1 21 = false
  /\ IERC20.balanceOf (token resolved_huge) (this resolved_huge) = 2 ^ 128
  /\ claimRewards 21 1 resolved_huge = Err Panic.
Proof. repeat split; vm_compute; reflexivity. Qed.

Lemma claimRewards_spec_witness :
  exists s',
    claimRewards 21 1 resolved_4500 = Ok s'
    /\ IERC20.balanceOf (token s') 21 = 1500
    /\ IERC20.balanceOf (token s') 1000 = 3000
    /\ claimRewards 21 1 s' = Err AlreadyClaimed.
Proof.
  destruct (claimRewards_spec resolved_4500 21 1) as (s' & Hok & Hbal & _ & _ & Hagain).
  - vm_compute. discriminate.
  - vm_compute. reflexivity.
  - vm_compute. discriminate.
  - vm_compute. reflexivity.
  - vm_compute. reflexivity.
  - vm_compute. reflexivity.
  - vm_compute. discriminate.
  - vm_compute. discriminate.
  - exists s'. split; [exact Hok|]. rewrite !Hbal.
    split; [vm_compute; reflexivity|]. split; [vm_compute; reflexivity | exact Hagain].
Defined.

(** *** Betting *)

Lemma valid_outcome_cases (o : Z) :
  valid_outcome o = true ->
  o = OUTCOME_PLAYER1 \/ o = OUTCOME_PLAYER2 \/ o = OUTCOME_DRAW.
Proof.
  unfold valid_outcome.
  destruct (Z.eqb_spec o OUTCOME_PLAYER1); [auto|].
  destruct (Z.eqb_spec o OUTCOME_PLAYER2); [auto|].
  destruct (Z.eqb_spec o OUTCOME_DRAW); [auto|]. discriminate.
Qed.

Lemma add_shares_Ok (m m1 : Market) (o amt : Z) :
  valid_outcome o = true ->
  add_shares m o amt = Ok m1 ->
  status m1 = status m /\ pool m1 = pool m /\ admin m1 = admin m
  /\ winningOutcome m1 = winningOutcome m
  /\ originalPoolSize m1 = originalPoolSize m
  /\ player1Shares m1 = player1Shares m + (if decide (o = OUTCOME_PLAYER1) then amt else 0)
  /\ player2Shares m1 = player2Shares m + (if decide (o = OUTCOME_PLAYER2) then amt else 0)
  /\ drawShares m1 = drawShares m + (if decide (o = OUTCOME_DRAW) then amt else 0).
Proof.
  intros Hv Hadd. unfold add_shares in Hadd.
  destruct (valid_outcome_cases o Hv) as [-> | [-> | ->]]; simpl in Hadd; ok_inv Hadd;
    subst m1;
    match goal with H : add_u256 _ _ = Ok _ |- _ => apply add_u256_Ok in H as [-> _] end;
    simpl; repeat split; lia.
Qed.

Lemma market_at_insert (s : state) (id id' : Z) (m : Market) (t : IERC20.ledger)
    (us : gmap (Z * Z * Z) Z) (hc : gmap (Z * Z) bool) :
  market_at {| this := this s; token := t; markets := <[id := m]> (markets s);
               userShares := us; hasClaimed := hc |} id'
  = if decide (id' = id) then m else market_at s id'.
Proof.
  unfold market_at. simpl. destruct (decide (id' = id)) as [->|Hne].
  - rewrite lookup_insert_eq. reflexivity.
  - rewrite lookup_insert_ne by congruence. reflexivity.
Qed.

Lemma bet_effect (s s' : state) (sender id outcome amount : Z) :
  bet sender id outcome amount s = Ok s' ->
  let m := market_at s id in
  let m' := market_at s' id in
  valid_outcome outcome = true
  /\ amount <> 0
  /\ status m = STATUS_ACTIVE
  /\ status m' = STATUS_ACTIVE
  /\ player1Shares m' =
       player1Shares m + (if decide (outcome = OUTCOME_PLAYER1) then amount else 0)
  /\ player2Shares m' =
       player2Shares m + (if decide (outcome = OUTCOME_PLAYER2) then amount else 0)
  /\ drawShares m' =
       drawShares m + (if decide (outcome = OUTCOME_DRAW) then amount else 0)
  /\ pool m' = pool m + amount
  /\ shares_at s' id outcome sender = shares_at s id outcome sender + amount
  /\ (forall id', id' <> id -> market_at s' id' = market_at s id').
Proof.
  intros Hbet m m'. unfold bet in Hbet. fold m in Hbet.
  ok_inv Hbet. subst s' m'.
  match goal with H : valid_outcome _ = true |- _ => rename H into Hv end.
  match goal with H : add_shares _ _ _ = Ok _ |- _ =>
    apply (add_shares_Ok _ _ _ _ Hv) in H
      as (Hst & Hpool & _ & _ & _ & Hp1 & Hp2 & Hd) end.
  repeat match goal with
         | H : add_u256 _ _ = Ok _ |- _ => apply add_u256_Ok in H as [-> _]
         | H : (_ =? _) = true |- _ => apply Z.eqb_eq in H
         | H : negb (_ =? _) = true |- _ => apply negb_true_iff, Z.eqb_neq in H
         end.
  rewrite market_at_insert, decide_True by reflexivity. simpl.
  repeat split; try assumption; try congruence.
  - unfold shares_at. simpl. rewrite lookup_insert_eq. reflexivity.
  - intros id' Hne. rewrite market_at_insert, decide_False by assumption. reflexivity.
Qed.

(** Betting on the Solidity contract: from the creation of a market on,
    every sequence of successful bets keeps the market Active and its pool
    balanced, and each further successful bet adds its amount to the total
    of its outcome, to the pool and to the caller's share. *)
Lemma bets_keep_pool_balanced (s0 s1 s : state) (creator id p1 p2 : Z) :
  createMarket creator id p1 p2 s0 = Ok s1 ->
  bets s1 s ->
  let m := market_at s id in
  status m = STATUS_ACTIVE
  /\ pool_balanced m
  /\ forall sender outcome amount s',
       bet sender id outcome amount s = Ok s' ->
       let m' := market_at s' id in
       player1Shares m' =
         player1Shares m + (if decide (outcome = OUTCOME_PLAYER1) then amount else 0)
       /\ player2Shares m' =
            player2Shares m + (if decide (outcome = OUTCOME_PLAYER2) then amount else 0)
       /\ drawShares m' =
            drawShares m + (if decide (outcome = OUTCOME_DRAW) then amount else 0)
       /\ (outcome = OUTCOME_PLAYER1 \/ outcome = OUTCOME_PLAYER2 \/ outcome = OUTCOME_DRAW)
       /\ pool m' = pool m + amount
       /\ shares_at s' id outcome sender = shares_at s id outcome sender + amount
       /\ status m' = STATUS_ACTIVE
       /\ pool_balanced m'.
Proof.
  intros Hcreate Hbets.
  assert (Hinv : status (market_at s id) = STATUS_ACTIVE /\ pool_balanced (market_at s id)).
  { induction Hbets as [s1 | s1 s2 s3 sender id' outcome amount _ IH Hbet].
    - unfold createMarket in Hcreate. ok_inv Hcreate. subst s1.
      rewrite market_at_insert, decide_True by reflexivity.
      split; reflexivity.
    - specialize (IH Hcreate). destruct IH as [Hst Hpb].
      destruct (decide (id = id')) as [<-|Hne].
      + destruct (bet_effect _ _ _ _ _ _ Hbet)
          as (Hv & _ & _ & Hst' & Hp1 & Hp2 & Hd & Hpool & _).
        split; [exact Hst'|]. unfold pool_balanced in *.
        rewrite Hp1, Hp2, Hd, Hpool, Hpb.
        destruct (valid_outcome_cases _ Hv) as [-> | [-> | ->]]; simpl; lia.
      + destruct (bet_effect _ _ _ _ _ _ Hbet) as (_ & _ & _ & _ & _ & _ & _ & _ & _ & Hoth).
        rewrite (Hoth id Hne). split; assumption. }
  destruct Hinv as [Hst Hpb]. split; [exact Hst|]. split; [exact Hpb|].
  intros sender outcome amount s' Hbet.
  destruct (bet_effect _ _ _ _ _ _ Hbet)
    as (Hv & _ & _ & Hst' & Hp1 & Hp2 & Hd & Hpool & Hsh & _).
  simpl. repeat split; try assumption.
  - apply valid_outcome_cases. exact Hv.
  - unfold pool_balanced in *. rewrite Hp1, Hp2, Hd, Hpool, Hpb.
    destruct (valid_outcome_cases _ Hv) as [-> | [-> | ->]]; simpl; lia.
Qed.

(** The pool stays balanced under every call of the contract, not only
    under bets: in every state reached from the deployment, every market
    record has [pool = player1Shares + player2Shares + drawShares]. *)
Lemma step_pool_balanced (s : state) (c : call) :
  (forall id, pool_balanced (market_at s id)) ->
  forall id, pool_balanced (market_at (step s c) id).
Proof.
  intros Hs id. unfold step. destruct (exec c s) as [s'|e] eqn:Hex; [|apply Hs].
  destruct c as [sender id' p1 p2|sender id' o amt|sender id' o|sender id'];
    simpl in Hex.
  - unfold createMarket in Hex. ok_inv Hex. subst s'.
    rewrite market_at_insert. destruct (decide (id = id')); [reflexivity | apply Hs].
  - destruct (bet_effect _ _ _ _ _ _ Hex)
      as (Hv & _ & _ & _ & Hp1 & Hp2 & Hd & Hpool & _ & Hoth).
    destruct (decide (id = id')) as [->|Hne]; [|rewrite (Hoth id Hne); apply Hs].
    unfold pool_balanced in *. rewrite Hp1, Hp2, Hd, Hpool, (Hs id').
    destruct (valid_outcome_cases _ Hv) as [-> | [-> | ->]]; simpl; lia.
  - unfold resolveMarket in Hex. ok_inv Hex. subst s'.
    rewrite market_at_insert. destruct (decide (id = id')) as [->|]; [|apply Hs].
    exact (Hs id').
  - unfold claimRewards in Hex. ok_inv Hex. subst s'.
    change (market_at _ id) with (market_at s id). apply Hs.
Qed.

(** X18: in every state reached from the deployment by any sequence of
    calls, failed ones included, the [pool] of every market is the sum of
    its three outcome totals: bets raise both by the same amount, and
    resolutions and claims touch neither. *)
Lemma reachable_pool_balanced (calls : list call) (s0 : state) (id : Z) :
  markets s0 = ∅ -> pool_balanced (market_at (run calls s0) id).
Proof.
  intros H0. assert (Hb : forall id, pool_balanced (market_at s0 id)).
  { intros id'. unfold market_at. rewrite H0, lookup_empty. reflexivity. }
  clear H0. revert s0 Hb id. induction calls as [|c calls IH]; intros s0 Hb id; simpl.
  - apply Hb.
  - apply IH. apply step_pool_balanced. exact Hb.
Qed.

(** *** The sum of the rewards *)

Lemma div_superadditive (a b T : Z) : 0 < T -> a / T + b / T <= (a + b) / T.
Proof.
  intros HT. apply Z.div_le_lower_bound; [assumption|].
  pose proof (Z.mul_div_le a T HT). pose proof (Z.mul_div_le b T HT). lia.
Qed.

Lemma sum_rewards_le_div (shares : list Z) (P T : Z) :
  0 < T -> sum_of (rewards_of shares P T) <= sum_of shares * P / T.
Proof.
  intros HT. induction shares as [|u shares IH]; simpl.
  - rewrite Z.div_0_l by lia. lia.
  - unfold reward_of at 1.
    pose proof (div_superadditive (u * P) (sum_of shares * P) T HT) as Hsup.
    replace ((u + sum_of shares) * P) with (u * P + sum_of shares * P) by lia.
    fold (rewards_of shares P T). lia.
Qed.

Lemma sum_rewards_lower (shares : list Z) (P T : Z) :
  0 < T ->
  sum_of shares * P - Z.of_nat (length shares) * (T - 1)
  <= T * sum_of (rewards_of shares P T).
Proof.
  intros HT. induction shares as [|u shares IH].
  - simpl. lia.
  - change (sum_of (u :: shares)) with (u + sum_of shares).
    change (sum_of (rewards_of (u :: shares) P T))
      with (reward_of u P T + sum_of (rewards_of shares P T)).
    change (length (u :: shares)) with (S (length shares)).
    rewrite Nat2Z.inj_succ. unfold reward_of at 1.
    pose proof (Z.div_mod (u * P) T ltac:(lia)) as Hdm.
    pose proof (Z.mod_pos_bound (u * P) T HT) as Hmb.
    nia.
Qed.

Lemma sum_rewards_le_snapshot (shares : list Z) (P T : Z) :
  0 <= P -> 0 < T -> sum_of shares <= T -> sum_of (rewards_of shares P T) <= P.
Proof.
  intros HP HT Hsum.
  pose proof (sum_rewards_le_div shares P T HT) as H1.
  assert (H2 : sum_of shares * P / T <= T * P / T)
    by (apply Z.div_le_mono; [assumption | nia]).
  rewrite (Z.mul_comm T P), Z.div_mul in H2 by lia. lia.
Qed.

Lemma dust_lt_claimants (shares : list Z) (P T : Z) :
  0 < T -> sum_of shares = T -> shares <> [] ->
  P - sum_of (rewards_of shares P T) <= Z.of_nat (length shares) - 1.
Proof.
  intros HT Hall Hne.
  pose proof (sum_rewards_lower shares P T HT) as Hlow.
  rewrite Hall in Hlow.
  assert (Hk : 1 <= Z.of_nat (length shares)) by (destruct shares; [congruence | simpl; lia]).
  nia.
Qed.

(** A successful claim leaves the markets, and the shares and flags of
    everybody else, as they were. *)
Lemma claimRewards_frame (s s' : state) (sender id : Z) :
  claimRewards sender id s = Ok s' ->
  this s' = this s /\ markets s' = markets s
  /\ (forall c, c <> sender ->
        shares_at s' id (winningOutcome (market_at s id)) c
        = shares_at s id (winningOutcome (market_at s id)) c
        /\ claimed_at s' id c = claimed_at s id c).
Proof.
  intros H. unfold claimRewards in H. ok_inv H. subst s'. simpl.
  split; [reflexivity|]. split; [reflexivity|]. intros c Hc.
  unfold shares_at, claimed_at. simpl.
  rewrite !lookup_insert_ne by congruence. split; reflexivity.
Qed.

Lemma sum_rewards_nonneg (shares : list Z) (P T : Z) :
  0 <= P -> 0 < T -> Forall (fun u => 0 <= u) shares ->
  0 <= sum_of (rewards_of shares P T).
Proof.
  intros HP HT Hall. induction Hall as [|u shares Hu _ IH]; simpl; [lia|].
  assert (0 <= reward_of u P T) by (unfold reward_of; apply Z.div_pos; nia).
  fold (rewards_of shares P T). lia.
Qed.

Lemma market_at_same (s s' : state) (id : Z) :
  markets s' = markets s -> market_at s' id = market_at s id.
Proof. intros H. unfold market_at. rewrite H. reflexivity. Qed.

(** The claims as they run: distinct claimants of a resolved market, none
    of them the contract itself, each with a positive unclaimed share whose
    product with the snapshot fits, all succeed when the contract holds
    their rewards; together they take the sum of their rewards out of the
    contract. *)
Lemma claim_all_pays (claimants : list Z) (id : Z) (s : state) :
  let m := market_at s id in
  let wo := winningOutcome m in
  let T := outcome_shares m wo in
  let P := originalPoolSize m in
  let shares := map (shares_at s id wo) claimants in
  NoDup claimants ->
  this s ∉ claimants ->
  admin m <> 0 -> status m = STATUS_RESOLVED -> wo <> 0 -> 0 < T -> 0 <= P ->
  (forall c, c ∈ claimants ->
     claimed_at s id c = false /\ 0 < shares_at s id wo c
     /\ shares_at s id wo c * P <= MAX_UINT256) ->
  sum_of (rewards_of shares P T) <= IERC20.balanceOf (token s) (this s) ->
  exists s', claim_all claimants id s = Ok s'
    /\ IERC20.balanceOf (token s') (this s')
       = IERC20.balanceOf (token s) (this s) - sum_of (rewards_of shares P T).
Proof.
  revert s. induction claimants as [|c rest IH]; intros s m wo T P shares
    Hnd Hthis Hadm Hst Hwo HT HP Hall Hbal; subst shares T P wo m.
  - exists s. split; [reflexivity|]. simpl. lia.
  - apply NoDup_cons in Hnd as [Hc Hnd].
    apply not_elem_of_cons in Hthis as [Hthis_c Hthis].
    destruct (Hall c ltac:(left)) as (Hcl & Hpos & Hfit).
    simpl in Hbal |- *.
    match type of Hbal with context [rewards_of ?l ?P ?T] =>
      assert (Hrest0 : 0 <= sum_of (rewards_of l P T)) end.
    { apply sum_rewards_nonneg; [assumption | assumption |].
      apply Forall_forall. intros u Hu. apply list_elem_of_fmap in Hu as (c' & -> & Hin).
      destruct (Hall c' ltac:(right; exact Hin)) as (_ & ? & _). lia. }
    destruct (claimRewards_ok s c id Hadm Hst Hwo Hcl Hpos HT Hfit)
      as (t1 & Hok & Hb1); [simpl; lia|].
    match type of Hok with _ = Ok ?st => set (s1 := st) in * end.
    change (token s1) with t1 in *.
    destruct (claimRewards_frame s s1 c id Hok) as (Hthis1 & Hmk1 & Hframe).
    pose proof (market_at_same s s1 id Hmk1) as Hm1.
    assert (Hsh : map (shares_at s1 id (winningOutcome (market_at s id))) rest
                  = map (shares_at s id (winningOutcome (market_at s id))) rest).
    { apply map_ext_in. intros c' Hin. apply list_elem_of_In in Hin.
      apply Hframe. intros ->. contradiction. }
    assert (Hbal1 : IERC20.balanceOf (token s1) (this s)
                    = IERC20.balanceOf (token s) (this s)
                      - reward_of (shares_at s id (winningOutcome (market_at s id)) c)
                          (originalPoolSize (market_at s id))
                          (outcome_shares (market_at s id)
                             (winningOutcome (market_at s id)))).
    { rewrite Hb1. rewrite decide_False by (intros Heq; apply Hthis_c; exact Heq).
      rewrite decide_True by reflexivity. lia. }
    destruct (IH s1) as (s2 & Hok2 & Hb2).
    + exact Hnd.
    + rewrite Hthis1. exact Hthis.
    + rewrite Hm1. exact Hadm.
    + rewrite Hm1. exact Hst.
    + rewrite Hm1. exact Hwo.
    + rewrite Hm1. exact HT.
    + rewrite Hm1. exact HP.
    + intros c' Hin. rewrite Hm1.
      assert (c' <> c) by (intros ->; contradiction).
      destruct (Hframe c' ltac:(assumption)) as [-> ->].
      apply Hall. right. exact Hin.
    + rewrite Hm1, Hsh, Hthis1, Hbal1. lia.
    + exists s2. split; [rewrite Hok; exact Hok2|].
      rewrite Hb2, Hm1, Hsh, Hthis1, Hbal1. lia.
Qed.


(** X19: so the claims of one market never take more than its snapshot out
    of the contract: when distinct holders of the winning outcome, none of
    them the contract itself, claim one after the other, every claim
    succeeds and the contract's balance falls by at most
    [originalPoolSize]. *)
Lemma claims_within_snapshot (claimants : list Z) (id : Z) (s : state) :
  let m := market_at s id in
  let wo := winningOutcome m in
  let T := outcome_shares m wo in
  let P := originalPoolSize m in
  NoDup claimants ->
  this s ∉ claimants ->
  admin m <> 0 -> status m = STATUS_RESOLVED -> wo <> 0 -> 0 < T -> 0 <= P ->
  (forall c, c ∈ claimants ->
     claimed_at s id c = false /\ 0 < shares_at s id wo c
     /\ shares_at s id wo c * P <= MAX_UINT256) ->
  sum_of (map (shares_at s id wo) claimants) <= T ->
  P <= IERC20.balanceOf (token s) (this s) ->
  exists s', claim_all claimants id s = Ok s'
    /\ IERC20.balanceOf (token s) (this s) - P <= IERC20.balanceOf (token s') (this s').
Proof.
  intros m wo T P Hnd Hthis Hadm Hst Hwo HT HP Hall Hsum Hbal.
  pose proof (sum_rewards_le_snapshot (map (shares_at s id wo) claimants) P T HP HT Hsum)
    as Hle.
  destruct (claim_all_pays claimants id s Hnd Hthis Hadm Hst Hwo HT HP Hall)
    as (s' & Hok & Hb); [fold m wo T P; lia|].
  exists s'. split; [exact Hok|]. rewrite Hb. fold m wo T P. lia.
Qed.

(** What a successful claim does to the balances: the reward of the
    formula moves from the contract to the caller. *)
Lemma claimRewards_pays (s s' : state) (sender id : Z) :
  claimRewards sender id s = Ok s' ->
  forall x, IERC20.balanceOf (token s') x =
    IERC20.balanceOf (token s) x
    + (if decide (x = sender)
       then reward_of (shares_at s id (winningOutcome (market_at s id)) sender)
              (originalPoolSize (market_at s id))
              (outcome_shares (market_at s id) (winningOutcome (market_at s id)))
       else 0)
    - (if decide (x = this s)
       then reward_of (shares_at s id (winningOutcome (market_at s id)) sender)
              (originalPoolSize (market_at s id))
              (outcome_shares (market_at s id) (winningOutcome (market_at s id)))
       else 0).
Proof.
  intros H x. unfold claimRewards in H. ok_inv H. subst s'. simpl.
  match goal with Hm : mul_u256 _ _ = Ok ?z |- _ =>
    unfold mul_u256 in Hm;
    match type of Hm with (if ?b then _ else _) = _ => destruct b end;
    [injection Hm as <- | discriminate Hm] end.
  match goal with Ht : IERC20.safeTransfer _ _ _ _ = Ok _ |- _ =>
    unfold IERC20.safeTransfer in Ht;
    match type of Ht with (if ?b then _ else _) = _ => destruct b end;
    [injection Ht as <- | discriminate Ht] end.
  unfold IERC20.balanceOf, reward_of. simpl. apply move_balance.
Qed.

(** The same for a run of claims that all succeeded, account by account:
    every claimant has received its own reward, nobody else's balance has
    moved, and the contract has paid their sum. *)
Lemma claim_all_paid (claimants : list Z) (id : Z) (s s' : state) :
  NoDup claimants ->
  this s ∉ claimants ->
  claim_all claimants id s = Ok s' ->
  this s' = this s
  /\ (forall x, x <> this s ->
        IERC20.balanceOf (token s') x =
        IERC20.balanceOf (token s) x
        + (if decide (x ∈ claimants)
           then reward_of (shares_at s id (winningOutcome (market_at s id)) x)
                  (originalPoolSize (market_at s id))
                  (outcome_shares (market_at s id) (winningOutcome (market_at s id)))
           else 0))
  /\ IERC20.balanceOf (token s') (this s)
     = IERC20.balanceOf (token s) (this s)
       - sum_of (rewards_of (map (shares_at s id (winningOutcome (market_at s id)))
                               claimants)
                   (originalPoolSize (market_at s id))
                   (outcome_shares (market_at s id) (winningOutcome (market_at s id)))).
Proof.
  revert s. induction claimants as [|c rest IH]; intros s Hnd Hthis Hok.
  - simpl in Hok. injection Hok as <-. split; [reflexivity|]. split.
    + intros x _. rewrite decide_False by apply not_elem_of_nil. lia.
    + simpl. lia.
  - apply NoDup_cons in Hnd as [Hc Hnd].
    apply not_elem_of_cons in Hthis as [Hthis_c Hthis].
    simpl in Hok. destruct (claimRewards c id s) as [s1|e] eqn:Hc1; [|discriminate Hok].
    simpl in Hok.
    pose proof (claimRewards_pays s s1 c id Hc1) as Hb1.
    destruct (claimRewards_frame s s1 c id Hc1) as (Hthis1 & Hmk1 & Hframe).
    pose proof (market_at_same s s1 id Hmk1) as Hm1.
    assert (Hsh : map (shares_at s1 id (winningOutcome (market_at s id))) rest
                  = map (shares_at s id (winningOutcome (market_at s id))) rest).
    { apply map_ext_in. intros c' Hin. apply list_elem_of_In in Hin.
      apply Hframe. intros ->. contradiction. }
    destruct (IH s1 Hnd ltac:(rewrite Hthis1; exact Hthis) Hok) as (Hthis2 & Hbx & Hb2).
    rewrite Hm1, Hthis1 in Hbx. rewrite Hm1, Hsh, Hthis1 in Hb2.
    split; [rewrite Hthis2; exact Hthis1|]. split.
    + intros x Hx. rewrite (Hbx x Hx), Hb1.
      rewrite (decide_False (P := x = this s)) by exact Hx.
      destruct (decide (x = c)) as [->|Hxc].
      * rewrite (decide_False (P := c ∈ rest)) by exact Hc.
        rewrite (decide_True (P := c ∈ c :: rest)) by (apply elem_of_cons; left; reflexivity).
        lia.
      * destruct (decide (x ∈ rest)) as [Hin|Hnin].
        -- rewrite (decide_True (P := x ∈ c :: rest))
             by (apply elem_of_cons; right; exact Hin).
           rewrite (proj1 (Hframe x Hxc)). lia.
        -- rewrite (decide_False (P := x ∈ c :: rest))
             by (intros Hin; apply elem_of_cons in Hin as [?|?]; contradiction).
           lia.
    + rewrite Hb2, Hb1. simpl.
      rewrite decide_False by (intros Heq; apply Hthis_c; exact Heq).
      rewrite decide_True by reflexivity. lia.
Qed.

(** C5: on a resolved market with snapshot [P] and winning-outcome total
    [T > 0], distinct claimants whose shares [s_i] on the winning outcome
    sum to at most [T] call [claimRewards] one after the other. The calls
    all succeed when each claimant has a positive unclaimed share whose
    product with [P] fits in a [uint256] and the contract holds their
    rewards. And whenever they all succeed, each has paid its caller
    [floor (s_i * P / T)]; what has left the contract is the sum of these
    rewards, which does not exceed [P]; and when the [k >= 1] claimants
    exhaust the winning outcome (their shares sum to [T]), the dust [P]
    minus the sum of the rewards is at most [k - 1]. *)
Theorem rewards_bounded_by_snapshot (claimants : list Z) (id : Z) (s : state) :
  let m := market_at s id in
  let wo := winningOutcome m in
  let T := outcome_shares m wo in
  let P := originalPoolSize m in
  let shares := map (shares_at s id wo) claimants in
  NoDup claimants ->
  this s ∉ claimants ->
  admin m <> 0 -> status m = STATUS_RESOLVED -> wo <> 0 -> 0 < T -> 0 <= P ->
  sum_of shares <= T ->
  ((forall c, c ∈ claimants ->
      claimed_at s id c = false /\ 0 < shares_at s id wo c
      /\ shares_at s id wo c * P <= MAX_UINT256) ->
   sum_of (rewards_of shares P T) <= IERC20.balanceOf (token s) (this s) ->
   exists s', claim_all claimants id s = Ok s')
  /\ (forall s', claim_all claimants id s = Ok s' ->
        (forall c, c ∈ claimants ->
           IERC20.balanceOf (token s') c
           = IERC20.balanceOf (token s) c + shares_at s id wo c * P / T)
        /\ IERC20.balanceOf (token s) (this s) - IERC20.balanceOf (token s') (this s')
           = sum_of (rewards_of shares P T)
        /\ sum_of (rewards_of shares P T) <= P
        /\ (sum_of shares = T -> claimants <> [] ->
            0 <= P - sum_of (rewards_of shares P T) <= Z.of_nat (length claimants) - 1)).
Proof.
  intros m wo T P shares Hnd Hthis Hadm Hst Hwo HT HP Hsum.
  pose proof (sum_rewards_le_snapshot shares P T HP HT Hsum) as Hle.
  split.
  - intros Hall Hbal.
    destruct (claim_all_pays claimants id s Hnd Hthis Hadm Hst Hwo HT HP Hall Hbal)
      as (s' & Hok & _).
    exists s'. exact Hok.
  - intros s' Hok.
    destruct (claim_all_paid claimants id s s' Hnd Hthis Hok) as (Hthis' & Hbx & Hb).
    fold m wo T P shares in Hbx, Hb.
    split; [|split; [|split]].
    + intros c Hc. rewrite Hbx by (intros ->; contradiction).
      rewrite decide_True by exact Hc. reflexivity.
    + rewrite Hthis', Hb. lia.
    + exact Hle.
    + intros Hex Hne. split; [lia|].
      replace (length claimants) with (length shares) by apply length_map.
      apply dust_lt_claimants; [assumption | assumption |].
      intros Hnil. apply Hne. destruct claimants; [reflexivity | discriminate Hnil].
Qed.

(** Three winners with a share of 1 each in a winning total of 3 and a
    snapshot of 10: each is paid 3 and one unit of dust stays. *)
Lemma rewards_bounded_by_snapshot_witness :
  exists s', claim_all [21; 22; 23] 1 resolved_dust = Ok s'
    /\ IERC20.balanceOf (token s') 21 = 3
    /\ IERC20.balanceOf (token s') 22 = 3
    /\ IERC20.balanceOf (token s') 23 = 3
    /\ IERC20.balanceOf (token s') (this s') = 1.
Proof.
  destruct (rewards_bounded_by_snapshot [21; 22; 23] 1 resolved_dust)
    as (Hruns & Hpays).
  - apply (bool_decide_unpack _). vm_compute. exact I.
  - apply (bool_decide_unpack _). vm_compute. exact I.
  - vm_compute. discriminate.
  - vm_compute. reflexivity.
  - vm_compute. discriminate.
  - vm_compute. reflexivity.
  - vm_compute. discriminate.
  - vm_compute. discriminate.
  - destruct Hruns as (s' & Hok).
    + intros c Hc. repeat (apply elem_of_cons in Hc as [-> | Hc]);
        [| | |apply not_elem_of_nil in Hc; contradiction];
        (split; [vm_compute; reflexivity|]); (split; [vm_compute; reflexivity|]);
        vm_compute; discriminate.
    + vm_compute. discriminate.
    + destruct (Hpays s' Hok) as (Hpaid & Hout & _).
      exists s'. split; [exact Hok|].
      rewrite (Hpaid 21), (Hpaid 22), (Hpaid 23)
        by (apply (bool_decide_unpack _); vm_compute; exact I).
      assert (Hthis : IERC20.balanceOf (token s') (this s')
                      = IERC20.balanceOf (token resolved_dust) (this resolved_dust)
                        - sum_of (rewards_of
                                    (map (shares_at resolved_dust 1
                                            (winningOutcome (market_at resolved_dust 1)))
                                         [21; 22; 23])
                                    (originalPoolSize (market_at resolved_dust 1))
                                    (outcome_shares (market_at resolved_dust 1)
                                       (winningOutcome (market_at resolved_dust 1)))))
        by lia.
      rewrite Hthis. repeat split; vm_compute; reflexivity.
Defined.

(** *** The projected reward *)

Lemma step_frozen_pool (s : state) (c : call) :
  frozen_pool s -> frozen_pool (step s c).
Proof.
  intros Hs. unfold step. destruct (exec c s) as [s'|e] eqn:Hex; [|exact Hs].
  intros id Hres. destruct c as [sender id' p1 p2|sender id' o amt|sender id' o|sender id'];
    simpl in Hex.
  - unfold createMarket in Hex. ok_inv Hex. subst s'.
    rewrite market_at_insert in *. destruct (decide (id = id')); [discriminate | auto].
  - destruct (decide (id = id')) as [->|Hne].
    + destruct (bet_effect _ _ _ _ _ _ Hex) as (_ & _ & _ & Hst' & _).
      rewrite Hst' in Hres. discriminate.
    + destruct (bet_effect _ _ _ _ _ _ Hex) as (_ & _ & _ & _ & _ & _ & _ & _ & _ & Hoth).
      rewrite (Hoth id Hne) in *. auto.
  - unfold resolveMarket in Hex. ok_inv Hex. subst s'.
    rewrite market_at_insert in *. destruct (decide (id = id')); [reflexivity | auto].
  - unfold claimRewards in Hex. ok_inv Hex. subst s'.
    change (market_at _ id) with (market_at s id) in *. auto.
Qed.

Lemma reachable_frozen_pool (calls : list call) (s0 : state) :
  markets s0 = ∅ -> frozen_pool (run calls s0).
Proof.
  intros H0. assert (Hf : frozen_pool s0).
  { intros id. unfold market_at. rewrite H0, lookup_empty. discriminate. }
  clear H0. revert s0 Hf. induction calls as [|c calls IH]; intros s0 Hf; simpl.
  - exact Hf.
  - apply IH. apply step_frozen_pool. exact Hf.
Qed.

(** X20, the counterpart of C7 on the Solidity contract: in every state
    reached from the
    deployment, the projection for the winning outcome of a resolved market
    is the claim formula on the frozen snapshot,
    [floor (userShares * originalPoolSize / winningOutcomeShares)], whatever
    rewards have been paid since ([pool] is never decreased); and while the
    market is Active the projection is computed on the live [pool]. *)
Lemma getPotentialReward_spec (calls : list call) (s0 : state) (id outcome user : Z) :
  markets s0 = ∅ ->
  let s := run calls s0 in
  let m := market_at s id in
  let u := shares_at s id outcome user in
  let T := outcome_shares m outcome in
  admin m <> 0 -> 0 < u -> 0 < T ->
  (status m = STATUS_RESOLVED -> outcome = winningOutcome m ->
   u * originalPoolSize m <= MAX_UINT256 ->
   getPotentialReward id outcome user s = Ok (reward_of u (originalPoolSize m) T))
  /\ (status m = STATUS_ACTIVE -> u * pool m <= MAX_UINT256 ->
      getPotentialReward id outcome user s = Ok (u * pool m / T)).
Proof.
  intros H0 s m u T Hadm Hu HT.
  pose proof (reachable_frozen_pool calls s0 H0 id) as Hfrozen. fold s m in Hfrozen.
  assert (Hlive : (status m =? STATUS_RESOLVED) && negb (winningOutcome m =? outcome) = false
                  -> u * pool m <= MAX_UINT256 ->
                  getPotentialReward id outcome user s = Ok (u * pool m / T)).
  { intros Hgate Hfit. unfold getPotentialReward. fold m u T.
    destruct (Z.eqb_spec (admin m) 0); [contradiction|].
    destruct (Z.eqb_spec u 0); [lia|]. rewrite Hgate.
    destruct (Z.eqb_spec T 0); [lia|].
    rewrite mul_u256_ok by assumption. reflexivity. }
  split.
  - intros Hres Hout Hfit. unfold reward_of. rewrite <- (Hfrozen Hres).
    apply Hlive; [|rewrite (Hfrozen Hres); exact Hfit].
    rewrite Hout, Z.eqb_refl. simpl. apply andb_false_r.
  - intros Hact Hfit. apply Hlive; [|exact Hfit].
    rewrite Hact. reflexivity.
Qed.

(** *** Read-only queries *)


End PredictionMarketProperties.

(** * Properties of the Move market *)

Section MoveMarketProperties.
Import aptos prediction_market.

(** What [get_potential_reward] computes when it gets to its formula: the
    share times the value of the coin the market holds now, over the total
    of the outcome. *)
Lemma get_potential_reward_live (w : world) (a id outcome user : Z)
    (ms : gmap Z Market) (m : Market) (u : Z) :
  market_stores w !! a = Some ms -> ms !! id = Some m ->
  get_user_shares a id outcome user w = Ok u ->
  0 < u -> 0 < outcome_shares m outcome ->
  (status m = STATUS_ACTIVE
   \/ (status m = STATUS_RESOLVED /\ winning_outcome m = outcome)) ->
  u * pool m <= MAX_U64 ->
  get_potential_reward a id outcome user w = Ok (u * pool m / outcome_shares m outcome).
Proof.
  intros Hms Hm Hu Hpos HT Hgate Hfit.
  unfold get_potential_reward, borrow_global. rewrite Hms. simpl. rewrite Hm, Hu. simpl.
  destruct (Z.eqb_spec u 0); [lia|].
  assert (Hg : (status m =? STATUS_RESOLVED) && negb (winning_outcome m =? outcome) = false).
  { destruct Hgate as [-> | [-> ->]]; [reflexivity|].
    rewrite !Z.eqb_refl. reflexivity. }
  rewrite Hg. destruct (Z.eqb_spec (outcome_shares m outcome) 0); [lia|].
  rewrite mul_u64_ok by assumption. reflexivity.
Qed.

(** C7, on the Move module: the projection is computed on the coin the
    market still holds, which every claim decreases, and not on
    [original_pool_size]. In the market with stakes 1000 and 2000 on the
    winner out of a pool of 4500, the projection for account 22 is 3000 at
    resolution; after account 21 has claimed its 1500 it is 2000, although
    the snapshot is still 4500 and the claim of account 22 then pays 3000. *)
Theorem get_potential_reward_after_claim :
  let w := resolved_4500 in
  let w' := step w (ClaimRewards 21 10 1) in
  let w'' := step w' (ClaimRewards 22 10 1) in
  get_market_stats 10 1 w = Ok (STATUS_RESOLVED, OUTCOME_PLAYER1, 4500, 3000, 1500, 0)
  /\ get_user_shares 10 1 OUTCOME_PLAYER1 22 w = Ok 2000
  /\ get_potential_reward 10 1 OUTCOME_PLAYER1 22 w = Ok 3000
  /\ claim_rewards 21 10 1 w = Ok w'
  /\ coin.balance (coins w') 21 = 1500
  /\ get_user_shares 10 1 OUTCOME_PLAYER1 22 w' = Ok 2000
  /\ get_market_stats 10 1 w' = Ok (STATUS_RESOLVED, OUTCOME_PLAYER1, 3000, 3000, 1500, 0)
  /\ get_potential_reward 10 1 OUTCOME_PLAYER1 22 w' = Ok 2000
  /\ claim_rewards 22 10 1 w' = Ok w''
  /\ coin.balance (coins w'') 22 = 3000.
Proof. repeat split; vm_compute; reflexivity. Qed.

(** *** Betting *)

Lemma move_valid_outcome_cases (o : Z) :
  valid_outcome o = true ->
  o = OUTCOME_PLAYER1 \/ o = OUTCOME_PLAYER2 \/ o = OUTCOME_DRAW.
Proof.
  unfold valid_outcome.
  destruct (Z.eqb_spec o OUTCOME_PLAYER1); [auto|].
  destruct (Z.eqb_spec o OUTCOME_PLAYER2); [auto|].
  destruct (Z.eqb_spec o OUTCOME_DRAW); [auto|]. discriminate.
Qed.

Lemma move_add_shares_Ok (m m1 : Market) (o amt pool' : Z) :
  valid_outcome o = true ->
  add_shares m o amt pool' = Ok m1 ->
  status m1 = status m /\ pool m1 = pool' /\ admin m1 = admin m
  /\ winning_outcome m1 = winning_outcome m
  /\ original_pool_size m1 = original_pool_size m
  /\ player1_shares m1 =
       player1_shares m + (if decide (o = OUTCOME_PLAYER1) then amt else 0)
  /\ player2_shares m1 =
       player2_shares m + (if decide (o = OUTCOME_PLAYER2) then amt else 0)
  /\ draw_shares m1 = draw_shares m + (if decide (o = OUTCOME_DRAW) then amt else 0).
Proof.
  intros Hv Hadd. unfold add_shares in Hadd.
  destruct (move_valid_outcome_cases o Hv) as [-> | [-> | ->]]; simpl in Hadd;
    ok_inv Hadd; subst m1;
    match goal with H : add_u64 _ _ = Ok _ |- _ => apply add_u64_Ok in H as [-> _] end;
    simpl; repeat split; lia.
Qed.

Lemma shares_default (ss : gmap Z (gmap Z (gmap Z Z))) (id outcome user : Z) :
  default 0 (default ∅ (default ∅ (ss !! id) !! outcome) !! user)
  = default 0 (ss !! id ≫= λ ot, ot !! outcome ≫= λ us : gmap Z Z, us !! user).
Proof.
  destruct (ss !! id) as [ot|]; simpl.
  - destruct (ot !! outcome) as [us|]; simpl; [reflexivity|].
    rewrite lookup_empty. reflexivity.
  - rewrite !lookup_empty. simpl. rewrite lookup_empty. reflexivity.
Qed.

Lemma move_bet_effect (w w' : world) (user a id outcome amount : Z) :
  bet user a id outcome amount w = Ok w' ->
  exists m m',
    market_at w a id = Some m /\ market_at w' a id = Some m'
    /\ valid_outcome outcome = true
    /\ 0 < amount
    /\ status m = STATUS_ACTIVE
    /\ status m' = STATUS_ACTIVE
    /\ player1_shares m' =
         player1_shares m + (if decide (outcome = OUTCOME_PLAYER1) then amount else 0)
    /\ player2_shares m' =
         player2_shares m + (if decide (outcome = OUTCOME_PLAYER2) then amount else 0)
    /\ draw_shares m' =
         draw_shares m + (if decide (outcome = OUTCOME_DRAW) then amount else 0)
    /\ pool m' = pool m + amount
    /\ shares_at w' a id outcome user = shares_at w a id outcome user + amount
    /\ (forall a' id', (a', id') <> (a, id) -> market_at w' a' id' = market_at w a' id').
Proof.
  intros Hbet. unfold bet in Hbet. ok_inv Hbet. subst w'.
  match goal with H : valid_outcome _ = true |- _ => rename H into Hv end.
  match goal with H : add_shares _ _ _ _ = Ok _ |- _ =>
    apply (move_add_shares_Ok _ _ _ _ _ Hv) in H
      as (Hst & Hpool & _ & _ & _ & Hp1 & Hp2 & Hd) end.
  repeat match goal with
         | H : borrow_global _ _ = Ok _ |- _ => apply borrow_global_Ok in H
         | H : add_u64 _ _ = Ok _ |- _ => apply add_u64_Ok in H as [-> _]
         | H : (_ =? _) = true |- _ => apply Z.eqb_eq in H
         | H : (_ >? _) = true |- _ => apply Z.gtb_lt in H
         end.
  match goal with Hms : market_stores w !! a = Some ?ms, Hm : ?ms !! id = Some ?m |- _ =>
    exists m; eexists; split; [unfold market_at; rewrite Hms; exact Hm|] end.
  split; [unfold market_at; simpl; rewrite lookup_insert_eq; simpl; apply lookup_insert_eq|].
  repeat split; try assumption; try congruence; try lia.
  - unfold shares_at. simpl.
    match goal with H : shares_stores w !! a = Some _ |- _ => rewrite H end.
    repeat (rewrite lookup_insert_eq; simpl).
    f_equal. apply shares_default.
  - intros a' id' Hne. unfold market_at. simpl.
    destruct (decide (a' = a)) as [->|Ha].
    + rewrite lookup_insert_eq. simpl.
      match goal with H : market_stores w !! a = Some _ |- _ => rewrite H end. simpl.
      apply lookup_insert_ne. congruence.
    + rewrite lookup_insert_ne by congruence. reflexivity.
Qed.

(** X26, the counterpart of C3 on the Move module: from the creation of a
    market on, after every
    finite sequence of [bet] transactions that did not abort, the market is
    Active and the coin it holds is the sum of its three outcome totals. *)
Lemma move_bet_sequence_pool_balanced (w0 w1 w : world) (a id p1 p2 : Z) :
  create_market a id p1 p2 w0 = Ok w1 ->
  bets w1 w ->
  exists m, market_at w a id = Some m /\ status m = STATUS_ACTIVE /\ pool_balanced m.
Proof.
  intros Hcreate Hbets.
  induction Hbets as [w1 | w1 w2 w3 user a' id' outcome amount _ IH Hbet].
  - unfold create_market in Hcreate. ok_inv Hcreate. subst w1.
    eexists. split;
      [unfold market_at; simpl; rewrite lookup_insert_eq; simpl; apply lookup_insert_eq|].
    split; reflexivity.
  - destruct (IH Hcreate) as (m & Hm & Hst & Hpb).
    destruct (move_bet_effect _ _ _ _ _ _ _ Hbet)
      as (m0 & m' & Hm0 & Hm' & Hv & _ & _ & Hst' & Hp1 & Hp2 & Hd & Hpool & _ & Hoth).
    destruct (decide ((a, id) = (a', id'))) as [[= <- <-]|Hne].
    + assert (m0 = m) by congruence. subst m0.
      exists m'. split; [exact Hm'|]. split; [exact Hst'|].
      unfold pool_balanced in *. rewrite Hp1, Hp2, Hd, Hpool, Hpb.
      destruct (move_valid_outcome_cases _ Hv) as [-> | [-> | ->]]; simpl; lia.
    + exists m. rewrite (Hoth a id Hne). repeat split; assumption.
Qed.

(** Betting on the Move module: from the creation of a market on, every
    sequence of bets that did not abort keeps the market Active and the
    coin it holds equal to the sum of its totals, and each further bet that
    does not abort adds its amount to the total of its outcome, to the coin
    and to the caller's share. *)
Lemma move_bets_keep_pool_balanced (w0 w1 w : world) (a id p1 p2 : Z) :
  create_market a id p1 p2 w0 = Ok w1 ->
  bets w1 w ->
  exists m,
    market_at w a id = Some m
    /\ status m = STATUS_ACTIVE
    /\ pool_balanced m
    /\ forall user outcome amount w',
         bet user a id outcome amount w = Ok w' ->
         exists m',
           market_at w' a id = Some m'
           /\ player1_shares m' =
                player1_shares m + (if decide (outcome = OUTCOME_PLAYER1) then amount else 0)
           /\ player2_shares m' =
                player2_shares m + (if decide (outcome = OUTCOME_PLAYER2) then amount else 0)
           /\ draw_shares m' =
                draw_shares m + (if decide (outcome = OUTCOME_DRAW) then amount else 0)
           /\ (outcome = OUTCOME_PLAYER1 \/ outcome = OUTCOME_PLAYER2
               \/ outcome = OUTCOME_DRAW)
           /\ 0 < amount
           /\ pool m' = pool m + amount
           /\ shares_at w' a id outcome user = shares_at w a id outcome user + amount
           /\ status m' = STATUS_ACTIVE
           /\ pool_balanced m'.
Proof.
  intros Hcreate Hbets.
  assert (Hinv : exists m, market_at w a id = Some m /\ status m = STATUS_ACTIVE
                           /\ pool_balanced m).
  { induction Hbets as [w1 | w1 w2 w3 user a' id' outcome amount _ IH Hbet].
    - unfold create_market in Hcreate. ok_inv Hcreate. subst w1.
      eexists. split;
        [unfold market_at; simpl; rewrite lookup_insert_eq; simpl; apply lookup_insert_eq|].
      split; reflexivity.
    - destruct (IH Hcreate) as (m & Hm & Hst & Hpb).
      destruct (move_bet_effect _ _ _ _ _ _ _ Hbet)
        as (m0 & m' & Hm0 & Hm' & Hv & _ & _ & Hst' & Hp1 & Hp2 & Hd & Hpool & _ & Hoth).
      destruct (decide ((a, id) = (a', id'))) as [[= <- <-]|Hne].
      + assert (m0 = m) by congruence. subst m0.
        exists m'. split; [exact Hm'|]. split; [exact Hst'|].
        unfold pool_balanced in *. rewrite Hp1, Hp2, Hd, Hpool, Hpb.
        destruct (move_valid_outcome_cases _ Hv) as [-> | [-> | ->]]; simpl; lia.
      + exists m. rewrite (Hoth a id Hne). repeat split; assumption. }
  destruct Hinv as (m & Hm & Hst & Hpb).
  exists m. split; [exact Hm|]. split; [exact Hst|]. split; [exact Hpb|].
  intros user outcome amount w' Hbet.
  destruct (move_bet_effect _ _ _ _ _ _ _ Hbet)
    as (m0 & m' & Hm0 & Hm' & Hv & Hpos & _ & Hst' & Hp1 & Hp2 & Hd & Hpool & Hsh & _).
  assert (m0 = m) by congruence. subst m0.
  exists m'. split; [exact Hm'|]. split; [exact Hp1|]. split; [exact Hp2|].
  split; [exact Hd|]. split; [apply move_valid_outcome_cases; exact Hv|].
  split; [exact Hpos|]. split; [exact Hpool|]. split; [exact Hsh|].
  split; [exact Hst'|].
  unfold pool_balanced in *. rewrite Hp1, Hp2, Hd, Hpool, Hpb.
  destruct (move_valid_outcome_cases _ Hv) as [-> | [-> | ->]]; simpl; lia.
Qed.

(** *** Claiming *)

(** X25, the counterpart of C1 on the Move module: on a Resolved market
    with a winning outcome, a user who has not claimed and holds a positive
    share of it is paid [floor (share * original_pool_size / total)] out of
    the coin of the market, provided the product fits in a [u64] and the
    coin covers the reward; the claimed flag is set, the share reads 0, and
    a second claim aborts with [EALREADY_CLAIMED]. *)
Lemma claim_rewards_spec (w : world) (user a id : Z)
    (ms : gmap Z Market) (m : Market)
    (cs : gmap Z (gmap Z bool)) (claimed : gmap Z bool)
    (ss : gmap Z (gmap Z (gmap Z Z))) (ot : gmap Z (gmap Z Z)) (us : gmap Z Z) (u : Z) :
  market_stores w !! a = Some ms -> ms !! id = Some m ->
  claim_stores w !! a = Some cs -> cs !! id = Some claimed ->
  shares_stores w !! a = Some ss -> ss !! id = Some ot ->
  ot !! winning_outcome m = Some us -> us !! user = Some u ->
  status m = STATUS_RESOLVED ->
  winning_outcome m <> 0 ->
  default false (claimed !! user) = false ->
  let T := outcome_shares m (winning_outcome m) in
  let reward := u * original_pool_size m / T in
  0 < u -> 0 < T ->
  u * original_pool_size m <= MAX_U64 ->
  reward <= pool m ->
  exists w', claim_rewards user a id w = Ok w'
    /\ coin.balance (coins w') user = coin.balance (coins w) user + reward
    /\ market_at w' a id = Some (set_pool m (pool m - reward))
    /\ has_claimed a id user w' = Ok true
    /\ get_user_shares a id (winning_outcome m) user w' = Ok 0
    /\ claim_rewards user a id w' = Err (Abort EALREADY_CLAIMED).
Proof.
  intros Hms Hm Hcs Hc Hss Hot Hus Hu Hst Hwo Hcl T reward Hpos HT Hfit Hpool.
  eexists. split; [|split; [|split; [|split; [|split]]]].
  - unfold claim_rewards, borrow_global, table_borrow.
    rewrite Hms. simpl. rewrite Hm, Hst, Z.eqb_refl.
    destruct (Z.eqb_spec (winning_outcome m) 0); [contradiction|]. simpl.
    rewrite Hcs. simpl. rewrite Hc. simpl. rewrite Hcl. simpl.
    rewrite Hss. simpl. rewrite Hot, Hus, Hu.
    destruct (Z.gtb_spec u 0); [|lia]. fold T.
    destruct (Z.gtb_spec T 0); [|lia].
    rewrite mul_u64_ok by assumption. simpl. fold reward.
    destruct (Z.leb_spec reward (pool m)); [|lia]. reflexivity.
  - simpl. unfold coin.deposit. rewrite balance_insert, decide_True by reflexivity.
    reflexivity.
  - unfold market_at. simpl. rewrite lookup_insert_eq. simpl. apply lookup_insert_eq.
  - unfold has_claimed, borrow_global. simpl. rewrite lookup_insert_eq. simpl.
    rewrite lookup_insert_eq, lookup_insert_eq. reflexivity.
  - unfold get_user_shares, borrow_global. simpl. rewrite lookup_insert_eq. simpl.
    rewrite lookup_insert_eq, lookup_insert_eq, lookup_delete_eq. reflexivity.
  - unfold claim_rewards, borrow_global, table_borrow. simpl.
    rewrite lookup_insert_eq. simpl. rewrite lookup_insert_eq. simpl.
    rewrite Hst, Z.eqb_refl.
    destruct (Z.eqb_spec (winning_outcome m) 0); [contradiction|]. simpl.
    rewrite lookup_insert_eq. simpl. rewrite lookup_insert_eq. simpl.
    rewrite lookup_insert_eq. reflexivity.
Qed.

(** The same on the Move module: a lone stake of [10 ^ 10] units on
    the winning outcome cannot be claimed, since [10 ^ 10 * 10 ^ 10] does not
    fit in a [u64]; the projection of that reward aborts for the same
    reason. *)
Lemma claim_rewards_overflow_100_coins :
  get_market_stats 10 1 resolved_100_coins
    = Ok (STATUS_RESOLVED, OUTCOME_PLAYER1, 10 ^ 10, 10 ^ 10, 0, 0)
  /\ get_user_shares 10 1 OUTCOME_PLAYER1 21 resolved_100_coins = Ok (10 ^ 10)
  /\ has_claimed 10 1 21 resolved_100_coins = Ok false
  /\ claim_rewards 21 10 1 resolved_100_coins = Err ARITHMETIC_ERROR
  /\ get_potential_reward 10 1 OUTCOME_PLAYER1 21 resolved_100_coins = Err ARITHMETIC_ERROR.
Proof. repeat split; vm_compute; reflexivity. Qed.

(** *** Read-only queries *)

(** X27, the counterpart of C8 on the Move module: at an address where
    [initialize] has published
    the stores, the existence query, the shares and the claimed flag read
    false or zero for an absent market and the projected reward is 0, while
    [get_market_stats] and [get_market_admin] abort with
    [EMARKET_NOT_FOUND]; at an address without stores every query aborts. *)
Lemma move_read_only_queries (w : world) (a id outcome user : Z) :
  (forall ms ss cs,
     market_stores w !! a = Some ms -> shares_stores w !! a = Some ss ->
     claim_stores w !! a = Some cs ->
     ms !! id = None -> ss !! id = None -> cs !! id = None ->
     market_exists a id w = Ok false
     /\ get_user_shares a id outcome user w = Ok 0
     /\ get_user_all_shares a id user w = Ok (0, 0, 0)
     /\ has_claimed a id user w = Ok false
     /\ get_potential_reward a id outcome user w = Ok 0
     /\ get_market_stats a id w = Err (Abort EMARKET_NOT_FOUND)
     /\ get_market_admin a id w = Err (Abort EMARKET_NOT_FOUND))
  /\ (market_stores w !! a = None -> shares_stores w !! a = None ->
      claim_stores w !! a = None ->
      market_exists a id w = Err MISSING_DATA
      /\ get_user_shares a id outcome user w = Err MISSING_DATA
      /\ get_user_all_shares a id user w = Err MISSING_DATA
      /\ has_claimed a id user w = Err MISSING_DATA
      /\ get_potential_reward a id outcome user w = Err MISSING_DATA
      /\ get_market_stats a id w = Err MISSING_DATA
      /\ get_market_admin a id w = Err MISSING_DATA).
Proof.
  split.
  - intros ms ss cs Hms Hss Hcs Hm Hs Hc.
    unfold market_exists, get_user_all_shares, get_user_shares, has_claimed,
      get_potential_reward, get_market_stats, get_market_admin, borrow_global.
    rewrite Hms, Hss, Hcs. simpl. rewrite Hm, Hs, Hc. simpl.
    repeat split; reflexivity.
  - intros Hms Hss Hcs.
    unfold market_exists, get_user_all_shares, get_user_shares, has_claimed,
      get_potential_reward, get_market_stats, get_market_admin, borrow_global.
    rewrite Hms, Hss, Hcs. simpl. repeat split; reflexivity.
Qed.

End MoveMarketProperties.

(** * The life of an escrow *)

Section EscrowLifecycle.
Import aptos escrow.

(** The world a deposit writes once its checks have passed. *)
Lemma deposit_ok (w : world) (sender a mid : Z) (store : gmap Z Escrow) (e : Escrow) :
  stores w !! a = Some store -> store !! mid = Some e ->
  (sender = player1 e /\ deposited1 e = false)
  \/ (sender <> player1 e /\ sender = player2 e /\ deposited2 e = false) ->
  amount e <= coin.balance (coins w) sender ->
  total e + amount e <= MAX_U64 ->
  exists c,
    deposit sender a mid w =
      Ok {| stores :=
              <[a := <[mid := if decide (sender = player1 e)
                              then set_deposited1 e (total e + amount e)
                              else set_deposited2 e (total e + amount e)]> store]>
                (stores w);
            coins := c |}
    /\ forall x, coin.balance c x =
         coin.balance (coins w) x
         + (if decide (x = a) then amount e else 0)
         - (if decide (x = sender) then amount e else 0).
Proof.
  intros Hs Hm Hslot Hbal Hfit.
  destruct (transfer_ok (coins w) sender a (amount e) Hbal) as (c & Hc & Hcb).
  assert (Hadd : add_u64 (total e) (amount e) = Ok (total e + amount e)).
  { unfold add_u64. destruct (Z.leb_spec (total e + amount e) MAX_U64); [reflexivity | lia]. }
  exists c. split; [|exact Hcb].
  unfold deposit, borrow_global. rewrite Hs. simpl. rewrite Hm.
  destruct Hslot as [[-> Hd] | (Hne & -> & Hd)].
  - rewrite Z.eqb_refl, Hd. simpl. rewrite Hc. simpl. rewrite Hadd.
    rewrite decide_True by reflexivity. reflexivity.
  - destruct (Z.eqb_spec (player2 e) (player1 e)); [contradiction|].
    rewrite Z.eqb_refl, Hd. simpl. rewrite Hc. simpl. rewrite Hadd.
    rewrite decide_False by assumption. reflexivity.
Qed.

(** X1: a deposit by a player whose slot is still empty, who holds the
    stake, succeeds (the new total fitting in a [u64]): the stake moves from
    the player's account to the administrator's, the flag of that slot and of
    no other goes up, the total grows by the stake, and no other record
    changes. A sender who is both players fills the first slot. *)
Theorem deposit_player_spec (w : world) (sender a mid : Z) (e : Escrow) :
  escrow_at w a mid = Some e ->
  (sender = player1 e /\ deposited1 e = false)
  \/ (sender <> player1 e /\ sender = player2 e /\ deposited2 e = false) ->
  amount e <= coin.balance (coins w) sender ->
  total e + amount e <= MAX_U64 ->
  exists w', deposit sender a mid w = Ok w'
    /\ escrow_at w' a mid =
         Some (if decide (sender = player1 e)
               then set_deposited1 e (total e + amount e)
               else set_deposited2 e (total e + amount e))
    /\ (forall x, coin.balance (coins w') x =
          coin.balance (coins w) x
          + (if decide (x = a) then amount e else 0)
          - (if decide (x = sender) then amount e else 0))
    /\ (forall a' mid', (a', mid') <> (a, mid) ->
          escrow_at w' a' mid' = escrow_at w a' mid').
Proof.
  intros He Hslot Hbal Hfit.
  apply escrow_at_Some in He as (store & Hs & Hm).
  destruct (deposit_ok w sender a mid store e Hs Hm Hslot Hbal Hfit) as (c & Hok & Hcb).
  eexists. split; [exact Hok|]. split; [|split].
  - rewrite escrow_at_update, decide_True by reflexivity. apply lookup_insert_eq.
  - exact Hcb.
  - intros a' mid' Hne. rewrite escrow_at_update.
    destruct (decide (a' = a)) as [->|]; [|reflexivity].
    rewrite lookup_insert_ne by congruence. symmetry. apply escrow_at_lookup. exact Hs.
Qed.

Lemma deposit_player_spec_witness :
  let w := run [Initialize 10; CreateEscrow 10 1 11 12 10] genesis in
  exists w', deposit 12 10 1 w = Ok w'
    /\ coin.balance (coins w') 12 = 90 /\ coin.balance (coins w') 10 = 10.
Proof.
  intros w.
  destruct (deposit_player_spec w 12 10 1
              {| admin := 10; player1 := 11; player2 := 12; amount := 10; total := 0;
                 deposited1 := false; deposited2 := false |})
    as (w' & Hok & _ & Hbal & _).
  - vm_compute. reflexivity.
  - right. simpl. split; [lia|]. split; reflexivity.
  - vm_compute. discriminate.
  - vm_compute. discriminate.
  - exists w'. split; [exact Hok|]. rewrite !Hbal. split; vm_compute; reflexivity.
Defined.

(** X2: a player cannot deposit twice: right after a deposit of a player
    of the match has succeeded, a second deposit by the same account for the
    same match aborts with [EALREADY_DEPOSITED]. *)
Theorem deposit_twice_fails (w w' : world) (sender a mid : Z) (e : Escrow) :
  escrow_at w a mid = Some e ->
  sender = player1 e \/ sender = player2 e ->
  deposit sender a mid w = Ok w' ->
  deposit sender a mid w' = Err (Abort EALREADY_DEPOSITED).
Proof.
  intros He Hplayer Hdep.
  apply escrow_at_Some in He as (store & Hs & Hm).
  unfold deposit, borrow_global in Hdep. rewrite Hs in Hdep. simpl in Hdep.
  rewrite Hm in Hdep.
  destruct (Z.eqb_spec sender (player1 e)) as [H1|H1].
  - ok_inv Hdep. subst w'. unfold deposit, borrow_global. simpl.
    rewrite lookup_insert_eq. simpl. rewrite lookup_insert_eq. simpl.
    destruct (Z.eqb_spec sender (player1 e)); [reflexivity | contradiction].
  - destruct (Z.eqb_spec sender (player2 e)) as [H2|H2]; [|destruct Hplayer; contradiction].
    ok_inv Hdep. subst w'. unfold deposit, borrow_global. simpl.
    rewrite lookup_insert_eq. simpl. rewrite lookup_insert_eq. simpl.
    destruct (Z.eqb_spec sender (player1 e)); [contradiction|].
    destruct (Z.eqb_spec sender (player2 e)); [reflexivity | contradiction].
Qed.

Lemma deposit_twice_fails_witness :
  let w := run [Initialize 10; CreateEscrow 10 1 11 12 10] genesis in
  deposit 11 10 1 (step w (Deposit 11 10 1)) = Err (Abort EALREADY_DEPOSITED).
Proof.
  intros w.
  apply (deposit_twice_fails w (step w (Deposit 11 10 1)) 11 10 1
           {| admin := 10; player1 := 11; player2 := 12; amount := 10; total := 0;
              deposited1 := false; deposited2 := false |}).
  - vm_compute. reflexivity.
  - left. reflexivity.
  - vm_compute. reflexivity.
Defined.

(** X3: the [ENOT_ADMIN] check of the two resolve functions can never fail.
    The table is looked up at the caller's own address and every record in
    it has that address as administrator, so in every world reached from
    one without stores no resolve aborts with [ENOT_ADMIN]; a caller that
    never called [initialize] is stopped by the missing resource instead. *)
Theorem resolve_never_not_admin
    (calls : list call) (c0 : gmap Z Z) (caller mid winner : Z) :
  let w := run calls {| stores := ∅; coins := c0 |} in
  resolve_win caller mid winner w <> Err (Abort ENOT_ADMIN)
  /\ resolve_draw caller mid w <> Err (Abort ENOT_ADMIN)
  /\ (stores w !! caller = None ->
      resolve_win caller mid winner w = Err MISSING_DATA
      /\ resolve_draw caller mid w = Err MISSING_DATA).
Proof.
  intros w. pose proof (reachable_consistent calls c0) as Hcons. fold w in Hcons.
  assert (Hadm : forall store e, stores w !! caller = Some store -> store !! mid = Some e ->
                   (caller =? admin e) = true).
  { intros store e Hs Hm. destruct (Hcons caller mid e) as [Ha _].
    - unfold escrow_at. rewrite Hs. exact Hm.
    - rewrite Ha. apply Z.eqb_refl. }
  split; [|split].
  - unfold resolve_win, borrow_global.
    destruct (stores w !! caller) as [store|] eqn:Hs; simpl; [|discriminate].
    destruct (store !! mid) as [e|] eqn:Hm; [|discriminate].
    rewrite (Hadm store e eq_refl Hm).
    unfold mul_u64, sub_u64, coin.transfer, coin.withdraw.
    repeat (match goal with |- context [if ?b then _ else _] => destruct b end; simpl);
      intros [=].
  - unfold resolve_draw, borrow_global.
    destruct (stores w !! caller) as [store|] eqn:Hs; simpl; [|discriminate].
    destruct (store !! mid) as [e|] eqn:Hm; [|discriminate].
    rewrite (Hadm store e eq_refl Hm).
    unfold mul_u64, sub_u64, coin.transfer, coin.withdraw.
    repeat (match goal with |- context [if ?b then _ else _] => destruct b end; simpl);
      intros [=].
  - intros Hs. unfold resolve_win, resolve_draw, borrow_global. rewrite Hs.
    split; reflexivity.
Qed.

(** X4: in every world reached from one without stores, the total of a
    record is its stake times the number of deposit flags that are up: 0,
    one stake, or two stakes; and its administrator is the address of the
    table that holds it. *)
Theorem escrow_total_tracks_flags
    (calls : list call) (c0 : gmap Z Z) (a mid : Z) (e : Escrow) :
  escrow_at (run calls {| stores := ∅; coins := c0 |}) a mid = Some e ->
  admin e = a
  /\ total e = (if deposited1 e then amount e else 0)
               + (if deposited2 e then amount e else 0).
Proof.
  intros He. destruct (reachable_consistent calls c0 a mid e He) as [Ha Ht].
  split; [exact Ha|]. rewrite Ht. destruct (deposited1 e), (deposited2 e); simpl; lia.
Qed.

Lemma escrow_total_tracks_flags_witness :
  exists e,
    escrow_at (run [Initialize 10; CreateEscrow 10 1 11 12 10; Deposit 12 10 1]
                 {| stores := ∅; coins := coins genesis |}) 10 1 = Some e
    /\ total e = 10.
Proof.
  eexists. split; [vm_compute; reflexivity|].
  destruct (escrow_total_tracks_flags
              [Initialize 10; CreateEscrow 10 1 11 12 10; Deposit 12 10 1]
              (coins genesis) 10 1
              {| admin := 10; player1 := 11; player2 := 12; amount := 10; total := 10;
                 deposited1 := false; deposited2 := true |}) as [_ Ht].
  - vm_compute. reflexivity.
  - exact Ht.
Defined.

(** X5: resolution ends the record and frees its key. After a
    [resolve_win] or a [resolve_draw] has succeeded, the match can neither be
    resolved again nor take a deposit (both abort with
    [EESCROW_NOT_FOUND]), and [create_escrow] accepts the same match id
    again, with a fresh record without deposits. *)
Theorem resolved_key_is_free (w w' : world) (a mid winner : Z) :
  resolve_win a mid winner w = Ok w' \/ resolve_draw a mid w = Ok w' ->
  escrow_at w' a mid = None
  /\ (forall x, resolve_win a mid x w' = Err (Abort EESCROW_NOT_FOUND))
  /\ resolve_draw a mid w' = Err (Abort EESCROW_NOT_FOUND)
  /\ (forall p, deposit p a mid w' = Err (Abort EESCROW_NOT_FOUND))
  /\ (forall p1 p2 amt, exists w'',
        create_escrow a mid p1 p2 amt w' = Ok w''
        /\ escrow_at w'' a mid =
             Some {| admin := a; player1 := p1; player2 := p2; amount := amt;
                     total := 0; deposited1 := false; deposited2 := false |}).
Proof.
  intros Hres.
  assert (Hshape : exists store c,
            w' = {| stores := <[a := delete mid store]> (stores w); coins := c |}).
  { destruct Hres as [H|H]; [unfold resolve_win in H | unfold resolve_draw in H];
      ok_inv H; subst w'; eauto. }
  destruct Hshape as (store & c & ->).
  assert (Hs : stores {| stores := <[a := delete mid store]> (stores w); coins := c |} !! a
               = Some (delete mid store)) by (simpl; apply lookup_insert_eq).
  assert (Hm : delete mid store !! mid = None) by apply lookup_delete_eq.
  split; [apply escrow_at_removed|]. split; [|split; [|split]].
  - intros x. unfold resolve_win, borrow_global. rewrite Hs. simpl. rewrite Hm. reflexivity.
  - unfold resolve_draw, borrow_global. rewrite Hs. simpl. rewrite Hm. reflexivity.
  - intros p. unfold deposit, borrow_global. rewrite Hs. simpl. rewrite Hm. reflexivity.
  - intros p1 p2 amt. eexists. split.
    + unfold create_escrow, borrow_global. rewrite Hs. simpl. rewrite Hm. reflexivity.
    + unfold publish. rewrite escrow_at_update, decide_True by reflexivity.
      apply lookup_insert_eq.
Qed.

Lemma resolved_key_is_free_witness :
  let w' := step (funded 10) (ResolveDraw 10 1) in
  resolve_draw 10 1 w' = Err (Abort EESCROW_NOT_FOUND)
  /\ is_ok (create_escrow 10 1 11 12 10 w') = true.
Proof.
  intros w'.
  destruct (resolved_key_is_free (funded 10) w' 10 1 0) as (_ & _ & Hd & _ & Hc).
  - right. vm_compute. reflexivity.
  - split; [exact Hd|]. destruct (Hc 11 12 10) as (w'' & Hok & _).
    rewrite Hok. reflexivity.
Defined.

(** X6: [initialize] never aborts and never loses anything: it publishes
    an empty table at an address that had none and otherwise changes
    nothing, so every record and every balance is as before, the caller's
    table exists afterwards, and a second [initialize] is a no-op. *)
Theorem initialize_preserves (w : world) (a : Z) :
  exists w', initialize a w = Ok w'
    /\ is_Some (stores w' !! a)
    /\ (forall a' mid, escrow_at w' a' mid = escrow_at w a' mid)
    /\ coins w' = coins w
    /\ initialize a w' = Ok w'.
Proof.
  unfold initialize. destruct (stores w !! a) as [store|] eqn:Hs.
  - exists w. rewrite Hs. repeat split; eauto.
  - eexists. split; [reflexivity|]. unfold publish. simpl.
    rewrite lookup_insert_eq. split; [eauto|]. split; [|split; reflexivity].
    intros a' mid. unfold escrow_at. simpl. destruct (decide (a' = a)) as [->|Hne].
    + rewrite lookup_insert_eq, Hs. simpl. apply lookup_empty.
    + rewrite lookup_insert_ne by congruence. reflexivity.
Qed.

(** X7: the records are independent: a transaction, whether it succeeds
    or aborts, leaves alone every record it is not addressed to, that is
    every record but the one of its match id in its administrator's
    table. *)
Theorem step_frame (w : world) (c : call) (a mid : Z) :
  touches c a mid = false ->
  escrow_at (step w c) a mid = escrow_at w a mid.
Proof.
  intros Ht. unfold step. destruct (exec c w) as [w'|err] eqn:Hex; [|reflexivity].
  assert (Hne : forall a' mid', (a' =? a) && (mid' =? mid) = false -> (a, mid) <> (a', mid')).
  { intros a' mid' Hb [= -> ->]. rewrite !Z.eqb_refl in Hb. discriminate. }
  destruct c as [a'|a' mid' q1 q2 amt|sender a' mid'|a' mid' winner|a' mid'|from to amt];
    simpl in Hex, Ht.
  - unfold initialize in Hex. ok_inv Hex; subst w'; [reflexivity|].
    unfold publish. rewrite escrow_at_update.
    destruct (decide (a = a')) as [->|]; [|reflexivity].
    unfold escrow_at. match goal with H : stores w !! a' = None |- _ => rewrite H end.
    apply lookup_empty.
  - unfold create_escrow in Hex. ok_inv Hex. subst w'.
    match goal with H : borrow_global _ _ = Ok _ |- _ => apply borrow_global_Ok in H end.
    unfold publish. rewrite escrow_at_update.
    destruct (decide (a = a')) as [->|]; [|reflexivity].
    rewrite lookup_insert_ne by (intros ->; eapply Hne; eauto).
    symmetry. apply escrow_at_lookup. assumption.
  - unfold deposit in Hex. ok_inv Hex; subst w'; try reflexivity.
    all: match goal with H : borrow_global _ _ = Ok _ |- _ => apply borrow_global_Ok in H end.
    all: rewrite escrow_at_update.
    all: destruct (decide (a = a')) as [->|]; [|reflexivity].
    all: rewrite lookup_insert_ne by (intros ->; eapply Hne; eauto).
    all: symmetry; apply escrow_at_lookup; assumption.
  - unfold resolve_win in Hex. ok_inv Hex; subst w'.
    match goal with H : borrow_global _ _ = Ok _ |- _ => apply borrow_global_Ok in H end.
    rewrite escrow_at_update.
    destruct (decide (a = a')) as [->|]; [|reflexivity].
    rewrite lookup_delete_ne by (intros ->; eapply Hne; eauto).
    symmetry. apply escrow_at_lookup. assumption.
  - unfold resolve_draw in Hex. ok_inv Hex; subst w'.
    match goal with H : borrow_global _ _ = Ok _ |- _ => apply borrow_global_Ok in H end.
    rewrite escrow_at_update.
    destruct (decide (a = a')) as [->|]; [|reflexivity].
    rewrite lookup_delete_ne by (intros ->; eapply Hne; eauto).
    symmetry. apply escrow_at_lookup. assumption.
  - ok_inv Hex. subst w'. reflexivity.
Qed.

Lemma step_frame_witness :
  escrow_at (step (funded 10) (CreateEscrow 10 2 11 12 5)) 10 1 = escrow_at (funded 10) 10 1.
Proof. apply step_frame. reflexivity. Defined.

(** *** A whole match *)

Lemma resolve_win_ok (w : world) (a mid winner : Z) (store : gmap Z Escrow) (e : Escrow) :
  stores w !! a = Some store -> store !! mid = Some e ->
  admin e = a -> deposited1 e = true -> deposited2 e = true ->
  0 <= total e -> total e * 5 <= MAX_U64 ->
  payout_of (total e) <= coin.balance (coins w) a ->
  exists c,
    resolve_win a mid winner w
    = Ok {| stores := <[a := delete mid store]> (stores w); coins := c |}
    /\ forall x, coin.balance c x =
         coin.balance (coins w) x
         + (if decide (x = winner) then payout_of (total e) else 0)
         - (if decide (x = a) then payout_of (total e) else 0).
Proof.
  intros Hs Hm Hadm H1 H2 Hpos Hmul Hbal.
  pose proof (fee_le_total (total e) Hpos) as Hfee.
  destruct (transfer_ok (coins w) a winner (payout_of (total e)) Hbal) as (c & Hc & Hcb).
  exists c. split; [|exact Hcb].
  unfold resolve_win, borrow_global. rewrite Hs. simpl. rewrite Hm.
  rewrite Hadm, Z.eqb_refl, H1, H2. simpl.
  rewrite mul_u64_ok by assumption. simpl.
  rewrite sub_u64_ok by lia. simpl.
  unfold payout_of, fee_of in Hc. rewrite Hc. reflexivity.
Qed.

(** X8: a whole match, from creation to payment. At an address with a
    store, for a free match id, two distinct players who each hold the
    stake, and any winner, the sequence [create_escrow], deposit of player
    1, deposit of player 2, [resolve_win] runs without an abort (the stake
    being non-negative and ten stakes fitting in a [u64]). At the end the
    record is gone, each player has paid one stake, the winner has received
    the total minus the fee, and the fee is what the administrator's account
    has gained. *)
Theorem escrow_win_end_to_end (w : world) (a mid p1 p2 winner amt : Z)
    (store : gmap Z Escrow) :
  stores w !! a = Some store ->
  store !! mid = None ->
  p1 <> p2 ->
  0 <= amt ->
  amt * 10 <= MAX_U64 ->
  amt <= coin.balance (coins w) p1 ->
  amt <= coin.balance (coins w) p2 ->
  0 <= coin.balance (coins w) a ->
  exists w1 w2 w3 w4,
    create_escrow a mid p1 p2 amt w = Ok w1
    /\ deposit p1 a mid w1 = Ok w2
    /\ deposit p2 a mid w2 = Ok w3
    /\ resolve_win a mid winner w3 = Ok w4
    /\ escrow_at w4 a mid = None
    /\ forall x, coin.balance (coins w4) x =
         coin.balance (coins w) x
         - (if decide (x = p1) then amt else 0)
         - (if decide (x = p2) then amt else 0)
         + (if decide (x = winner) then payout_of (2 * amt) else 0)
         + (if decide (x = a) then fee_of (2 * amt) else 0).
Proof.
  intros Hs Hfree Hne Hamt Hfit Hb1 Hb2 Hba.
  set (e0 := {| admin := a; player1 := p1; player2 := p2; amount := amt;
                total := 0; deposited1 := false; deposited2 := false |}).
  set (w1 := publish w a (<[mid := e0]> store)).
  assert (Hc : create_escrow a mid p1 p2 amt w = Ok w1).
  { unfold create_escrow, borrow_global. rewrite Hs. simpl. rewrite Hfree. reflexivity. }
  assert (Hs1 : stores w1 !! a = Some (<[mid := e0]> store))
    by (unfold w1, publish; simpl; apply lookup_insert_eq).
  destruct (deposit_ok w1 p1 a mid _ e0 Hs1 (lookup_insert_eq _ _ _)) as (c2 & Hd1 & Hcb2).
  { left. split; reflexivity. }
  { exact Hb1. }
  { simpl. unfold MAX_U64 in *. lia. }
  rewrite decide_True in Hd1 by reflexivity.
  match type of Hd1 with _ = Ok ?st => set (w2 := st) in * end.
  set (e1 := set_deposited1 e0 (total e0 + amount e0)) in *.
  assert (Hs2 : stores w2 !! a = Some (<[mid := e1]> (<[mid := e0]> store)))
    by (unfold w2; simpl; apply lookup_insert_eq).
  destruct (deposit_ok w2 p2 a mid _ e1 Hs2 (lookup_insert_eq _ _ _)) as (c3 & Hd2 & Hcb3).
  { right. simpl. repeat split; congruence. }
  { simpl. rewrite Hcb2. simpl.
    assert (p2 = a -> coin.balance (coins w) p2 = coin.balance (coins w) a) by congruence.
    repeat case_decide; lia. }
  { simpl. unfold MAX_U64 in *. lia. }
  rewrite decide_False in Hd2 by (simpl; congruence).
  match type of Hd2 with _ = Ok ?st => set (w3 := st) in * end.
  set (e2 := set_deposited2 e1 (total e1 + amount e1)) in *.
  assert (Hs3 : stores w3 !! a = Some (<[mid := e2]> (<[mid := e1]> (<[mid := e0]> store))))
    by (unfold w3; simpl; apply lookup_insert_eq).
  assert (Htot : total e2 = 2 * amt) by (simpl; lia).
  pose proof (fee_le_total (2 * amt) ltac:(lia)) as Hfee.
  destruct (resolve_win_ok w3 a mid winner _ e2 Hs3 (lookup_insert_eq _ _ _))
    as (c4 & Hr & Hcb4); try reflexivity.
  { rewrite Htot. lia. }
  { rewrite Htot. unfold MAX_U64 in *. lia. }
  { rewrite Htot. unfold payout_of, fee_of. simpl. rewrite Hcb3. simpl. rewrite Hcb2. simpl.
    assert (a = p1 -> coin.balance (coins w) a = coin.balance (coins w) p1) by congruence.
    assert (a = p2 -> coin.balance (coins w) a = coin.balance (coins w) p2) by congruence.
    repeat case_decide; lia. }
  exists w1, w2, w3. eexists. split; [exact Hc|]. split; [exact Hd1|].
  split; [exact Hd2|]. split; [exact Hr|]. split; [apply escrow_at_removed|].
  intros x. simpl. rewrite Hcb4, Htot. simpl. rewrite Hcb3. simpl. rewrite Hcb2. simpl.
  unfold payout_of, fee_of in *. repeat case_decide; lia.
Qed.

Lemma escrow_win_end_to_end_witness :
  let w := step genesis (Initialize 10) in
  let w4 := run [CreateEscrow 10 1 11 12 10; Deposit 11 10 1; Deposit 12 10 1;
                 ResolveWin 10 1 11] w in
  coin.balance (coins w4) 11 = 109 /\ coin.balance (coins w4) 12 = 90
  /\ coin.balance (coins w4) 10 = 1.
Proof.
  intros w w4.
  destruct (escrow_win_end_to_end w 10 1 11 12 11 10 ∅)
    as (w1 & w2 & w3 & w4' & H1 & H2 & H3 & H4 & _ & Hbal).
  - vm_compute. reflexivity.
  - reflexivity.
  - lia.
  - lia.
  - vm_compute. discriminate.
  - vm_compute. discriminate.
  - vm_compute. discriminate.
  - vm_compute. discriminate.
  - assert (w4 = w4').
    { unfold w4, run, step. simpl. rewrite H1, H2, H3, H4. reflexivity. }
    subst w4'. rewrite !Hbal. repeat split; vm_compute; reflexivity.
Defined.

End EscrowLifecycle.

(** * The life of a market of the Solidity contract *)

Section MarketLifecycle.
Import PredictionMarket.

(** X9: [createMarket] reverts with the message MarketAlreadyExists on a
    market that exists and with Invalid players when a player is the zero
    address; otherwise, for any sender, it stores an Active market of that
    sender with no winning outcome and all totals zero, and leaves the other
    markets, the shares, the claim flags and the token as they were. *)
Theorem createMarket_spec (s : state) (sender id p1 p2 : Z) :
  (admin (market_at s id) <> 0 ->
     createMarket sender id p1 p2 s = Err (Error "MarketAlreadyExists"))
  /\ (admin (market_at s id) = 0 -> p1 = 0 \/ p2 = 0 ->
      createMarket sender id p1 p2 s = Err (Error "Invalid players"))
  /\ (admin (market_at s id) = 0 -> p1 <> 0 -> p2 <> 0 ->
      exists s', createMarket sender id p1 p2 s = Ok s'
        /\ market_at s' id =
             {| admin := sender; matchId := id; player1 := p1; player2 := p2;
                status := STATUS_ACTIVE; winningOutcome := 0;
                pool := 0; originalPoolSize := 0;
                player1Shares := 0; player2Shares := 0; drawShares := 0 |}
        /\ (forall id', id' <> id -> market_at s' id' = market_at s id')
        /\ token s' = token s /\ userShares s' = userShares s
        /\ hasClaimed s' = hasClaimed s).
Proof.
  unfold createMarket. split; [|split].
  - intros H. destruct (Z.eqb_spec (admin (market_at s id)) 0); [contradiction | reflexivity].
  - intros H Hp. rewrite H. simpl.
    destruct Hp as [-> | ->]; simpl; [reflexivity|]. rewrite andb_false_r. reflexivity.
  - intros H H1 H2. rewrite H. simpl.
    destruct (Z.eqb_spec p1 0); [contradiction|].
    destruct (Z.eqb_spec p2 0); [contradiction|]. simpl.
    eexists. split; [reflexivity|]. split; [|split; [|repeat split]].
    + rewrite market_at_insert, decide_True by reflexivity. reflexivity.
    + intros id' Hne. rewrite market_at_insert, decide_False by assumption. reflexivity.
Qed.

(** X10: [resolveMarket] checks, in this order, the outcome
    ([InvalidOutcome]), the existence of the market ([MarketNotFound]), the
    caller ([NotAdmin]) and the status ([MarketAlreadyResolved]). On an
    Active market, its administrator and one of the three outcomes, it
    succeeds whatever was bet, nothing included: the status becomes
    Resolved, the winning outcome is recorded, the snapshot takes the value
    of the pool, and the pool, the totals and everything else stay. *)
Theorem resolveMarket_spec (s : state) (sender id o : Z) :
  let m := market_at s id in
  (valid_outcome o = false -> resolveMarket sender id o s = Err InvalidOutcome)
  /\ (valid_outcome o = true -> admin m = 0 ->
      resolveMarket sender id o s = Err MarketNotFound)
  /\ (valid_outcome o = true -> admin m <> 0 -> sender <> admin m ->
      resolveMarket sender id o s = Err NotAdmin)
  /\ (valid_outcome o = true -> admin m <> 0 -> sender = admin m ->
      status m <> STATUS_ACTIVE ->
      resolveMarket sender id o s = Err MarketAlreadyResolved)
  /\ (valid_outcome o = true -> admin m <> 0 -> sender = admin m ->
      status m = STATUS_ACTIVE ->
      exists s', resolveMarket sender id o s = Ok s'
        /\ market_at s' id = set_resolution m o
        /\ status (market_at s' id) = STATUS_RESOLVED
        /\ winningOutcome (market_at s' id) = o
        /\ originalPoolSize (market_at s' id) = pool m
        /\ pool (market_at s' id) = pool m
        /\ (forall id', id' <> id -> market_at s' id' = market_at s id')
        /\ token s' = token s /\ userShares s' = userShares s
        /\ hasClaimed s' = hasClaimed s).
Proof.
  intros m. unfold resolveMarket. fold m.
  split; [|split; [|split; [|split]]].
  - intros ->. reflexivity.
  - intros -> ->. reflexivity.
  - intros -> Ha Hs. destruct (Z.eqb_spec (admin m) 0); [contradiction|]. simpl.
    destruct (Z.eqb_spec sender (admin m)); [contradiction | reflexivity].
  - intros -> Ha -> Hst. destruct (Z.eqb_spec (admin m) 0); [contradiction|]. simpl.
    rewrite Z.eqb_refl. destruct (Z.eqb_spec (status m) STATUS_ACTIVE);
      [contradiction | reflexivity].
  - intros -> Ha -> Hst. destruct (Z.eqb_spec (admin m) 0); [contradiction|]. simpl.
    rewrite Z.eqb_refl, Hst. simpl.
    eexists. split; [reflexivity|].
    rewrite market_at_insert, decide_True by reflexivity.
    repeat split.
    intros id' Hne. rewrite market_at_insert, decide_False by assumption. reflexivity.
Qed.

(** *** What one call does to one market record *)

Lemma add_shares_shape (m m1 : Market) (o amt : Z) :
  add_shares m o amt = Ok m1 -> exists a b c, m1 = set_totals m a b c.
Proof.
  unfold add_shares. intros H.
  repeat match type of H with
         | (if ?b then _ else _) = Ok _ => destruct b
         end; ok_inv H; subst m1; eauto.
Qed.

Lemma exec_market_at (c : call) (s s' : state) (id : Z) :
  exec c s = Ok s' ->
  let m := market_at s id in
  market_at s' id = m
  \/ (exists sender p1 p2, c = CreateMarket sender id p1 p2 /\ admin m = 0
        /\ status (market_at s' id) = STATUS_ACTIVE)
  \/ (exists sender o amt a b d p, c = Bet sender id o amt
        /\ admin m <> 0 /\ status m = STATUS_ACTIVE
        /\ market_at s' id = set_pool (set_totals m a b d) p)
  \/ (exists o, c = ResolveMarket (admin m) id o
        /\ admin m <> 0 /\ status m = STATUS_ACTIVE /\ valid_outcome o = true
        /\ market_at s' id = set_resolution m o).
Proof.
  intros Hex m.
  destruct c as [sender id' p1 p2|sender id' o amt|sender id' o|sender id']; simpl in Hex.
  - unfold createMarket in Hex. ok_inv Hex. subst s'. rewrite market_at_insert.
    destruct (decide (id = id')) as [<-|]; [|left; reflexivity].
    right; left. exists sender, p1, p2.
    match goal with H : (_ =? 0) = true |- _ => apply Z.eqb_eq in H end.
    repeat split; assumption.
  - unfold bet in Hex. ok_inv Hex. subst s'. rewrite market_at_insert.
    destruct (decide (id = id')) as [<-|]; [|left; reflexivity].
    right; right; left.
    match goal with H : add_shares _ _ _ = Ok _ |- _ =>
      apply add_shares_shape in H as (t1 & t2 & t3 & ->) end.
    repeat match goal with
           | H : (_ =? _) = true |- _ => apply Z.eqb_eq in H
           | H : negb (_ =? _) = true |- _ => apply negb_true_iff, Z.eqb_neq in H
           end.
    exists sender, o, amt, t1, t2, t3. eexists. repeat split; try assumption.
  - unfold resolveMarket in Hex. ok_inv Hex. subst s'. rewrite market_at_insert.
    destruct (decide (id = id')) as [<-|]; [|left; reflexivity].
    right; right; right.
    repeat match goal with
           | H : (_ =? _) = true |- _ => apply Z.eqb_eq in H
           | H : negb (_ =? _) = true |- _ => apply negb_true_iff, Z.eqb_neq in H
           end.
    subst sender. exists o. repeat split; assumption.
  - left. unfold claimRewards in Hex. ok_inv Hex. subst s'. reflexivity.
Qed.

Lemma run_resolved_market (s : state) (id : Z) (calls : list call) :
  admin (market_at s id) <> 0 ->
  status (market_at s id) = STATUS_RESOLVED ->
  market_at (run calls s) id = market_at s id.
Proof.
  revert s. induction calls as [|c calls IH]; intros s Ha Hst; simpl; [reflexivity|].
  assert (Hstep : market_at (step s c) id = market_at s id).
  { unfold step. destruct (exec c s) as [s'|e] eqn:Hex; [|reflexivity].
    destruct (exec_market_at c s s' id Hex)
      as [H | [(? & ? & ? & _ & H0 & _) | [(? & ? & ? & ? & ? & ? & ? & _ & _ & Hact & _)
         | (? & _ & _ & Hact & _)]]].
    - exact H.
    - contradiction.
    - rewrite Hst in Hact. discriminate.
    - rewrite Hst in Hact. discriminate. }
  rewrite IH; rewrite Hstep; auto.
Qed.

(** X11: Resolved is terminal. Once a market is resolved, no call changes
    its record any more: status, winning outcome, snapshot, pool and the
    three totals are the same after any sequence of calls; every bet on it
    and every new resolution by its administrator fails with
    [MarketAlreadyResolved]. *)
Theorem resolved_market_immutable (s : state) (id : Z) (calls : list call) :
  admin (market_at s id) <> 0 ->
  status (market_at s id) = STATUS_RESOLVED ->
  market_at (run calls s) id = market_at s id
  /\ (forall sender o amt, valid_outcome o = true -> amt <> 0 ->
        bet sender id o amt (run calls s) = Err MarketAlreadyResolved)
  /\ (forall o, valid_outcome o = true ->
        resolveMarket (admin (market_at s id)) id o (run calls s)
        = Err MarketAlreadyResolved).
Proof.
  intros Ha Hst. pose proof (run_resolved_market s id calls Ha Hst) as Hsame.
  split; [exact Hsame|]. split.
  - intros sender o amt Hv Hamt. unfold bet. rewrite Hv, Hsame.
    destruct (Z.eqb_spec amt 0); [contradiction|].
    destruct (Z.eqb_spec (admin (market_at s id)) 0); [contradiction|]. simpl.
    rewrite Hst. reflexivity.
  - intros o Hv. unfold resolveMarket. rewrite Hv, Hsame.
    destruct (Z.eqb_spec (admin (market_at s id)) 0); [contradiction|]. simpl.
    rewrite Z.eqb_refl, Hst. reflexivity.
Qed.

Lemma resolved_market_immutable_witness :
  market_at (run [Bet 21 1 OUTCOME_DRAW 5; ClaimRewards 21 1; ResolveMarket 10 1 OUTCOME_DRAW]
               resolved_4500) 1
  = market_at resolved_4500 1.
Proof.
  destruct (resolved_market_immutable resolved_4500 1
              [Bet 21 1 OUTCOME_DRAW 5; ClaimRewards 21 1; ResolveMarket 10 1 OUTCOME_DRAW])
    as [H _].
  - vm_compute. discriminate.
  - vm_compute. reflexivity.
  - exact H.
Defined.

(** X12: the administrator and the players of a market are fixed when it
    is created: after any sequence of calls an existing market has the same
    administrator, match id and players, so it exists for ever and
    [createMarket] on its id keeps reverting. *)
Theorem market_identity_permanent (s : state) (id : Z) (calls : list call) :
  admin (market_at s id) <> 0 ->
  let m := market_at s id in
  let m' := market_at (run calls s) id in
  admin m' = admin m /\ matchId m' = matchId m
  /\ player1 m' = player1 m /\ player2 m' = player2 m
  /\ forall sender p1 p2,
       createMarket sender id p1 p2 (run calls s) = Err (Error "MarketAlreadyExists").
Proof.
  intros Ha m m'.
  assert (Hid : admin m' = admin m /\ matchId m' = matchId m
                /\ player1 m' = player1 m /\ player2 m' = player2 m).
  { subst m m'. revert s Ha. induction calls as [|c calls IH]; intros s Ha; simpl.
    - repeat split.
    - assert (Hstep : admin (market_at (step s c) id) = admin (market_at s id)
                      /\ matchId (market_at (step s c) id) = matchId (market_at s id)
                      /\ player1 (market_at (step s c) id) = player1 (market_at s id)
                      /\ player2 (market_at (step s c) id) = player2 (market_at s id)).
      { unfold step. destruct (exec c s) as [s'|e] eqn:Hex; [|repeat split].
        destruct (exec_market_at c s s' id Hex)
          as [H | [(? & ? & ? & _ & H0 & _) | [(? & ? & ? & ? & ? & ? & ? & _ & _ & _ & H)
             | (? & _ & _ & _ & _ & H)]]].
        - rewrite H. repeat split.
        - contradiction.
        - rewrite H. repeat split.
        - rewrite H. repeat split. }
      destruct Hstep as (H1 & H2 & H3 & H4).
      destruct (IH (step s c)) as (I1 & I2 & I3 & I4); [rewrite H1; exact Ha|].
      repeat split; congruence. }
  destruct Hid as (H1 & H2 & H3 & H4). repeat split; try assumption.
  intros sender p1 p2. unfold createMarket. fold m'. rewrite H1.
  destruct (Z.eqb_spec (admin m) 0); [contradiction | reflexivity].
Qed.

Lemma market_identity_permanent_witness :
  createMarket 99 1 98 97 (run [ClaimRewards 21 1; ClaimRewards 22 1] resolved_4500)
  = Err (Error "MarketAlreadyExists").
Proof.
  destruct (market_identity_permanent resolved_4500 1 [ClaimRewards 21 1; ClaimRewards 22 1])
    as (_ & _ & _ & _ & H).
  - vm_compute. discriminate.
  - apply H.
Defined.

(** *** Claims are final *)

Lemma exec_claimed (c : call) (s s' : state) (id u : Z) :
  exec c s = Ok s' ->
  claimed_at s id u = true ->
  claimed_at s' id u = true.
Proof.
  intros Hex Hcl.
  destruct c as [sender id' p1 p2|sender id' o amt|sender id' o|sender id']; simpl in Hex.
  - unfold createMarket in Hex. ok_inv Hex. subst s'. exact Hcl.
  - unfold bet in Hex. ok_inv Hex. subst s'. exact Hcl.
  - unfold resolveMarket in Hex. ok_inv Hex. subst s'. exact Hcl.
  - unfold claimRewards in Hex. ok_inv Hex. subst s'. unfold claimed_at in *. simpl.
    destruct (decide ((id', sender) = (id, u))) as [->|Hne].
    + rewrite lookup_insert_eq. reflexivity.
    + rewrite lookup_insert_ne by assumption. exact Hcl.
Qed.

Lemma run_claimed (calls : list call) (s : state) (id u : Z) :
  claimed_at s id u = true -> claimed_at (run calls s) id u = true.
Proof.
  revert s. induction calls as [|c calls IH]; intros s Hcl; simpl; [exact Hcl|].
  apply IH. unfold step. destruct (exec c s) as [s'|e] eqn:Hex; [|exact Hcl].
  eapply exec_claimed; eassumption.
Qed.

(** X13: nobody is paid twice. Once [claimRewards] has succeeded for a
    caller on a market, the claimed flag stays up and every later
    [claimRewards] by that caller on that market fails with
    [AlreadyClaimed], whatever calls were made in between. *)
Theorem claim_is_final (s s' : state) (u id : Z) (calls : list call) :
  claimRewards u id s = Ok s' ->
  claimed_at (run calls s') id u = true
  /\ claimRewards u id (run calls s') = Err AlreadyClaimed.
Proof.
  intros Hok.
  assert (Hfacts : admin (market_at s' id) <> 0
                   /\ status (market_at s' id) = STATUS_RESOLVED
                   /\ winningOutcome (market_at s' id) <> 0
                   /\ claimed_at s' id u = true).
  { unfold claimRewards in Hok. ok_inv Hok. subst s'.
    change (market_at _ id) with (market_at s id).
    repeat match goal with
           | H : negb (_ || _) = true |- _ =>
               apply negb_true_iff, orb_false_iff in H as [? ?]
           | H : negb (_ =? _) = true |- _ => apply negb_true_iff, Z.eqb_neq in H
           | H : negb (_ =? _) = false |- _ => apply negb_false_iff, Z.eqb_eq in H
           | H : (_ =? _) = false |- _ => apply Z.eqb_neq in H
           end.
    repeat split; try assumption.
    unfold claimed_at. simpl. rewrite lookup_insert_eq. reflexivity. }
  destruct Hfacts as (Ha & Hst & Hwo & Hcl).
  pose proof (run_claimed calls s' id u Hcl) as Hcl'.
  split; [exact Hcl'|].
  unfold claimRewards. rewrite (run_resolved_market s' id calls Ha Hst).
  destruct (Z.eqb_spec (admin (market_at s' id)) 0); [contradiction|]. simpl.
  rewrite Hst, Z.eqb_refl. simpl.
  destruct (Z.eqb_spec (winningOutcome (market_at s' id)) 0); [contradiction|]. simpl.
  rewrite Hcl'. reflexivity.
Qed.

Lemma claim_is_final_witness :
  let s' := step resolved_4500 (ClaimRewards 21 1) in
  claimRewards 21 1 resolved_4500 = Ok s'
  /\ claimRewards 21 1 (run [ClaimRewards 22 1; Bet 21 1 OUTCOME_PLAYER1 5] s')
     = Err AlreadyClaimed.
Proof.
  intros s'.
  assert (Hok : claimRewards 21 1 resolved_4500 = Ok s') by (vm_compute; reflexivity).
  split; [exact Hok|].
  apply (claim_is_final resolved_4500 s' 21 1
           [ClaimRewards 22 1; Bet 21 1 OUTCOME_PLAYER1 5] Hok).
Defined.

Lemma shares_at_insert (th : Z) (t : IERC20.ledger) (mk : gmap Z Market)
    (us : gmap (Z * Z * Z) Z) (hc : gmap (Z * Z) bool) (k : Z * Z * Z) (v id o u : Z) :
  shares_at {| this := th; token := t; markets := mk;
               userShares := <[k := v]> us; hasClaimed := hc |} id o u
  = if decide (k = (id, o, u)) then v
    else default 0 (us !! (id, o, u)).
Proof.
  unfold shares_at. simpl. destruct (decide (k = (id, o, u))) as [->|Hne].
  - rewrite lookup_insert_eq. reflexivity.
  - rewrite lookup_insert_ne by assumption. reflexivity.
Qed.

(** X14: a share only moves in two ways. A successful call leaves the
    share of a user on an outcome of a market as it was, unless it is a bet
    by that user on that outcome of that market, still Active, which adds
    its amount, or that user's claim on that market, resolved with that
    outcome the winner, which sets it to zero. *)
Theorem share_transition (c : call) (s s' : state) (id o u : Z) :
  exec c s = Ok s' ->
  shares_at s' id o u = shares_at s id o u
  \/ (exists amt, c = Bet u id o amt /\ amt <> 0
        /\ status (market_at s id) = STATUS_ACTIVE
        /\ shares_at s' id o u = shares_at s id o u + amt)
  \/ (c = ClaimRewards u id
      /\ status (market_at s id) = STATUS_RESOLVED
      /\ o = winningOutcome (market_at s id)
      /\ shares_at s id o u <> 0
      /\ shares_at s' id o u = 0).
Proof.
  intros Hex.
  destruct c as [sender id' p1 p2|sender id' o' amt|sender id' o'|sender id']; simpl in Hex.
  - left. unfold createMarket in Hex. ok_inv Hex. subst s'. reflexivity.
  - unfold bet in Hex. ok_inv Hex. subst s'. rewrite shares_at_insert.
    destruct (decide ((id', o', sender) = (id, o, u))) as [[= -> -> ->]|Hne].
    + right; left. exists amt.
      repeat match goal with
             | H : add_u256 _ _ = Ok _ |- _ => apply add_u256_Ok in H as [-> _]
             | H : (_ =? _) = true |- _ => apply Z.eqb_eq in H
             | H : negb (_ =? _) = true |- _ => apply negb_true_iff, Z.eqb_neq in H
             end.
      repeat split; assumption.
    + left. reflexivity.
  - left. unfold resolveMarket in Hex. ok_inv Hex. subst s'. reflexivity.
  - unfold claimRewards in Hex. ok_inv Hex. subst s'. rewrite shares_at_insert.
    destruct (decide ((id', winningOutcome (market_at s id'), sender) = (id, o, u)))
      as [[= -> <- ->]|Hne].
    + right; right.
      repeat match goal with
             | H : negb (_ || _) = true |- _ =>
                 apply negb_true_iff, orb_false_iff in H as [? ?]
             | H : negb (_ =? _) = true |- _ => apply negb_true_iff, Z.eqb_neq in H
             | H : negb (_ =? _) = false |- _ => apply negb_false_iff, Z.eqb_eq in H
             end.
      repeat split; assumption.
    + left. reflexivity.
Qed.

Lemma share_transition_witness :
  shares_at (step resolved_4500 (ClaimRewards 21 1)) 1 OUTCOME_PLAYER1 22
  = shares_at resolved_4500 1 OUTCOME_PLAYER1 22.
Proof.
  destruct (share_transition (ClaimRewards 21 1) resolved_4500
              (step resolved_4500 (ClaimRewards 21 1)) 1 OUTCOME_PLAYER1 22)
    as [H | [(amt & [=] & _) | ([=] & _)]].
  - vm_compute. reflexivity.
  - exact H.
Defined.

(** X15: the refusals of [claimRewards], in the order of its checks: an
    absent market gives [MarketNotFound]; a market that is not resolved
    gives [NotResolved]; a caller who has claimed gives [AlreadyClaimed];
    a caller without share on the winning outcome gives [NoShares],
    whatever the caller staked on the losing outcomes; and so does a
    winning outcome whose total is zero. *)
Theorem claimRewards_refusals (s : state) (sender id : Z) :
  let m := market_at s id in
  (admin m = 0 -> claimRewards sender id s = Err MarketNotFound)
  /\ (admin m <> 0 -> status m <> STATUS_RESOLVED \/ winningOutcome m = 0 ->
      claimRewards sender id s = Err NotResolved)
  /\ (admin m <> 0 -> status m = STATUS_RESOLVED -> winningOutcome m <> 0 ->
      (claimed_at s id sender = true -> claimRewards sender id s = Err AlreadyClaimed)
      /\ (claimed_at s id sender = false ->
          shares_at s id (winningOutcome m) sender = 0
          \/ outcome_shares m (winningOutcome m) = 0 ->
          claimRewards sender id s = Err NoShares)).
Proof.
  intros m. unfold claimRewards. fold m. split; [|split].
  - intros ->. reflexivity.
  - intros Ha Hnot. destruct (Z.eqb_spec (admin m) 0); [contradiction|]. simpl.
    destruct Hnot as [Hst | ->].
    + destruct (Z.eqb_spec (status m) STATUS_RESOLVED); [contradiction | reflexivity].
    + simpl. rewrite orb_true_r. reflexivity.
  - intros Ha Hst Hwo. destruct (Z.eqb_spec (admin m) 0); [contradiction|]. simpl.
    rewrite Hst, Z.eqb_refl. simpl.
    destruct (Z.eqb_spec (winningOutcome m) 0); [contradiction|]. simpl. split.
    + intros ->. reflexivity.
    + intros -> [H0 | H0].
      * simpl. rewrite H0. reflexivity.
      * simpl. destruct (shares_at s id (winningOutcome m) sender =? 0); [reflexivity|].
        simpl. rewrite H0. reflexivity.
Qed.

(** *** Betting *)

(** X16: [bet] succeeds exactly when the outcome is one of the three, the
    amount is not zero, the market exists and is Active, the sender's
    allowance to the contract and balance cover the amount, and the total
    of the outcome, the pool and the sender's share stay within
    [uint256]. *)
Theorem bet_succeeds_iff (s : state) (sender id o amt : Z) :
  let m := market_at s id in
  is_ok (bet sender id o amt s) = true
  <-> valid_outcome o = true /\ amt <> 0 /\ admin m <> 0 /\ status m = STATUS_ACTIVE
      /\ amt <= IERC20.allowance (token s) sender (this s)
      /\ amt <= IERC20.balanceOf (token s) sender
      /\ outcome_shares m o + amt <= MAX_UINT256
      /\ pool m + amt <= MAX_UINT256
      /\ shares_at s id o sender + amt <= MAX_UINT256.
Proof.
  intros m. unfold bet, IERC20.safeTransferFrom, add_shares, add_u256, outcome_shares.
  fold m. split.
  - intros H.
    destruct (valid_outcome o) eqn:Hv; [|discriminate].
    destruct (Z.eqb_spec amt 0); [discriminate|].
    destruct (Z.eqb_spec (admin m) 0); [discriminate|].
    destruct (Z.eqb_spec (status m) STATUS_ACTIVE); [|discriminate].
    destruct (Z.leb_spec amt (IERC20.allowance (token s) sender (this s))); [|discriminate].
    destruct (Z.leb_spec amt (IERC20.balanceOf (token s) sender)); [|discriminate].
    simpl in H.
    destruct (o =? OUTCOME_PLAYER1); [|destruct (o =? OUTCOME_PLAYER2)];
      repeat (match type of H with context [?x + ?y <=? MAX_UINT256] =>
                destruct (Z.leb_spec (x + y) MAX_UINT256);
                [|simpl in H; discriminate H] end; simpl in H);
      repeat split; assumption.
  - intros (Hv & Hamt & Ha & Hst & Hal & Hbal & Htot & Hpool & Hsh).
    rewrite Hv.
    destruct (Z.eqb_spec amt 0); [contradiction|].
    destruct (Z.eqb_spec (admin m) 0); [contradiction|].
    destruct (Z.eqb_spec (status m) STATUS_ACTIVE); [|contradiction].
    destruct (Z.leb_spec amt (IERC20.allowance (token s) sender (this s))); [|lia].
    destruct (Z.leb_spec amt (IERC20.balanceOf (token s) sender)); [|lia].
    simpl.
    destruct (o =? OUTCOME_PLAYER1); [|destruct (o =? OUTCOME_PLAYER2)];
      repeat (match goal with |- context [?x + ?y <=? MAX_UINT256] =>
                destruct (Z.leb_spec (x + y) MAX_UINT256); [|lia] end; simpl);
      reflexivity.
Qed.

(** X17: a successful bet takes its amount from the sender and gives it to
    the contract: in the token, the sender's balance and allowance to the
    contract go down by the amount, the contract's balance goes up by it,
    and no other balance moves. *)
Theorem bet_moves_tokens (s s' : state) (sender id o amt : Z) :
  bet sender id o amt s = Ok s' ->
  this s' = this s
  /\ (forall x, IERC20.balanceOf (token s') x =
        IERC20.balanceOf (token s) x
        + (if decide (x = this s) then amt else 0)
        - (if decide (x = sender) then amt else 0))
  /\ IERC20.allowance (token s') sender (this s)
     = IERC20.allowance (token s) sender (this s) - amt
  /\ hasClaimed s' = hasClaimed s.
Proof.
  intros H. unfold bet in H. ok_inv H. subst s'. simpl.
  match goal with Ht : IERC20.safeTransferFrom _ _ _ _ _ = Ok _ |- _ =>
    unfold IERC20.safeTransferFrom in Ht; ok_inv Ht; subst end.
  split; [reflexivity|]. split; [|split; [|reflexivity]].
  - intros x. unfold IERC20.balanceOf. simpl. apply move_balance.
  - unfold IERC20.allowance. simpl. rewrite lookup_insert_eq. reflexivity.
Qed.

Lemma bet_moves_tokens_witness :
  let s := step (deployed [(21, 1000)]) (CreateMarket 10 1 11 12) in
  let s' := step s (Bet 21 1 OUTCOME_DRAW 400) in
  bet 21 1 OUTCOME_DRAW 400 s = Ok s'
  /\ IERC20.balanceOf (token s') 21 = 600
  /\ IERC20.balanceOf (token s') 1000 = 400.
Proof.
  intros s s'.
  assert (Hok : bet 21 1 OUTCOME_DRAW 400 s = Ok s') by (vm_compute; reflexivity).
  split; [exact Hok|].
  destruct (bet_moves_tokens s s' 21 1 OUTCOME_DRAW 400 Hok) as (_ & Hbal & _).
  rewrite !Hbal. split; vm_compute; reflexivity.
Defined.

(** *** Witnesses of the properties of the claims and of the projection *)

Lemma claims_within_snapshot_witness :
  exists s', claim_all [21; 22] 1 resolved_4500 = Ok s'
    /\ 0 <= IERC20.balanceOf (token s') (this s').
Proof.
  destruct (claims_within_snapshot [21; 22] 1 resolved_4500) as (s' & Hok & Hb).
  - apply (bool_decide_unpack _). vm_compute. exact I.
  - apply (bool_decide_unpack _). vm_compute. exact I.
  - vm_compute. discriminate.
  - vm_compute. reflexivity.
  - vm_compute. discriminate.
  - vm_compute. reflexivity.
  - vm_compute. discriminate.
  - intros c Hc. apply elem_of_cons in Hc as [-> | Hc];
      [|apply list_elem_of_singleton in Hc as ->];
      (split; [vm_compute; reflexivity|]); (split; [vm_compute; reflexivity|]);
      vm_compute; discriminate.
  - vm_compute. discriminate.
  - vm_compute. discriminate.
  - exists s'. split; [exact Hok|].
    assert (Hp : IERC20.balanceOf (token resolved_4500) (this resolved_4500)
                 - originalPoolSize (market_at resolved_4500 1) = 0)
      by (vm_compute; reflexivity).
    lia.
Defined.

Lemma getPotentialReward_spec_witness :
  getPotentialReward 1 OUTCOME_PLAYER1 22
    (run [CreateMarket 10 1 11 12;
          Bet 21 1 OUTCOME_PLAYER1 1000; Bet 22 1 OUTCOME_PLAYER1 2000;
          Bet 23 1 OUTCOME_PLAYER2 1500;
          ResolveMarket 10 1 OUTCOME_PLAYER1; ClaimRewards 21 1]
       (deployed [(21, 1000); (22, 2000); (23, 1500)]))
  = Ok 3000.
Proof.
  destruct (getPotentialReward_spec
              [CreateMarket 10 1 11 12;
               Bet 21 1 OUTCOME_PLAYER1 1000; Bet 22 1 OUTCOME_PLAYER1 2000;
               Bet 23 1 OUTCOME_PLAYER2 1500;
               ResolveMarket 10 1 OUTCOME_PLAYER1; ClaimRewards 21 1]
              (deployed [(21, 1000); (22, 2000); (23, 1500)]) 1 OUTCOME_PLAYER1 22)
    as [Hres _].
  - reflexivity.
  - vm_compute. discriminate.
  - vm_compute. reflexivity.
  - vm_compute. reflexivity.
  - rewrite Hres.
    + vm_compute. reflexivity.
    + vm_compute. reflexivity.
    + vm_compute. reflexivity.
    + vm_compute. discriminate.
Defined.

Lemma reachable_pool_balanced_witness :
  pool_balanced
    (market_at
       (run [CreateMarket 10 1 11 12;
             Bet 21 1 OUTCOME_PLAYER1 1000; Bet 22 1 OUTCOME_PLAYER1 2000;
             Bet 23 1 OUTCOME_PLAYER2 1500;
             ResolveMarket 10 1 OUTCOME_PLAYER1; ClaimRewards 21 1]
          (deployed [(21, 1000); (22, 2000); (23, 1500)])) 1).
Proof.
  apply (reachable_pool_balanced
           [CreateMarket 10 1 11 12;
            Bet 21 1 OUTCOME_PLAYER1 1000; Bet 22 1 OUTCOME_PLAYER1 2000;
            Bet 23 1 OUTCOME_PLAYER2 1500;
            ResolveMarket 10 1 OUTCOME_PLAYER1; ClaimRewards 21 1]
           (deployed [(21, 1000); (22, 2000); (23, 1500)]) 1).
  reflexivity.
Defined.

End MarketLifecycle.

(** * The life of a market of the Move module *)

Section MoveMarketLifecycle.
Import aptos prediction_market.

(** X21: [resolve_market] looks for the market before it looks at the
    outcome, so on an absent market it aborts with [EMARKET_NOT_FOUND]
    whatever the outcome, and on an existing one with [EINVALID_OUTCOME]
    for an outcome that is none of the three. Called on an Active market of
    the caller with one of the three outcomes, it succeeds whatever was
    bet: the market becomes Resolved with that winning outcome, its
    snapshot takes the value of the coin it holds, its totals stay, a claim
    table for the match exists afterwards with nobody's flag changed, and
    shares and balances are untouched. *)
Theorem resolve_market_spec (w : world) (a id o : Z)
    (ms : gmap Z Market) (cs : gmap Z (gmap Z bool)) :
  market_stores w !! a = Some ms ->
  claim_stores w !! a = Some cs ->
  (ms !! id = None -> resolve_market a id o w = Err (Abort EMARKET_NOT_FOUND))
  /\ (forall m, ms !! id = Some m -> valid_outcome o = false ->
        resolve_market a id o w = Err (Abort EINVALID_OUTCOME))
  /\ (forall m, ms !! id = Some m -> valid_outcome o = true -> admin m = a ->
        status m <> STATUS_ACTIVE ->
        resolve_market a id o w = Err (Abort EMARKET_ALREADY_RESOLVED))
  /\ (forall m, ms !! id = Some m -> valid_outcome o = true -> admin m = a ->
        status m = STATUS_ACTIVE ->
        exists w', resolve_market a id o w = Ok w'
          /\ market_at w' a id = Some (set_resolution m o)
          /\ original_pool_size (set_resolution m o) = pool m
          /\ (forall user, has_claimed a id user w' = has_claimed a id user w)
          /\ (exists cs' claimed,
                claim_stores w' !! a = Some cs' /\ cs' !! id = Some claimed)
          /\ shares_stores w' = shares_stores w /\ coins w' = coins w).
Proof.
  intros Hms Hcs. unfold resolve_market, borrow_global. rewrite Hms. simpl.
  split; [|split; [|split]].
  - intros ->. reflexivity.
  - intros m -> ->. reflexivity.
  - intros m -> -> Ha Hst. rewrite Ha, Z.eqb_refl.
    destruct (Z.eqb_spec (status m) STATUS_ACTIVE); [contradiction | reflexivity].
  - intros m -> -> Ha Hst. rewrite Ha, Z.eqb_refl, Hst. simpl. rewrite Hcs. simpl.
    eexists. split; [reflexivity|]. split; [|split; [reflexivity|split; [|split]]].
    + unfold market_at. simpl. rewrite lookup_insert_eq. simpl. apply lookup_insert_eq.
    + intros user. unfold has_claimed, borrow_global. simpl. rewrite Hcs. simpl.
      destruct (cs !! id) as [t|] eqn:Ht; simpl.
      * rewrite Hcs. simpl. rewrite Ht. reflexivity.
      * rewrite lookup_insert_eq. simpl. rewrite lookup_insert_eq, lookup_empty.
        reflexivity.
    + destruct (cs !! id) as [t|] eqn:Ht; simpl.
      * exists cs, t. split; assumption.
      * eexists. eexists. rewrite lookup_insert_eq. split; [reflexivity|].
        apply lookup_insert_eq.
    + split; reflexivity.
Qed.

Lemma resolve_market_spec_witness :
  let w := run [Initialize 10; CreateMarket 10 1 11 12] (genesis []) in
  resolve_market 10 7 OUTCOME_DRAW w = Err (Abort EMARKET_NOT_FOUND)
  /\ is_ok (resolve_market 10 1 OUTCOME_DRAW w) = true.
Proof.
  intros w.
  destruct (resolve_market_spec w 10 1 OUTCOME_DRAW
              (default ∅ (market_stores w !! 10)) (default ∅ (claim_stores w !! 10)))
    as (_ & _ & _ & Hok); [vm_compute; reflexivity | vm_compute; reflexivity |].
  destruct (resolve_market_spec w 10 7 OUTCOME_DRAW
              (default ∅ (market_stores w !! 10)) (default ∅ (claim_stores w !! 10)))
    as (Hnone & _); [vm_compute; reflexivity | vm_compute; reflexivity |].
  split; [apply Hnone; vm_compute; reflexivity|].
  destruct (Hok {| admin := 10; match_id := 1; player1 := 11; player2 := 12;
                   status := STATUS_ACTIVE; winning_outcome := 0; pool := 0;
                   original_pool_size := 0; player1_shares := 0; player2_shares := 0;
                   draw_shares := 0 |}) as (w' & Hw' & _).
  - vm_compute. reflexivity.
  - reflexivity.
  - reflexivity.
  - reflexivity.
  - rewrite Hw'. reflexivity.
Defined.

(** X22: the refusals of [claim_rewards], in the order of its checks. An
    absent market aborts with [EMARKET_NOT_FOUND] and one that is not
    resolved with [ENOT_RESOLVED]; a user who has claimed gets
    [EALREADY_CLAIMED]. A user who has not claimed gets [EMARKET_NOT_FOUND]
    again when nobody ever bet on the market, or nobody bet on the winning
    outcome (the table of that outcome was never created), and [ENO_SHARES]
    when others bet on the winning outcome but this user did not. *)
Theorem claim_rewards_refusals (w : world) (user a id : Z)
    (ms : gmap Z Market) (cs : gmap Z (gmap Z bool))
    (ss : gmap Z (gmap Z (gmap Z Z))) :
  market_stores w !! a = Some ms ->
  claim_stores w !! a = Some cs ->
  shares_stores w !! a = Some ss ->
  (ms !! id = None -> claim_rewards user a id w = Err (Abort EMARKET_NOT_FOUND))
  /\ (forall m, ms !! id = Some m -> status m <> STATUS_RESOLVED ->
        claim_rewards user a id w = Err (Abort ENOT_RESOLVED))
  /\ (forall m claimed, ms !! id = Some m -> status m = STATUS_RESOLVED ->
        winning_outcome m <> 0 -> cs !! id = Some claimed ->
        (claimed !! user = Some true ->
           claim_rewards user a id w = Err (Abort EALREADY_CLAIMED))
        /\ (default false (claimed !! user) = false ->
            (ss !! id = None ->
               claim_rewards user a id w = Err (Abort EMARKET_NOT_FOUND))
            /\ (forall ot, ss !! id = Some ot -> ot !! winning_outcome m = None ->
                  claim_rewards user a id w = Err (Abort EMARKET_NOT_FOUND))
            /\ (forall ot us, ss !! id = Some ot -> ot !! winning_outcome m = Some us ->
                  us !! user = None \/ us !! user = Some 0 ->
                  claim_rewards user a id w = Err (Abort ENO_SHARES)))).
Proof.
  intros Hms Hcs Hss. unfold claim_rewards, borrow_global, table_borrow.
  rewrite Hms. simpl. split; [|split].
  - intros ->. reflexivity.
  - intros m -> Hst.
    destruct (Z.eqb_spec (status m) STATUS_RESOLVED); [contradiction | reflexivity].
  - intros m claimed -> Hst Hwo Hc. rewrite Hst, Z.eqb_refl.
    destruct (Z.eqb_spec (winning_outcome m) 0); [contradiction|]. simpl.
    rewrite Hcs. simpl. rewrite Hc. simpl. split.
    + intros ->. reflexivity.
    + intros ->. simpl. rewrite Hss. simpl. split; [|split].
      * intros ->. reflexivity.
      * intros ot -> ->. reflexivity.
      * intros ot us -> -> [-> | ->]; reflexivity.
Qed.

Lemma claim_rewards_refusals_witness :
  claim_rewards 23 10 1 resolved_4500 = Err (Abort ENO_SHARES).
Proof.
  destruct (claim_rewards_refusals resolved_4500 23 10 1
              (default ∅ (market_stores resolved_4500 !! 10))
              (default ∅ (claim_stores resolved_4500 !! 10))
              (default ∅ (shares_stores resolved_4500 !! 10)))
    as (_ & _ & H); [vm_compute; reflexivity ..|].
  destruct (H {| admin := 10; match_id := 1; player1 := 11; player2 := 12;
                 status := STATUS_RESOLVED; winning_outcome := OUTCOME_PLAYER1;
                 pool := 4500; original_pool_size := 4500;
                 player1_shares := 3000; player2_shares := 1500; draw_shares := 0 |}
              ∅) as (_ & Hno).
  - vm_compute. reflexivity.
  - reflexivity.
  - vm_compute. discriminate.
  - vm_compute. reflexivity.
  - destruct Hno as (_ & _ & Hloser); [reflexivity|].
    apply (Hloser (default ∅ (default ∅ (shares_stores resolved_4500 !! 10) !! 1))
                  (<[21 := 1000]> (<[22 := 2000]> ∅))).
    + vm_compute. reflexivity.
    + vm_compute. reflexivity.
    + left. vm_compute. reflexivity.
Defined.

(** *** What the module keeps true *)

Lemma market_at_Some (w : world) (a id : Z) (m : Market) :
  market_at w a id = Some m ->
  exists ms, market_stores w !! a = Some ms /\ ms !! id = Some m.
Proof.
  unfold market_at. destruct (market_stores w !! a) as [ms|]; simpl; [|discriminate].
  intros H. eauto.
Qed.

Lemma well_formed_update (w : world) (a0 id0 : Z) (ms : gmap Z Market) (m' : Market)
    (ss' : gmap Z (gmap Z (gmap Z (gmap Z Z)))) (cs' : gmap Z (gmap Z (gmap Z bool)))
    (co' : gmap Z Z) :
  well_formed w ->
  market_stores w !! a0 = Some ms ->
  (forall a, is_Some (shares_stores w !! a) -> is_Some (ss' !! a)) ->
  (forall a, is_Some (claim_stores w !! a) -> is_Some (cs' !! a)) ->
  (forall a cs id cl, claim_stores w !! a = Some cs -> cs !! id = Some cl ->
     exists cs2 cl2, cs' !! a = Some cs2 /\ cs2 !! id = Some cl2) ->
  admin m' = a0 ->
  (status m' = STATUS_ACTIVE
   \/ (status m' = STATUS_RESOLVED /\ valid_outcome (winning_outcome m') = true
       /\ exists cs2 cl2, cs' !! a0 = Some cs2 /\ cs2 !! id0 = Some cl2)) ->
  well_formed {| market_stores := <[a0 := <[id0 := m']> ms]> (market_stores w);
                 shares_stores := ss'; claim_stores := cs'; coins := co' |}.
Proof.
  intros [Hpub Hmk] Hms Hss Hcs Hcl Hadm Hst. split.
  - intros a Ha. simpl in *.
    assert (Ha' : is_Some (market_stores w !! a)).
    { destruct (decide (a = a0)) as [->|Hne]; [rewrite Hms; eauto|].
      rewrite lookup_insert_ne in Ha by congruence. exact Ha. }
    destruct (Hpub a Ha') as [H1 H2]. split; [apply Hss | apply Hcs]; assumption.
  - intros a id m Hm. unfold market_at in Hm. simpl in Hm.
    assert (Hcase : (a = a0 /\ id = id0 /\ m = m') \/ market_at w a id = Some m).
    { destruct (decide (a = a0)) as [->|Hne].
      - rewrite lookup_insert_eq in Hm. simpl in Hm.
        destruct (decide (id = id0)) as [->|Hne].
        + rewrite lookup_insert_eq in Hm. left. repeat split; congruence.
        + rewrite lookup_insert_ne in Hm by congruence. right.
          unfold market_at. rewrite Hms. exact Hm.
      - rewrite lookup_insert_ne in Hm by congruence. right. exact Hm. }
    destruct Hcase as [(-> & -> & ->) | Hold]; [split; assumption|].
    destruct (Hmk a id m Hold) as [Ha Hs]. split; [exact Ha|].
    destruct Hs as [Hact | (Hres & Hv & cs & cl & Hc1 & Hc2)]; [left; exact Hact|].
    right. split; [exact Hres|]. split; [exact Hv|]. simpl. eapply Hcl; eassumption.
Qed.

Lemma step_well_formed (w : world) (c : call) :
  well_formed w -> well_formed (step w c).
Proof.
  intros Hwf. pose proof Hwf as [Hpub Hmk].
  unfold step. destruct (exec c w) as [w'|e] eqn:Hex; [|exact Hwf].
  destruct c as [a0|a0 id0 p1 p2|user a0 id0 o amt|a0 id0 o|user a0 id0]; simpl in Hex.
  - unfold initialize in Hex. injection Hex as <-. split.
    + intros a Ha. simpl in *. destruct (decide (a = a0)) as [->|Hne].
      * split.
        -- destruct (shares_stores w !! a0) eqn:E; [rewrite E; eauto|].
           rewrite lookup_insert_eq. eauto.
        -- destruct (claim_stores w !! a0) eqn:E; [rewrite E; eauto|].
           rewrite lookup_insert_eq. eauto.
      * assert (Ha' : is_Some (market_stores w !! a)).
        { destruct (market_stores w !! a0); [exact Ha|].
          rewrite lookup_insert_ne in Ha by congruence. exact Ha. }
        destruct (Hpub a Ha') as [Hs Hc]. split.
        -- destruct (shares_stores w !! a0); [exact Hs|].
           rewrite lookup_insert_ne by congruence. exact Hs.
        -- destruct (claim_stores w !! a0); [exact Hc|].
           rewrite lookup_insert_ne by congruence. exact Hc.
    + intros a id m Hm.
      assert (Hm' : market_at w a id = Some m).
      { unfold market_at in *. simpl in Hm.
        destruct (market_stores w !! a0) eqn:E; [exact Hm|].
        destruct (decide (a = a0)) as [->|Hne].
        - rewrite lookup_insert_eq in Hm. simpl in Hm. rewrite lookup_empty in Hm.
          discriminate.
        - rewrite lookup_insert_ne in Hm by congruence. exact Hm. }
      destruct (Hmk a id m Hm') as [Hadm Hst]. split; [exact Hadm|].
      destruct Hst as [Hact | (Hres & Hv & cs & cl & Hcs & Hcl)]; [left; exact Hact|].
      right. split; [exact Hres|]. split; [exact Hv|]. exists cs, cl. split; [|exact Hcl].
      simpl. destruct (claim_stores w !! a0) eqn:E; [exact Hcs|].
      destruct (decide (a = a0)) as [->|Hne]; [congruence|].
      rewrite lookup_insert_ne by congruence. exact Hcs.
  - unfold create_market in Hex. ok_inv Hex. subst w'.
    match goal with H : borrow_global _ _ = Ok _ |- _ => apply borrow_global_Ok in H end.
    eapply well_formed_update; eauto.
  - unfold bet in Hex. ok_inv Hex. subst w'.
    repeat match goal with
           | H : borrow_global _ _ = Ok _ |- _ => apply borrow_global_Ok in H
           | H : (_ =? _) = true |- _ => apply Z.eqb_eq in H
           end.
    match goal with
    | Hs : market_stores w !! a0 = Some ?ms, Hm : ?ms !! id0 = Some ?m,
      Hadd : add_shares ?m _ _ _ = Ok _, Hv : valid_outcome _ = true |- _ =>
        apply (move_add_shares_Ok _ _ _ _ _ Hv) in Hadd as (Hst & _ & Hadm & _);
        destruct (Hmk a0 id0 m) as [Ha _]; [unfold market_at; rewrite Hs; exact Hm|]
    end.
    eapply well_formed_update; eauto; try congruence.
    + intros x Hx. destruct (decide (x = a0)) as [->|Hne].
      * rewrite lookup_insert_eq. eauto.
      * rewrite lookup_insert_ne by congruence. exact Hx.
    + left. congruence.
  - unfold resolve_market in Hex. ok_inv Hex; subst w'.
    all: repeat match goal with
           | H : borrow_global _ _ = Ok _ |- _ => apply borrow_global_Ok in H
           | H : (_ =? _) = true |- _ => apply Z.eqb_eq in H
           end.
    all: eapply well_formed_update; eauto; try (simpl; congruence).
    + intros x Hx. destruct (a1 !! id0); [exact Hx|].
      destruct (decide (x = a0)) as [->|Hne].
      * rewrite lookup_insert_eq. eauto.
      * rewrite lookup_insert_ne by congruence. exact Hx.
    + intros x cs id cl Hc1 Hc2. destruct (a1 !! id0) eqn:E; [eauto|].
      destruct (decide (x = a0)) as [->|Hne].
      * rewrite lookup_insert_eq. eexists. exists cl. split; [reflexivity|].
        rewrite lookup_insert_ne; [congruence|]. intros <-. congruence.
      * rewrite lookup_insert_ne by congruence. eauto.
    + right. simpl. split; [reflexivity|]. split; [assumption|].
      destruct (a1 !! id0) eqn:E; [eauto|].
      eexists. eexists. rewrite lookup_insert_eq. split; [reflexivity|].
      apply lookup_insert_eq.
  - unfold claim_rewards in Hex. ok_inv Hex. subst w'.
    repeat match goal with
           | H : borrow_global _ _ = Ok _ |- _ => apply borrow_global_Ok in H
           | H : table_borrow _ _ = Ok _ |- _ =>
               unfold table_borrow in H; ok_inv H; subst
           | H : (_ =? _) = true |- _ => apply Z.eqb_eq in H
           end.
    match goal with
    | Hs : market_stores w !! a0 = Some ?ms, Hm : ?ms !! id0 = Some ?m |- _ =>
        destruct (Hmk a0 id0 m) as [Ha Hst]; [unfold market_at; rewrite Hs; exact Hm|]
    end.
    eapply well_formed_update; eauto; try (simpl; congruence).
    + intros x Hx. destruct (decide (x = a0)) as [->|Hne].
      * rewrite lookup_insert_eq. eauto.
      * rewrite lookup_insert_ne by congruence. exact Hx.
    + intros x Hx. destruct (decide (x = a0)) as [->|Hne].
      * rewrite lookup_insert_eq. eauto.
      * rewrite lookup_insert_ne by congruence. exact Hx.
    + intros x cs id cl Hc1 Hc2. destruct (decide (x = a0)) as [->|Hne].
      * rewrite lookup_insert_eq.
        destruct (decide (id = id0)) as [->|Hid].
        -- eexists. eexists. split; [reflexivity|]. apply lookup_insert_eq.
        -- eexists. exists cl. split; [reflexivity|].
           rewrite lookup_insert_ne by congruence.
           assert (cs = a1) by congruence. subst cs. exact Hc2.
      * rewrite lookup_insert_ne by congruence. eauto.
    + right. simpl. split; [assumption|].
      destruct Hst as [Hact | (_ & Hv & _)];
        [unfold STATUS_ACTIVE, STATUS_RESOLVED in *; congruence|].
      split; [exact Hv|].
      eexists. eexists. rewrite lookup_insert_eq. split; [reflexivity|].
      apply lookup_insert_eq.
Qed.

Lemma run_well_formed (calls : list call) (w : world) :
  well_formed w -> well_formed (run calls w).
Proof.
  revert w. induction calls as [|c calls IH]; intros w Hw; simpl; [exact Hw|].
  apply IH. apply step_well_formed. exact Hw.
Qed.

Lemma genesis_well_formed (holdings : list (Z * Z)) : well_formed (genesis holdings).
Proof.
  split.
  - intros a [x Hx]. simpl in Hx. rewrite lookup_empty in Hx. discriminate.
  - intros a id m Hm. unfold market_at in Hm. simpl in Hm.
    rewrite lookup_empty in Hm. discriminate.
Qed.


(** X23: aborts that cannot happen. In every world reached from one
    without stores: [resolve_market] never aborts with [ENOT_ADMIN] (the
    table is the caller's own and every market in it is the caller's);
    [claim_rewards] never aborts on a missing claim table (a resolved
    market always has one); and at an address that has a market store,
    neither [bet] nor [claim_rewards] aborts on a missing resource (the
    three stores are published together). *)
Theorem move_unreachable_aborts (calls : list call) (holdings : list (Z * Z))
    (user a id o amt : Z) :
  let w := run calls (genesis holdings) in
  resolve_market a id o w <> Err (Abort ENOT_ADMIN)
  /\ claim_rewards user a id w <> Err TABLE_ENTRY_MISSING
  /\ (is_Some (market_stores w !! a) ->
      claim_rewards user a id w <> Err MISSING_DATA
      /\ bet user a id o amt w <> Err MISSING_DATA).
Proof.
  intros w.
  destruct (run_well_formed calls _ (genesis_well_formed holdings)) as [Hpub Hmk].
  fold w in Hpub, Hmk.
  assert (Hrec : forall ms m, market_stores w !! a = Some ms -> ms !! id = Some m ->
            admin m = a
            /\ (status m = STATUS_RESOLVED ->
                exists cs cl, claim_stores w !! a = Some cs /\ cs !! id = Some cl)).
  { intros ms m Hms Hm. destruct (Hmk a id m) as [Ha Hst].
    - unfold market_at. rewrite Hms. exact Hm.
    - split; [exact Ha|]. intros Hres.
      destruct Hst as [Hact | (_ & _ & H)]; [|exact H].
      unfold STATUS_ACTIVE, STATUS_RESOLVED in *. congruence. }
  split; [|split].
  - unfold resolve_market, borrow_global.
    destruct (market_stores w !! a) as [ms|] eqn:Hms; simpl; [|discriminate].
    destruct (ms !! id) as [m|] eqn:Hm; [|intros [=]].
    destruct (Hrec ms m eq_refl Hm) as [Ha _]. rewrite Ha, Z.eqb_refl.
    repeat (match goal with |- context [match ?x with _ => _ end] => destruct x end; simpl);
      intros [=].
  - unfold claim_rewards, borrow_global, table_borrow, mul_u64.
    destruct (market_stores w !! a) as [ms|] eqn:Hms; simpl; [|discriminate].
    destruct (ms !! id) as [m|] eqn:Hm; [|intros [=]].
    destruct (Z.eqb_spec (status m) STATUS_RESOLVED) as [Hres|]; [|intros [=]].
    destruct (Hrec ms m eq_refl Hm) as [_ Hcl].
    destruct (Hcl Hres) as (cs & cl & Hcs & Hc).
    destruct (negb (winning_outcome m =? 0)); [|intros [=]].
    rewrite Hcs. simpl. rewrite Hc. simpl.
    repeat (match goal with |- context [match ?x with _ => _ end] => destruct x end; simpl);
      intros [=].
  - intros Hsome. destruct (Hpub a Hsome) as [[ss Hss] [cs Hcs]].
    destruct Hsome as [ms Hms]. split.
    + unfold claim_rewards, borrow_global, table_borrow, mul_u64.
      rewrite Hms, Hcs, Hss. simpl.
      repeat (match goal with |- context [match ?x with _ => _ end] => destruct x end;
              simpl);
        intros [=].
    + unfold bet, borrow_global, coin.withdraw, add_shares, add_u64.
      rewrite Hms, Hss. simpl.
      repeat (match goal with |- context [match ?x with _ => _ end] => destruct x end;
              simpl);
        intros [=].
Qed.

(** *** Resolved is terminal *)

(** The part of a market record that resolution freezes. *)
Lemma market_at_update (w : world) (a0 id0 a id : Z) (ms : gmap Z Market) (m2 : Market)
    (ss : gmap Z (gmap Z (gmap Z (gmap Z Z)))) (cs : gmap Z (gmap Z (gmap Z bool)))
    (co : gmap Z Z) :
  market_stores w !! a0 = Some ms ->
  market_at {| market_stores := <[a0 := <[id0 := m2]> ms]> (market_stores w);
               shares_stores := ss; claim_stores := cs; coins := co |} a id
  = if decide ((a, id) = (a0, id0)) then Some m2 else market_at w a id.
Proof.
  intros Hms. unfold market_at. simpl. destruct (decide (a = a0)) as [->|Hne].
  - rewrite lookup_insert_eq, Hms. simpl. destruct (decide (id = id0)) as [->|Hid].
    + rewrite lookup_insert_eq, decide_True by reflexivity. reflexivity.
    + rewrite lookup_insert_ne, decide_False by congruence. reflexivity.
  - rewrite lookup_insert_ne, decide_False by congruence. reflexivity.
Qed.

Lemma step_resolved_market (w : world) (c : call) (a id : Z) (m : Market) :
  market_at w a id = Some m ->
  status m = STATUS_RESOLVED ->
  exists p, market_at (step w c) a id = Some (set_pool m p).
Proof.
  intros Hm Hres.
  assert (Hsame : market_at w a id = Some (set_pool m (pool m)))
    by (rewrite Hm; destruct m; reflexivity).
  unfold step. destruct (exec c w) as [w'|e] eqn:Hex; [|eauto].
  destruct (market_at_Some w a id m Hm) as (ms0 & Hms0 & Hm0).
  destruct c as [a0|a0 id0 p1 p2|user a0 id0 o amt|a0 id0 o|user a0 id0]; simpl in Hex.
  - unfold initialize in Hex. injection Hex as <-. exists (pool m). rewrite <- Hsame.
    unfold market_at. simpl. destruct (market_stores w !! a0) eqn:E; [reflexivity|].
    rewrite lookup_insert_ne; [reflexivity|]. intros ->. congruence.
  - unfold create_market in Hex. ok_inv Hex. subst w'.
    match goal with H : borrow_global _ _ = Ok _ |- _ => apply borrow_global_Ok in H end.
    exists (pool m). erewrite market_at_update by eassumption.
    destruct (decide ((a, id) = (a0, id0))) as [[= -> ->]|]; [congruence | exact Hsame].
  - unfold bet in Hex. ok_inv Hex. subst w'.
    repeat match goal with
           | H : borrow_global _ _ = Ok _ |- _ => apply borrow_global_Ok in H
           | H : (_ =? _) = true |- _ => apply Z.eqb_eq in H
           end.
    exists (pool m). erewrite market_at_update by eassumption.
    destruct (decide ((a, id) = (a0, id0))) as [[= -> ->]|]; [|exact Hsame].
    unfold STATUS_ACTIVE, STATUS_RESOLVED in *. congruence.
  - unfold resolve_market in Hex. ok_inv Hex. subst w'.
    repeat match goal with
           | H : borrow_global _ _ = Ok _ |- _ => apply borrow_global_Ok in H
           | H : (_ =? _) = true |- _ => apply Z.eqb_eq in H
           end.
    exists (pool m). erewrite market_at_update by eassumption.
    destruct (decide ((a, id) = (a0, id0))) as [[= -> ->]|]; [|exact Hsame].
    unfold STATUS_ACTIVE, STATUS_RESOLVED in *. congruence.
  - unfold claim_rewards in Hex. ok_inv Hex. subst w'.
    repeat match goal with
           | H : borrow_global _ _ = Ok _ |- _ => apply borrow_global_Ok in H
           end.
    erewrite market_at_update by eassumption.
    destruct (decide ((a, id) = (a0, id0))) as [[= -> ->]|]; [|eauto].
    eexists. f_equal. f_equal. congruence.
Qed.

(** X24: Resolved is terminal in the Move module too. After any sequence
    of transactions a resolved market is still there and Resolved, with the
    same administrator, winning outcome, snapshot and outcome totals; only
    the value of the coin it holds may have changed. Every bet on it aborts
    with [EMARKET_ALREADY_RESOLVED], and so does a new resolution by its
    administrator. *)
Theorem move_resolved_market_frozen (w : world) (a id : Z) (m : Market)
    (calls : list call) :
  market_at w a id = Some m ->
  status m = STATUS_RESOLVED ->
  admin m = a ->
  (exists p, market_at (run calls w) a id = Some (set_pool m p))
  /\ (forall user o amt, valid_outcome o = true -> 0 < amt ->
        bet user a id o amt (run calls w) = Err (Abort EMARKET_ALREADY_RESOLVED))
  /\ (forall o, valid_outcome o = true ->
        resolve_market a id o (run calls w) = Err (Abort EMARKET_ALREADY_RESOLVED)).
Proof.
  intros Hm Hres Hadm.
  assert (Hrun : exists p, market_at (run calls w) a id = Some (set_pool m p)).
  { assert (Hgen : forall w0 p0, market_at w0 a id = Some (set_pool m p0) ->
              exists p, market_at (run calls w0) a id = Some (set_pool m p)).
    { induction calls as [|c calls IH]; intros w0 p0 H0; simpl; [eauto|].
      destruct (step_resolved_market w0 c a id (set_pool m p0) H0 Hres) as (p1 & H1).
      apply (IH _ p1). exact H1. }
    apply (Hgen w (pool m)). rewrite Hm. destruct m; reflexivity. }
  split; [exact Hrun|]. destruct Hrun as (p & Hp).
  destruct (market_at_Some _ a id _ Hp) as (ms & Hms & Hmid).
  split.
  - intros user o amt Hv Hamt. unfold bet, borrow_global. rewrite Hv.
    destruct (Z.gtb_spec amt 0); [|lia]. rewrite Hms. simpl. rewrite Hmid. simpl.
    rewrite Hres. reflexivity.
  - intros o Hv. unfold resolve_market, borrow_global. rewrite Hms. simpl.
    rewrite Hmid, Hv. simpl. rewrite Hadm, Z.eqb_refl, Hres. reflexivity.
Qed.

Lemma move_resolved_market_frozen_witness :
  bet 21 10 1 OUTCOME_DRAW 5 (run [ClaimRewards 21 10 1] resolved_4500)
  = Err (Abort EMARKET_ALREADY_RESOLVED).
Proof.
  destruct (move_resolved_market_frozen resolved_4500 10 1
              {| admin := 10; match_id := 1; player1 := 11; player2 := 12;
                 status := STATUS_RESOLVED; winning_outcome := OUTCOME_PLAYER1;
                 pool := 4500; original_pool_size := 4500;
                 player1_shares := 3000; player2_shares := 1500; draw_shares := 0 |}
              [ClaimRewards 21 10 1]) as (_ & Hbet & _).
  - vm_compute. reflexivity.
  - reflexivity.
  - reflexivity.
  - apply Hbet; reflexivity.
Defined.

(** *** Witnesses of the properties of betting, claiming and the projection *)

Lemma claim_rewards_spec_witness :
  exists w', claim_rewards 21 10 1 resolved_4500 = Ok w'
    /\ coin.balance (coins w') 21 = 1500
    /\ claim_rewards 21 10 1 w' = Err (Abort EALREADY_CLAIMED).
Proof.
  destruct (claim_rewards_spec resolved_4500 21 10 1
              (default ∅ (market_stores resolved_4500 !! 10))
              {| admin := 10; match_id := 1; player1 := 11; player2 := 12;
                 status := STATUS_RESOLVED; winning_outcome := OUTCOME_PLAYER1;
                 pool := 4500; original_pool_size := 4500;
                 player1_shares := 3000; player2_shares := 1500; draw_shares := 0 |}
              (default ∅ (claim_stores resolved_4500 !! 10)) ∅
              (default ∅ (shares_stores resolved_4500 !! 10))
              (default ∅ (default ∅ (shares_stores resolved_4500 !! 10) !! 1))
              (<[21 := 1000]> (<[22 := 2000]> ∅)) 1000)
    as (w' & Hok & Hbal & _ & _ & _ & Hagain).
  - vm_compute. reflexivity.
  - vm_compute. reflexivity.
  - vm_compute. reflexivity.
  - vm_compute. reflexivity.
  - vm_compute. reflexivity.
  - vm_compute. reflexivity.
  - vm_compute. reflexivity.
  - vm_compute. reflexivity.
  - reflexivity.
  - vm_compute. discriminate.
  - reflexivity.
  - reflexivity.
  - reflexivity.
  - vm_compute. discriminate.
  - vm_compute. discriminate.
  - exists w'. split; [exact Hok|]. split; [|exact Hagain].
    rewrite Hbal. vm_compute. reflexivity.
Defined.

Lemma move_bet_sequence_pool_balanced_witness :
  let w0 := step (genesis [(21, 1000); (22, 2000)]) (Initialize 10) in
  let w1 := step w0 (CreateMarket 10 1 11 12) in
  let w := run [Bet 21 10 1 OUTCOME_PLAYER1 400; Bet 22 10 1 OUTCOME_DRAW 2000] w1 in
  create_market 10 1 11 12 w0 = Ok w1
  /\ exists m, market_at w 10 1 = Some m /\ pool_balanced m.
Proof.
  intros w0 w1 w.
  assert (Hc : create_market 10 1 11 12 w0 = Ok w1) by (vm_compute; reflexivity).
  assert (Hb : bets w1 w).
  { apply (bets_more w1 (run [Bet 21 10 1 OUTCOME_PLAYER1 400] w1) w
             22 10 1 OUTCOME_DRAW 2000); [|vm_compute; reflexivity].
    apply (bets_more w1 w1 _ 21 10 1 OUTCOME_PLAYER1 400); [|vm_compute; reflexivity].
    apply bets_none. }
  split; [exact Hc|].
  destruct (move_bet_sequence_pool_balanced w0 w1 w 10 1 11 12 Hc Hb) as (m & Hm & _ & Hpb).
  exists m. split; assumption.
Defined.

Lemma get_potential_reward_live_witness :
  get_potential_reward 10 1 OUTCOME_PLAYER1 22 resolved_4500 = Ok 3000.
Proof.
  rewrite (get_potential_reward_live resolved_4500 10 1 OUTCOME_PLAYER1 22
             (default ∅ (market_stores resolved_4500 !! 10))
             {| admin := 10; match_id := 1; player1 := 11; player2 := 12;
                status := STATUS_RESOLVED; winning_outcome := OUTCOME_PLAYER1;
                pool := 4500; original_pool_size := 4500;
                player1_shares := 3000; player2_shares := 1500; draw_shares := 0 |}
             2000).
  - reflexivity.
  - vm_compute. reflexivity.
  - vm_compute. reflexivity.
  - vm_compute. reflexivity.
  - reflexivity.
  - reflexivity.
  - right. split; reflexivity.
  - vm_compute. discriminate.
Defined.

End MoveMarketLifecycle.

(** * The product of the claim formula *)

Section ClaimOverflow.
Import PredictionMarket.

(** [claimRewards] multiplies before it divides: when the product of the
    share and the snapshot does not fit in a [uint256], the call panics. *)
Lemma claimRewards_overflows (s : state) (sender id : Z) :
  admin (market_at s id) <> 0 ->
  status (market_at s id) = STATUS_RESOLVED ->
  winningOutcome (market_at s id) <> 0 ->
  claimed_at s id sender = false ->
  0 < shares_at s id (winningOutcome (market_at s id)) sender ->
  0 < outcome_shares (market_at s id) (winningOutcome (market_at s id)) ->
  MAX_UINT256 < shares_at s id (winningOutcome (market_at s id)) sender
                * originalPoolSize (market_at s id) ->
  claimRewards sender id s = Err Panic.
Proof.
  intros Hadm Hst Hwo Hcl Hu HT Hmul. unfold claimRewards.
  destruct (Z.eqb_spec (admin (market_at s id)) 0); [contradiction|]. simpl.
  rewrite Hst, Z.eqb_refl. simpl.
  destruct (Z.eqb_spec (winningOutcome (market_at s id)) 0); [contradiction|]. simpl.
  rewrite Hcl. simpl.
  destruct (Z.eqb_spec (shares_at s id (winningOutcome (market_at s id)) sender) 0); [lia|].
  simpl.
  destruct (Z.eqb_spec (outcome_shares (market_at s id) (winningOutcome (market_at s id))) 0);
    [lia|].
  simpl. unfold mul_u256.
  destruct (Z.leb_spec (shares_at s id (winningOutcome (market_at s id)) sender
                        * originalPoolSize (market_at s id)) MAX_UINT256); [lia|].
  reflexivity.
Qed.

(** No call changes what such a claim reads: the market is resolved, so
    nobody bets on it again, and the claimant's own claim fails. *)
Lemma step_keeps_overflow (s : state) (c : call) (sender id : Z) :
  admin (market_at s id) <> 0 ->
  status (market_at s id) = STATUS_RESOLVED ->
  winningOutcome (market_at s id) <> 0 ->
  claimed_at s id sender = false ->
  0 < shares_at s id (winningOutcome (market_at s id)) sender ->
  0 < outcome_shares (market_at s id) (winningOutcome (market_at s id)) ->
  MAX_UINT256 < shares_at s id (winningOutcome (market_at s id)) sender
                * originalPoolSize (market_at s id) ->
  market_at (step s c) id = market_at s id
  /\ shares_at (step s c) id (winningOutcome (market_at s id)) sender
     = shares_at s id (winningOutcome (market_at s id)) sender
  /\ claimed_at (step s c) id sender = false.
Proof.
  intros Hadm Hst Hwo Hcl Hu HT Hmul.
  pose proof (claimRewards_overflows s sender id Hadm Hst Hwo Hcl Hu HT Hmul) as Hpanic.
  unfold step. destruct (exec c s) as [s'|e] eqn:Hex; [|repeat split; assumption].
  split.
  { destruct (exec_market_at c s s' id Hex)
      as [H | [(? & ? & ? & _ & H0 & _) | [(? & ? & ? & ? & ? & ? & ? & _ & _ & Hact & _)
         | (? & _ & _ & Hact & _)]]].
    - exact H.
    - contradiction.
    - rewrite Hst in Hact. discriminate.
    - rewrite Hst in Hact. discriminate. }
  destruct c as [sender' id' p1 p2|sender' id' o amt|sender' id' o|sender' id'];
    simpl in Hex.
  - unfold createMarket in Hex. ok_inv Hex. subst s'. split; [reflexivity | exact Hcl].
  - unfold bet in Hex. ok_inv Hex. subst s'. split; [|exact Hcl].
    rewrite shares_at_insert.
    destruct (decide ((id', o, sender') = (id, winningOutcome (market_at s id), sender)))
      as [[= -> -> ->]|Hne]; [|reflexivity].
    match goal with H : (status _ =? STATUS_ACTIVE) = true |- _ =>
      apply Z.eqb_eq in H; rewrite Hst in H; discriminate H end.
  - unfold resolveMarket in Hex. ok_inv Hex. subst s'. split; [reflexivity | exact Hcl].
  - destruct (decide ((id', sender') = (id, sender))) as [[= -> ->]|Hne];
      [rewrite Hpanic in Hex; discriminate Hex|].
    unfold claimRewards in Hex. ok_inv Hex. subst s'. split.
    + rewrite shares_at_insert. rewrite decide_False; [reflexivity|].
      intros [= -> _ ->]. apply Hne. reflexivity.
    + unfold claimed_at in *. simpl. rewrite lookup_insert_ne by exact Hne. exact Hcl.
Qed.

Lemma run_keeps_overflow (calls : list call) (s : state) (sender id : Z) :
  admin (market_at s id) <> 0 ->
  status (market_at s id) = STATUS_RESOLVED ->
  winningOutcome (market_at s id) <> 0 ->
  claimed_at s id sender = false ->
  0 < shares_at s id (winningOutcome (market_at s id)) sender ->
  0 < outcome_shares (market_at s id) (winningOutcome (market_at s id)) ->
  MAX_UINT256 < shares_at s id (winningOutcome (market_at s id)) sender
                * originalPoolSize (market_at s id) ->
  claimRewards sender id (run calls s) = Err Panic.
Proof.
  revert s. induction calls as [|c calls IH]; intros s Hadm Hst Hwo Hcl Hu HT Hmul; simpl.
  - apply claimRewards_overflows; assumption.
  - destruct (step_keeps_overflow s c sender id Hadm Hst Hwo Hcl Hu HT Hmul)
      as (Hm & Hsh & Hcl').
    apply IH; rewrite ?Hm, ?Hsh; assumption.
Qed.

End ClaimOverflow.

Section MoveClaimOverflow.
Import aptos prediction_market.

(** [claim_rewards] multiplies before it divides too: when the product of
    the share and the snapshot does not fit in a [u64], the transaction
    aborts with an arithmetic error. *)
Lemma claim_rewards_overflows (w : world) (user a id : Z) (m : Market) (u : Z) :
  unpaid w user a id m u ->
  status m = STATUS_RESOLVED ->
  winning_outcome m <> 0 ->
  0 < u ->
  0 < outcome_shares m (winning_outcome m) ->
  MAX_U64 < u * original_pool_size m ->
  claim_rewards user a id w = Err ARITHMETIC_ERROR.
Proof.
  intros ((p & Hm) & (cs & claimed & Hcs & Hc & Hcl) & (ss & ot & us & Hss & Hot & Hus & Hu))
    Hst Hwo Hpos HT Hmul.
  destruct (market_at_Some w a id _ Hm) as (ms & Hms & Hmid).
  unfold claim_rewards, borrow_global, table_borrow.
  rewrite Hms. simpl. rewrite Hmid. simpl. rewrite Hst, Z.eqb_refl.
  destruct (Z.eqb_spec (winning_outcome m) 0); [contradiction|]. simpl.
  rewrite Hcs. simpl. rewrite Hc. simpl. rewrite Hcl. simpl.
  rewrite Hss. simpl. rewrite Hot, Hus, Hu.
  destruct (Z.gtb_spec u 0); [|lia].
  change (outcome_shares (set_pool m p) (winning_outcome m))
    with (outcome_shares m (winning_outcome m)).
  destruct (Z.gtb_spec (outcome_shares m (winning_outcome m)) 0); [|lia].
  unfold mul_u64. destruct (Z.leb_spec (u * original_pool_size m) MAX_U64); [lia|].
  reflexivity.
Qed.

(** What one transaction does to the claim table of a match. *)
Lemma exec_claim_table (c : call) (w w' : world) (a id : Z)
    (cs : gmap Z (gmap Z bool)) (claimed : gmap Z bool) :
  exec c w = Ok w' ->
  claim_stores w !! a = Some cs -> cs !! id = Some claimed ->
  exists cs' claimed',
    claim_stores w' !! a = Some cs' /\ cs' !! id = Some claimed'
    /\ (claimed' = claimed
        \/ exists user0, c = ClaimRewards user0 a id /\ claimed' = <[user0 := true]> claimed).
Proof.
  intros Hex Hcs Hc.
  destruct c as [a0|a0 id0 p1 p2|user0 a0 id0 o amt|a0 id0 o|user0 a0 id0]; simpl in Hex.
  - unfold initialize in Hex. injection Hex as <-. simpl.
    exists cs, claimed. split; [|split; [exact Hc | left; reflexivity]].
    destruct (claim_stores w !! a0) eqn:E; [exact Hcs|].
    rewrite lookup_insert_ne; [exact Hcs|]. intros ->. congruence.
  - unfold create_market in Hex. ok_inv Hex. subst w'. simpl. eauto 6.
  - unfold bet in Hex. ok_inv Hex. subst w'. simpl. eauto 6.
  - unfold resolve_market in Hex. ok_inv Hex. subst w'. simpl.
    match goal with H : borrow_global (claim_stores w) _ = Ok ?x |- _ =>
      apply borrow_global_Ok in H; destruct (x !! id0) eqn:E; [eauto 6|] end.
    destruct (decide (a = a0)) as [->|Hne].
    + rewrite lookup_insert_eq. eexists. exists claimed. split; [reflexivity|].
      split; [|left; reflexivity].
      rewrite lookup_insert_ne; [congruence|]. intros <-. congruence.
    + rewrite lookup_insert_ne by congruence. eauto 6.
  - unfold claim_rewards in Hex. ok_inv Hex. subst w'. simpl.
    repeat match goal with
           | H : borrow_global _ _ = Ok _ |- _ => apply borrow_global_Ok in H
           | H : table_borrow _ _ = Ok _ |- _ =>
               unfold table_borrow in H; ok_inv H; subst
           end.
    destruct (decide (a = a0)) as [->|Hne].
    + rewrite lookup_insert_eq. destruct (decide (id = id0)) as [->|Hid].
      * eexists. eexists. split; [reflexivity|]. split; [apply lookup_insert_eq|].
        right. exists user0. split; [reflexivity|]. congruence.
      * eexists. exists claimed. split; [reflexivity|]. split; [|left; reflexivity].
        rewrite lookup_insert_ne by congruence. congruence.
    + rewrite lookup_insert_ne by congruence. eauto 6.
Qed.

(** What one transaction does to the shares recorded on an outcome of a
    match. *)
Lemma exec_share_table (c : call) (w w' : world) (a id o : Z)
    (ss : gmap Z (gmap Z (gmap Z Z))) (ot : gmap Z (gmap Z Z)) (us : gmap Z Z) :
  exec c w = Ok w' ->
  shares_stores w !! a = Some ss -> ss !! id = Some ot -> ot !! o = Some us ->
  exists ss' ot' us',
    shares_stores w' !! a = Some ss' /\ ss' !! id = Some ot' /\ ot' !! o = Some us'
    /\ (us' = us
        \/ (exists user0 amt, c = Bet user0 a id o amt)
        \/ (exists user0, c = ClaimRewards user0 a id /\ us' = delete user0 us)).
Proof.
  intros Hex Hss Hot Hus.
  destruct c as [a0|a0 id0 p1 p2|user0 a0 id0 o0 amt|a0 id0 o0|user0 a0 id0]; simpl in Hex.
  - unfold initialize in Hex. injection Hex as <-. simpl.
    exists ss, ot, us. split; [|split; [exact Hot | split; [exact Hus | left; reflexivity]]].
    destruct (shares_stores w !! a0) eqn:E; [exact Hss|].
    rewrite lookup_insert_ne; [exact Hss|]. intros ->. congruence.
  - unfold create_market in Hex. ok_inv Hex. subst w'. simpl. eauto 8.
  - unfold bet in Hex. ok_inv Hex. subst w'. simpl.
    repeat match goal with
           | H : borrow_global _ _ = Ok _ |- _ => apply borrow_global_Ok in H
           end.
    destruct (decide (a = a0)) as [->|Hne];
      [|rewrite lookup_insert_ne by congruence; eauto 8].
    rewrite lookup_insert_eq.
    destruct (decide (id = id0)) as [->|Hid];
      [|eexists; exists ot, us; split; [reflexivity|];
        split; [rewrite lookup_insert_ne by congruence; congruence|];
        split; [exact Hus | left; reflexivity]].
    destruct (decide (o = o0)) as [->|Ho].
    + eexists. eexists. eexists. split; [reflexivity|]. split; [apply lookup_insert_eq|].
      split; [apply lookup_insert_eq|]. right; left. eauto.
    + eexists. eexists. exists us. split; [reflexivity|]. split; [apply lookup_insert_eq|].
      split; [|left; reflexivity].
      rewrite lookup_insert_ne by congruence.
      match goal with H : shares_stores w !! a0 = Some ?x |- _ =>
        assert (x = ss) by congruence; subst x end.
      rewrite Hot. simpl. exact Hus.
  - unfold resolve_market in Hex. ok_inv Hex; subst w'; simpl; eauto 8.
  - unfold claim_rewards in Hex. ok_inv Hex. subst w'. simpl.
    repeat match goal with
           | H : borrow_global _ _ = Ok _ |- _ => apply borrow_global_Ok in H
           end.
    destruct (decide (a = a0)) as [->|Hne];
      [|rewrite lookup_insert_ne by congruence; eauto 8].
    rewrite lookup_insert_eq.
    match goal with H : shares_stores w !! a0 = Some ?x |- _ =>
      assert (x = ss) by congruence; subst x end.
    destruct (decide (id = id0)) as [->|Hid];
      [|eexists; exists ot, us; split; [reflexivity|];
        split; [rewrite lookup_insert_ne by congruence; exact Hot|];
        split; [exact Hus | left; reflexivity]].
    match goal with H : ss !! id0 = Some ?x |- _ =>
      assert (x = ot) by congruence; subst x end.
    match goal with |- context [<[?k := delete user0 ?x]> ot] =>
      destruct (decide (o = k)) as [->|Ho] end.
    + eexists. eexists. eexists. split; [reflexivity|]. split; [apply lookup_insert_eq|].
      split; [apply lookup_insert_eq|]. right; right. exists user0.
      split; [reflexivity|]. congruence.
    + eexists. eexists. exists us. split; [reflexivity|]. split; [apply lookup_insert_eq|].
      split; [|left; reflexivity].
      rewrite lookup_insert_ne by congruence. exact Hus.
Qed.

(** No transaction pays such a reward or removes it: the market is
    resolved, so nobody bets on it again; the claims of the others leave the
    user's share and flag alone; and the user's own claim aborts. *)
Lemma step_unpaid (w : world) (c : call) (user a id : Z) (m : Market) (u : Z) :
  unpaid w user a id m u ->
  status m = STATUS_RESOLVED ->
  winning_outcome m <> 0 ->
  0 < u ->
  0 < outcome_shares m (winning_outcome m) ->
  MAX_U64 < u * original_pool_size m ->
  unpaid (step w c) user a id m u.
Proof.
  intros Hun Hst Hwo Hpos HT Hmul.
  pose proof (claim_rewards_overflows w user a id m u Hun Hst Hwo Hpos HT Hmul) as Habort.
  destruct Hun as ((p & Hm) & (cs & claimed & Hcs & Hc & Hcl)
                   & (ss & ot & us & Hss & Hot & Hus & Hu)).
  split; [|split].
  - destruct (step_resolved_market w c a id (set_pool m p) Hm Hst) as (p' & Hp').
    exists p'. exact Hp'.
  - unfold step. destruct (exec c w) as [w'|e] eqn:Hex; [|eauto 6].
    destruct (exec_claim_table c w w' a id cs claimed Hex Hcs Hc)
      as (cs' & claimed' & Hcs' & Hc' & [-> | (user0 & -> & ->)]); [eauto 6|].
    exists cs', (<[user0 := true]> claimed). split; [exact Hcs'|]. split; [exact Hc'|].
    destruct (decide (user0 = user)) as [->|Hne];
      [simpl in Hex; rewrite Habort in Hex; discriminate Hex|].
    rewrite lookup_insert_ne by exact Hne. exact Hcl.
  - unfold step. destruct (exec c w) as [w'|e] eqn:Hex; [|eauto 8].
    destruct (exec_share_table c w w' a id (winning_outcome m) ss ot us Hex Hss Hot Hus)
      as (ss' & ot' & us' & Hss' & Hot' & Hus'
          & [-> | [(user0 & amt & ->) | (user0 & -> & ->)]]).
    + eauto 8.
    + exfalso. simpl in Hex.
      destruct (move_bet_effect _ _ _ _ _ _ _ Hex) as (m0 & _ & Hm0 & _ & _ & _ & Hact & _).
      rewrite Hm in Hm0. injection Hm0 as <-. simpl in Hact.
      unfold STATUS_ACTIVE, STATUS_RESOLVED in *. congruence.
    + exists ss', ot', (delete user0 us). split; [exact Hss'|]. split; [exact Hot'|].
      split; [exact Hus'|].
      destruct (decide (user0 = user)) as [->|Hne];
        [simpl in Hex; rewrite Habort in Hex; discriminate Hex|].
      rewrite lookup_delete_ne by exact Hne. exact Hu.
Qed.

Lemma run_unpaid (calls : list call) (w : world) (user a id : Z) (m : Market) (u : Z) :
  unpaid w user a id m u ->
  status m = STATUS_RESOLVED ->
  winning_outcome m <> 0 ->
  0 < u ->
  0 < outcome_shares m (winning_outcome m) ->
  MAX_U64 < u * original_pool_size m ->
  unpaid (run calls w) user a id m u.
Proof.
  revert w. induction calls as [|c calls IH]; intros w Hun Hst Hwo Hpos HT Hmul; simpl.
  - exact Hun.
  - apply IH; try assumption. apply step_unpaid; assumption.
Qed.

End MoveClaimOverflow.

(** * Properties that span the two markets *)

Section BothMarkets.
Import PredictionMarket.

(** C1: the claim does not hold of the code. On a resolved market, a
    caller with a positive unclaimed share [u] of the winning outcome, of
    total [T >= u], is owed [floor (u * P / T)] of the snapshot [P], which
    is at most [P]. But both contracts multiply before they divide, in
    checked arithmetic: when [u * P] exceeds the integer width
    ([uint256] in the Solidity contract, [u64] in the Move module) the claim
    fails, and it keeps failing whatever calls are made afterwards, so the
    reward stays in the contract. *)
Theorem claim_product_overflow :
  (forall (s : state) (sender id : Z) (calls : list call),
     let m := market_at s id in
     let u := shares_at s id (winningOutcome m) sender in
     let T := outcome_shares m (winningOutcome m) in
     let P := originalPoolSize m in
     admin m <> 0 -> status m = STATUS_RESOLVED -> winningOutcome m <> 0 ->
     claimed_at s id sender = false ->
     0 < u -> u <= T -> 0 <= P ->
     MAX_UINT256 < u * P ->
     u * P / T <= P
     /\ claimRewards sender id (run calls s) = Err Panic)
  /\ (forall (w : prediction_market.world) (user a id : Z)
        (ms : gmap Z prediction_market.Market) (m : prediction_market.Market)
        (cs : gmap Z (gmap Z bool)) (claimed : gmap Z bool)
        (ss : gmap Z (gmap Z (gmap Z Z))) (ot : gmap Z (gmap Z Z)) (us : gmap Z Z)
        (u : Z) (calls : list prediction_market.call),
        prediction_market.market_stores w !! a = Some ms -> ms !! id = Some m ->
        prediction_market.claim_stores w !! a = Some cs -> cs !! id = Some claimed ->
        prediction_market.shares_stores w !! a = Some ss -> ss !! id = Some ot ->
        ot !! prediction_market.winning_outcome m = Some us -> us !! user = Some u ->
        prediction_market.status m = prediction_market.STATUS_RESOLVED ->
        prediction_market.winning_outcome m <> 0 ->
        default false (claimed !! user) = false ->
        let T := prediction_market.outcome_shares m (prediction_market.winning_outcome m) in
        let P := prediction_market.original_pool_size m in
        0 < u -> u <= T -> 0 <= P ->
        aptos.MAX_U64 < u * P ->
        u * P / T <= P
        /\ prediction_market.claim_rewards user a id (prediction_market.run calls w)
           = Err aptos.ARITHMETIC_ERROR).
Proof.
  assert (Hquot : forall u P T, 0 < u -> u <= T -> 0 <= P -> u * P / T <= P).
  { intros u P T Hu HuT HP. apply Z.div_le_upper_bound; [lia | nia]. }
  split.
  - intros s sender id calls m u T P Hadm Hst Hwo Hcl Hu HuT HP Hmul.
    split; [apply Hquot; assumption|].
    apply run_keeps_overflow; try assumption. fold m u T. lia.
  - intros w user a id ms m cs claimed ss ot us u calls
      Hms Hm Hcs Hc Hss Hot Hus Hu Hst Hwo Hcl T P Hpos HuT HP Hmul.
    split; [apply Hquot; assumption|].
    apply (claim_rewards_overflows _ user a id m u); try assumption; [|fold T; lia].
    apply run_unpaid; try assumption; [|fold T; lia].
    split; [|split].
    + exists (prediction_market.pool m). unfold prediction_market.market_at.
      rewrite Hms. simpl. rewrite Hm. destruct m; reflexivity.
    + exists cs, claimed. repeat split; assumption.
    + exists ss, ot, us. repeat split; assumption.
Qed.

(** The failing inputs. On the Move module a lone stake of [2 ^ 32] units
    on the winning outcome: the market holds the [2 ^ 32] units and owes
    them all to account 21, whose claim aborts, also after it has tried
    once. On the Solidity contract a lone stake of [2 ^ 128]. *)
Lemma claim_product_overflow_witness :
  let w := prediction_market.resolved_lone_stake in
  let s := resolved_huge in
  prediction_market.get_market_stats 10 1 w
    = Ok (prediction_market.STATUS_RESOLVED, prediction_market.OUTCOME_PLAYER1,
          2 ^ 32, 2 ^ 32, 0, 0)
  /\ prediction_market.get_user_shares 10 1 prediction_market.OUTCOME_PLAYER1 21 w
     = Ok (2 ^ 32)
  /\ prediction_market.has_claimed 10 1 21 w = Ok false
  /\ 2 ^ 32 * 2 ^ 32 / 2 ^ 32 = 2 ^ 32
  /\ prediction_market.claim_rewards 21 10 1 w = Err aptos.ARITHMETIC_ERROR
  /\ prediction_market.claim_rewards 21 10 1
       (prediction_market.run [prediction_market.ClaimRewards 21 10 1;
                               prediction_market.ClaimRewards 22 10 1] w)
     = Err aptos.ARITHMETIC_ERROR
  /\ claimRewards 21 1 s = Err Panic
  /\ claimRewards 21 1 (run [ClaimRewards 21 1; Bet 21 1 OUTCOME_PLAYER1 1] s) = Err Panic.
Proof.
  intros w s. destruct claim_product_overflow as [Hsol Hmove].
  split; [vm_compute; reflexivity|]. split; [vm_compute; reflexivity|].
  split; [vm_compute; reflexivity|]. split; [vm_compute; reflexivity|].
  assert (Hm : forall calls,
             prediction_market.claim_rewards 21 10 1 (prediction_market.run calls w)
             = Err aptos.ARITHMETIC_ERROR).
  { intros calls.
    refine (proj2 (Hmove w 21 10 1
              (default ∅ (prediction_market.market_stores w !! 10))
              {| prediction_market.admin := 10; prediction_market.match_id := 1;
                 prediction_market.player1 := 11; prediction_market.player2 := 12;
                 prediction_market.status := prediction_market.STATUS_RESOLVED;
                 prediction_market.winning_outcome := prediction_market.OUTCOME_PLAYER1;
                 prediction_market.pool := 2 ^ 32;
                 prediction_market.original_pool_size := 2 ^ 32;
                 prediction_market.player1_shares := 2 ^ 32;
                 prediction_market.player2_shares := 0;
                 prediction_market.draw_shares := 0 |}
              (default ∅ (prediction_market.claim_stores w !! 10)) ∅
              (default ∅ (prediction_market.shares_stores w !! 10))
              (default ∅ (default ∅ (prediction_market.shares_stores w !! 10) !! 1))
              (<[21 := 2 ^ 32]> ∅) (2 ^ 32) calls _ _ _ _ _ _ _ _ _ _ _ _ _ _ _));
      try (vm_compute; reflexivity); vm_compute; discriminate. }
  assert (Hs : forall calls, claimRewards 21 1 (run calls s) = Err Panic).
  { intros calls.
    refine (proj2 (Hsol s 21 1 calls _ _ _ _ _ _ _ _));
      try (vm_compute; reflexivity); vm_compute; discriminate. }
  split; [exact (Hm [])|]. split; [apply Hm|]. split; [exact (Hs [])|]. apply Hs.
Defined.

(** C3: in both markets, from the creation of a market on, after every
    finite sequence of successful bets (any callers, any of the three
    outcomes, any amounts, repeated or not, on this market or on others)
    the market is still Active and what it holds is the sum of its three
    outcome totals ([pool] in the Solidity contract, the value of the coin
    of the market in the Move module); and each further successful bet of
    [amount] on it adds [amount] to the total of its outcome and to no other
    total, to the pool, and to the caller's share on that outcome, and
    leaves the pool balanced. *)
Theorem bet_sequence_pool_balanced :
  (forall (s0 s1 s : state) (creator id p1 p2 : Z),
     createMarket creator id p1 p2 s0 = Ok s1 ->
     bets s1 s ->
     let m := market_at s id in
     status m = STATUS_ACTIVE
     /\ pool_balanced m
     /\ forall sender outcome amount s',
          bet sender id outcome amount s = Ok s' ->
          let m' := market_at s' id in
          player1Shares m' =
            player1Shares m + (if decide (outcome = OUTCOME_PLAYER1) then amount else 0)
          /\ player2Shares m' =
               player2Shares m + (if decide (outcome = OUTCOME_PLAYER2) then amount else 0)
          /\ drawShares m' =
               drawShares m + (if decide (outcome = OUTCOME_DRAW) then amount else 0)
          /\ (outcome = OUTCOME_PLAYER1 \/ outcome = OUTCOME_PLAYER2
              \/ outcome = OUTCOME_DRAW)
          /\ pool m' = pool m + amount
          /\ shares_at s' id outcome sender = shares_at s id outcome sender + amount
          /\ status m' = STATUS_ACTIVE
          /\ pool_balanced m')
  /\ (forall (w0 w1 w : prediction_market.world) (a id p1 p2 : Z),
        prediction_market.create_market a id p1 p2 w0 = Ok w1 ->
        prediction_market.bets w1 w ->
        exists m,
          prediction_market.market_at w a id = Some m
          /\ prediction_market.status m = prediction_market.STATUS_ACTIVE
          /\ prediction_market.pool_balanced m
          /\ forall user outcome amount w',
               prediction_market.bet user a id outcome amount w = Ok w' ->
               exists m',
                 prediction_market.market_at w' a id = Some m'
                 /\ prediction_market.player1_shares m' =
                      prediction_market.player1_shares m
                      + (if decide (outcome = prediction_market.OUTCOME_PLAYER1)
                         then amount else 0)
                 /\ prediction_market.player2_shares m' =
                      prediction_market.player2_shares m
                      + (if decide (outcome = prediction_market.OUTCOME_PLAYER2)
                         then amount else 0)
                 /\ prediction_market.draw_shares m' =
                      prediction_market.draw_shares m
                      + (if decide (outcome = prediction_market.OUTCOME_DRAW)
                         then amount else 0)
                 /\ (outcome = prediction_market.OUTCOME_PLAYER1
                     \/ outcome = prediction_market.OUTCOME_PLAYER2
                     \/ outcome = prediction_market.OUTCOME_DRAW)
                 /\ 0 < amount
                 /\ prediction_market.pool m' = prediction_market.pool m + amount
                 /\ prediction_market.shares_at w' a id outcome user
                    = prediction_market.shares_at w a id outcome user + amount
                 /\ prediction_market.status m' = prediction_market.STATUS_ACTIVE
                 /\ prediction_market.pool_balanced m').
Proof.
  split.
  - intros s0 s1 s creator id p1 p2 Hcreate Hbets.
    exact (bets_keep_pool_balanced s0 s1 s creator id p1 p2 Hcreate Hbets).
  - intros w0 w1 w a id p1 p2 Hcreate Hbets.
    exact (move_bets_keep_pool_balanced w0 w1 w a id p1 p2 Hcreate Hbets).
Qed.

(** Three bets on each side: the Solidity market holds 3000 and the Move
    market 3000, and both are balanced. *)
Lemma bet_sequence_pool_balanced_witness :
  let s0 := deployed [(21, 1000); (22, 2000)] in
  let s1 := step s0 (CreateMarket 10 1 11 12) in
  let s := run [Bet 21 1 OUTCOME_PLAYER1 400; Bet 22 1 OUTCOME_DRAW 2000;
                Bet 21 1 OUTCOME_PLAYER1 600] s1 in
  let w0 := prediction_market.step (prediction_market.genesis [(21, 1000); (22, 2000)])
              (prediction_market.Initialize 10) in
  let w1 := prediction_market.step w0 (prediction_market.CreateMarket 10 1 11 12) in
  let w := prediction_market.run
             [prediction_market.Bet 21 10 1 1 400; prediction_market.Bet 22 10 1 3 2000;
              prediction_market.Bet 21 10 1 1 600] w1 in
  pool (market_at s 1) = 3000
  /\ pool_balanced (market_at s 1)
  /\ exists m, prediction_market.market_at w 10 1 = Some m
       /\ prediction_market.pool m = 3000
       /\ prediction_market.pool_balanced m.
Proof.
  intros s0 s1 s w0 w1 w.
  destruct bet_sequence_pool_balanced as [Hsol Hmove].
  assert (Hc : createMarket 10 1 11 12 s0 = Ok s1) by (vm_compute; reflexivity).
  assert (Hb : bets s1 s).
  { apply (bets_more s1 (run [Bet 21 1 OUTCOME_PLAYER1 400; Bet 22 1 OUTCOME_DRAW 2000] s1)
             s 21 1 OUTCOME_PLAYER1 600); [|vm_compute; reflexivity].
    apply (bets_more s1 (run [Bet 21 1 OUTCOME_PLAYER1 400] s1) _ 22 1 OUTCOME_DRAW 2000);
      [|vm_compute; reflexivity].
    apply (bets_more s1 s1 _ 21 1 OUTCOME_PLAYER1 400); [|vm_compute; reflexivity].
    apply bets_none. }
  assert (Hc' : prediction_market.create_market 10 1 11 12 w0 = Ok w1)
    by (vm_compute; reflexivity).
  assert (Hb' : prediction_market.bets w1 w).
  { apply (prediction_market.bets_more w1
             (prediction_market.run
                [prediction_market.Bet 21 10 1 1 400; prediction_market.Bet 22 10 1 3 2000]
                w1) w 21 10 1 1 600); [|vm_compute; reflexivity].
    apply (prediction_market.bets_more w1
             (prediction_market.run [prediction_market.Bet 21 10 1 1 400] w1)
             _ 22 10 1 3 2000); [|vm_compute; reflexivity].
    apply (prediction_market.bets_more w1 w1 _ 21 10 1 1 400); [|vm_compute; reflexivity].
    apply prediction_market.bets_none. }
  split; [vm_compute; reflexivity|].
  destruct (Hsol s0 s1 s 10 1 11 12 Hc Hb) as (_ & Hpb & _).
  split; [exact Hpb|].
  destruct (Hmove w0 w1 w 10 1 11 12 Hc' Hb') as (m & Hm & _ & Hpb' & _).
  exists m. split; [exact Hm|]. split; [|exact Hpb'].
  assert (Hm' : prediction_market.market_at w 10 1
                = Some {| prediction_market.admin := 10; prediction_market.match_id := 1;
                          prediction_market.player1 := 11; prediction_market.player2 := 12;
                          prediction_market.status := 1;
                          prediction_market.winning_outcome := 0;
                          prediction_market.pool := 3000;
                          prediction_market.original_pool_size := 0;
                          prediction_market.player1_shares := 1000;
                          prediction_market.player2_shares := 0;
                          prediction_market.draw_shares := 2000 |})
    by (vm_compute; reflexivity).
  rewrite Hm' in Hm. injection Hm as <-. reflexivity.
Defined.


End BothMarkets.
